(** * snakeql: a shallow embedding of the field algebra, the query
      pipeline, the lexer and the parser, with the properties of the
      specification proved (or refuted) against it.

    Source files embedded here:
      - [snakeql/core.py]      fields, [SELECT], [SelectQuery], [SelectResult]
      - [snakeql/functions.py] the function registry [f]
      - [snakeql/lexer.py]     the PLY token rules
      - [snakeql/parser.py]    the PLY grammar and its reduction actions

    Python objects are modelled by the inductive type [value]; exceptions
    by the type [error] and the [result] monad; generators by the list of
    rows they yield together with the exception that ends them, if any. *)

From Stdlib Require Import ZArith List String Ascii Bool Lia Arith DecimalString.
From Stdlib Require Import Sorting.Sorted Sorting.Permutation.
From Stdlib Require DecimalPos DecimalFacts.
Import ListNotations.

Set Implicit Arguments.
Local Open Scope list_scope.
Local Open Scope string_scope.

(* ================================================================== *)
(** ** Exceptions and the result monad *)
(* ================================================================== *)

(** The exception classes the modelled code can raise.  The messages are
    abbreviated. *)
Inductive error : Type :=
| TypeError (msg : string)
| ValueError (msg : string)
| AttributeError (msg : string)
| IndexError (msg : string)
| KeyError (msg : string)
| NameError (msg : string)
| AssertionError (msg : string)
| SyntaxError (msg : string)
| ZeroDivisionError (msg : string)
(* not a Python exception: the run leaves the modelled fragment *)
| NotModelled (what : string).

Inductive result (A : Type) : Type :=
| Ok (a : A)
| Raise (e : error).

Arguments Ok {A} a.
Arguments Raise {A} e.

Definition bind {A B : Type} (c : result A) (k : A -> result B) : result B :=
  match c with
  | Ok a => k a
  | Raise e => Raise e
  end.

Notation "x <- c ;; k" := (bind c (fun x => k))
  (at level 61, c at next level, right associativity).

Notation "' pat <- c ;; k" := (bind c (fun x => let 'pat := x in k))
  (at level 61, pat pattern, c at next level, right associativity).

(** [mapM f l] evaluates [f] on the elements from left to right and stops
    at the first exception, as a Python comprehension does. *)
Definition mapM {A B : Type} (f : A -> result B) : list A -> result (list B) :=
  fix go (l : list A) : result (list B) :=
    match l with
    | [] => Ok []
    | x :: l' => y <- f x ;; ys <- go l' ;; Ok (y :: ys)
    end.

(* ================================================================== *)
(** ** Python callables referenced by the repository *)
(* ================================================================== *)

(** A function object is identified by its constructor: [FunctionField._equals]
    compares functions with [is]. *)
Inductive pyfunc : Type :=
(* defined in core.py *)
| F_and | F_or | F_not | F_in | F_matches
(* the operator module *)
| F_eq | F_ne | F_lt | F_le | F_gt | F_ge
| F_add | F_sub | F_mul | F_truediv | F_mod | F_pow
| F_is | F_contains | F_abs | F_concat
(* fnmatch.fnmatch *)
| F_fnmatch
(* builtins registered in functions.py *)
| F_round | F_str | F_upper | F_lower | F_replace | F_len
| F_randint | F_random
| F_sum | F_max | F_min | F_list | F_tuple | F_set
(* aggregate functions defined in functions.py *)
| F_product | F_join | F_first | F_average | F_weighted_average
(* any other callable registered at run time *)
| F_user (name : string).

Definition pyfunc_eq_dec (a b : pyfunc) : {a = b} + {a <> b}.
Proof. decide equality. apply string_dec. Defined.

Definition pyfunc_is (a b : pyfunc) : bool :=
  if pyfunc_eq_dec a b then true else false.

(* ================================================================== *)
(** ** Values and fields *)
(* ================================================================== *)

(** Python objects.  [VObj cls attrs] is an instance of a dataclass-like
    record type [cls] with the given attributes; [VSet] is a set of
    integers, its elements listed in some order; [VField] is a field
    object used as a value (the module-level [o], for one). *)
Unset Elimination Schemes.
Inductive value : Type :=
| VNone
| VBool (b : bool)
| VInt (n : Z)
| VStr (s : string)
| VTuple (items : list value)
| VList (items : list value)
| VSet (elems : list Z)
| VObj (cls : string) (attrs : list (string * value))
| VField (f : field)
with field : Type :=
| IdentityField
| AttrField (attr : string)
| KeyField (key : value)
| ConstantField (v : value)
| ListField (fields : list field)
| FunctionField (func : pyfunc) (args : list field) (name : string)
| OperatorField (func : pyfunc) (args : list field) (name : string)
| AggregateFunctionField (func : pyfunc) (args : list field) (name : string)
| AliasField (fld : field) (name : string).
Set Elimination Schemes.

(** Induction over values that goes through the nested lists and treats
    field objects as leaves. *)
Section ValueInd.
Variable P : value -> Prop.
Hypothesis HNone : P VNone.
Hypothesis HBool : forall b, P (VBool b).
Hypothesis HInt : forall n, P (VInt n).
Hypothesis HStr : forall s, P (VStr s).
Hypothesis HTuple : forall l, Forall P l -> P (VTuple l).
Hypothesis HList : forall l, Forall P l -> P (VList l).
Hypothesis HSet : forall l, P (VSet l).
Hypothesis HObj : forall c l, Forall (fun kv => P (snd kv)) l -> P (VObj c l).
Hypothesis HField : forall f, P (VField f).

Fixpoint value_nested_ind (v : value) : P v :=
  match v with
  | VNone => HNone
  | VBool b => HBool b
  | VInt n => HInt n
  | VStr s => HStr s
  | VTuple l =>
      HTuple ((fix go (l : list value) : Forall P l :=
                 match l with
                 | [] => Forall_nil _
                 | x :: l' => Forall_cons _ (value_nested_ind x) (go l')
                 end) l)
  | VList l =>
      HList ((fix go (l : list value) : Forall P l :=
                match l with
                | [] => Forall_nil _
                | x :: l' => Forall_cons _ (value_nested_ind x) (go l')
                end) l)
  | VSet l => HSet l
  | VObj c l =>
      HObj c ((fix go (l : list (string * value)) : Forall (fun kv => P (snd kv)) l :=
                 match l with
                 | [] => Forall_nil _
                 | kv :: l' => Forall_cons _ (value_nested_ind (snd kv)) (go l')
                 end) l)
  | VField f => HField f
  end.
End ValueInd.

(** Induction over fields that goes through argument lists and aliases. *)
Section FieldInd.
Variable P : field -> Prop.
Hypothesis HId : P IdentityField.
Hypothesis HAttr : forall a, P (AttrField a).
Hypothesis HKey : forall k, P (KeyField k).
Hypothesis HConst : forall v, P (ConstantField v).
Hypothesis HLst : forall l, Forall P l -> P (ListField l).
Hypothesis HFun : forall fn l n, Forall P l -> P (FunctionField fn l n).
Hypothesis HOp : forall fn l n, Forall P l -> P (OperatorField fn l n).
Hypothesis HAgg : forall fn l n, Forall P l -> P (AggregateFunctionField fn l n).
Hypothesis HAlias : forall f n, P f -> P (AliasField f n).

End FieldInd.

(** [isinstance(x, Field)] and the coercion of core.py. *)
Definition to_field (field_or_value : value) : field :=
  match field_or_value with
  | VField f => f
  | v => ConstantField v
  end.

Definition to_fields (fields_or_values : list value) : list field :=
  map to_field fields_or_values.

(** [func.__name__]. *)
Definition func_name (fn : pyfunc) : string :=
  match fn with
  | F_and => "and_" | F_or => "or_" | F_not => "not_" | F_in => "in_"
  | F_matches => "matches"
  | F_eq => "eq" | F_ne => "ne" | F_lt => "lt" | F_le => "le"
  | F_gt => "gt" | F_ge => "ge"
  | F_add => "add" | F_sub => "sub" | F_mul => "mul" | F_truediv => "truediv"
  | F_mod => "mod" | F_pow => "pow" | F_is => "is_" | F_contains => "contains"
  | F_abs => "abs" | F_concat => "concat" | F_fnmatch => "fnmatch"
  | F_round => "round" | F_str => "str" | F_upper => "upper"
  | F_lower => "lower" | F_replace => "replace" | F_len => "len"
  | F_randint => "randint" | F_random => "random"
  | F_sum => "sum" | F_max => "max" | F_min => "min" | F_list => "list"
  | F_tuple => "tuple" | F_set => "set"
  | F_product => "product" | F_join => "join" | F_first => "first"
  | F_average => "average" | F_weighted_average => "weighted_average"
  | F_user name => name
  end.

(** [name or func.__name__], as [FunctionField.__init__] sets the name. *)
Definition name_or (name : string) (func : pyfunc) : string :=
  match name with
  | EmptyString => func_name func
  | _ => name
  end.

(** [field_op(operator, op_str)] builds the method installed on [Field]. *)
Definition field_op (operator : pyfunc) (op_str : string)
    (self : field) (other : value) : field :=
  OperatorField operator [self; to_field other] (name_or op_str operator).

(** The module-level identity field [o = IdentityField()]. *)
Definition o : field := IdentityField.

(* ================================================================== *)
(** ** Python operations on values *)
(* ================================================================== *)

(** Truth value of an object.  [Field] defines neither [__bool__] nor
    [__len__], so every field object is true; so is every record. *)
Definition truthy (v : value) : bool :=
  match v with
  | VNone => false
  | VBool b => b
  | VInt n => negb (Z.eqb n 0)
  | VStr s => negb (String.eqb s "")
  | VTuple items => negb (Nat.eqb (List.length items) 0)
  | VList items => negb (Nat.eqb (List.length items) 0)
  | VSet elems => negb (Nat.eqb (List.length elems) 0)
  | VObj _ _ => true
  | VField _ => true
  end.

(** [bool] is a subclass of [int]. *)
Definition as_int (v : value) : option Z :=
  match v with
  | VBool b => Some (if b then 1%Z else 0%Z)
  | VInt n => Some n
  | _ => None
  end.

Definition zmem (x : Z) (l : list Z) : bool := existsb (Z.eqb x) l.
Definition subset (a b : list Z) : bool := forallb (fun x => zmem x b) a.
Definition set_eq (a b : list Z) : bool := subset a b && subset b a.

(** [a == b].  A field on either side answers with an operator node
    ([Field.__eq__], reached directly or as the reflected method); every
    other pair answers with a [bool]. *)
Fixpoint py_eq (a b : value) {struct a} : value :=
  let seq_eq :=
    fix seq_eq (xs ys : list value) {struct xs} : bool :=
      match xs, ys with
      | [], [] => true
      | x :: xs', y :: ys' => truthy (py_eq x y) && seq_eq xs' ys'
      | _, _ => false
      end in
  let attrs_eq :=
    fix attrs_eq (xs ys : list (string * value)) {struct xs} : bool :=
      match xs, ys with
      | [], [] => true
      | kx :: xs', ky :: ys' =>
          String.eqb (fst kx) (fst ky) && truthy (py_eq (snd kx) (snd ky))
          && attrs_eq xs' ys'
      | _, _ => false
      end in
  match a, b with
  | VField f, _ => VField (field_op F_eq "==" f b)
  | _, VField g => VField (field_op F_eq "==" g a)
  | VNone, VNone => VBool true
  | VBool x, VBool y => VBool (Bool.eqb x y)
  | VBool x, VInt y => VBool (Z.eqb (if x then 1 else 0) y)
  | VInt x, VBool y => VBool (Z.eqb x (if y then 1 else 0))
  | VInt x, VInt y => VBool (Z.eqb x y)
  | VStr x, VStr y => VBool (String.eqb x y)
  | VTuple xs, VTuple ys => VBool (seq_eq xs ys)
  | VList xs, VList ys => VBool (seq_eq xs ys)
  | VSet xs, VSet ys => VBool (set_eq xs ys)
  | VObj c xs, VObj d ys => VBool (String.eqb c d && attrs_eq xs ys)
  | _, _ => VBool false
  end.

(** The truth value of [a == b], as [list.__eq__], [in], [groupby] and
    [set] membership use it. *)
Definition eqb_val (a b : value) : bool := truthy (py_eq a b).

(** [a != b]. *)
Definition py_ne (a b : value) : value :=
  match a, b with
  | VField f, _ => VField (field_op F_ne "!=" f b)
  | _, VField g => VField (field_op F_ne "!=" g a)
  | _, _ => VBool (negb (eqb_val a b))
  end.

(** The four ordering operators. *)
Inductive cmpop : Type := Lt | Le | Gt | Ge.

Definition cmp_swap (op : cmpop) : cmpop :=
  match op with Lt => Gt | Le => Ge | Gt => Lt | Ge => Le end.

Definition cmp_func (op : cmpop) : pyfunc :=
  match op with Lt => F_lt | Le => F_le | Gt => F_gt | Ge => F_ge end.

Definition cmp_str (op : cmpop) : string :=
  match op with Lt => "<" | Le => "<=" | Gt => ">" | Ge => ">=" end.

Definition cmp_Z (op : cmpop) (x y : Z) : bool :=
  match op with
  | Lt => Z.ltb x y | Le => Z.leb x y | Gt => Z.ltb y x | Ge => Z.leb y x
  end.

Definition cmp_nat (op : cmpop) (x y : nat) : bool :=
  match op with
  | Lt => Nat.ltb x y | Le => Nat.leb x y | Gt => Nat.ltb y x | Ge => Nat.leb y x
  end.

Definition cmp_string (op : cmpop) (x y : string) : bool :=
  match op, String.compare x y with
  | Lt, Datatypes.Lt => true
  | Le, (Datatypes.Lt | Datatypes.Eq) => true
  | Gt, Datatypes.Gt => true
  | Ge, (Datatypes.Gt | Datatypes.Eq) => true
  | _, _ => false
  end.

(** Sets are ordered by inclusion: a partial order. *)
Definition cmp_set (op : cmpop) (x y : list Z) : bool :=
  match op with
  | Lt => subset x y && negb (subset y x)
  | Le => subset x y
  | Gt => subset y x && negb (subset x y)
  | Ge => subset y x
  end.

Definition type_name (v : value) : string :=
  match v with
  | VNone => "NoneType" | VBool _ => "bool" | VInt _ => "int"
  | VStr _ => "str" | VTuple _ => "tuple" | VList _ => "list"
  | VSet _ => "set" | VObj c _ => c | VField _ => "Field"
  end.

Definition not_supported (op : cmpop) (a b : value) : error :=
  TypeError ("'" ++ cmp_str op ++ "' not supported between instances of '"
             ++ type_name a ++ "' and '" ++ type_name b ++ "'").

(** [a < b], [a <= b], [a > b], [a >= b].  Sequences compare at the first
    position where the items are not equal, and by length when there is
    none. *)
Fixpoint py_cmp (op : cmpop) (a b : value) {struct a} : result value :=
  let seq_cmp :=
    fix seq_cmp (xs ys : list value) {struct xs} : result value :=
      match xs, ys with
      | x :: xs', y :: ys' =>
          if eqb_val x y then seq_cmp xs' ys' else py_cmp op x y
      | _, _ => Ok (VBool (cmp_nat op (List.length xs) (List.length ys)))
      end in
  match a, b with
  | VField f, _ => Ok (VField (field_op (cmp_func op) (cmp_str op) f b))
  | _, VField g =>
      Ok (VField (field_op (cmp_func (cmp_swap op)) (cmp_str (cmp_swap op)) g a))
  | VBool x, VBool y => Ok (VBool (cmp_Z op (if x then 1 else 0) (if y then 1 else 0)))
  | VBool x, VInt y => Ok (VBool (cmp_Z op (if x then 1 else 0) y))
  | VInt x, VBool y => Ok (VBool (cmp_Z op x (if y then 1 else 0)))
  | VInt x, VInt y => Ok (VBool (cmp_Z op x y))
  | VStr x, VStr y => Ok (VBool (cmp_string op x y))
  | VTuple xs, VTuple ys => seq_cmp xs ys
  | VList xs, VList ys => seq_cmp xs ys
  | VSet xs, VSet ys => Ok (VBool (cmp_set op xs ys))
  | _, _ => Raise (not_supported op a b)
  end.

Definition py_lt : value -> value -> result value := py_cmp Lt.

(** Hashability, as [set.add] needs it: lists, sets, records with a
    generated [__eq__] and fields (which define [__eq__] and so lose
    [__hash__]) are unhashable. *)
Fixpoint hashable (v : value) : bool :=
  match v with
  | VNone | VBool _ | VInt _ | VStr _ => true
  | VTuple items => forallb hashable items
  | VList _ | VSet _ | VObj _ _ | VField _ => false
  end.

(** One-character strings, as iterating or indexing a string gives. *)
Fixpoint chars (s : string) : list value :=
  match s with
  | EmptyString => []
  | String c s' => VStr (String c EmptyString) :: chars s'
  end.

(** The items a [for] loop over the object visits.  The order in which a
    set is visited is left to the implementation, and iterating the
    identity field (through its [__getitem__]) does not end: both are
    outside the model. *)
Definition py_iter (v : value) : result (list value) :=
  match v with
  | VTuple items => Ok items
  | VList items => Ok items
  | VStr s => Ok (chars s)
  | VSet _ => Raise (NotModelled "iteration order of a set")
  | VField IdentityField => Raise (NotModelled "iteration over the identity field")
  | _ => Raise (TypeError ("'" ++ type_name v ++ "' object is not iterable"))
  end.

(** [x in y].  The identity field is searched through its [__getitem__]:
    its first item [o[0]] compares true with anything. *)
Definition py_in (x y : value) : result value :=
  match y with
  | VTuple items | VList items => Ok (VBool (existsb (fun e => eqb_val e x) items))
  | VSet elems =>
      match as_int x with
      | Some n => Ok (VBool (zmem n elems))
      | None =>
          if hashable x then Ok (VBool false)
          else Raise (TypeError ("unhashable type: '" ++ type_name x ++ "'"))
      end
  | VStr s =>
      match x with
      | VStr t =>
          Ok (VBool ((fix find (fuel : nat) (s : string) : bool :=
                        match fuel with
                        | 0 => false
                        | S fuel' =>
                            String.prefix t s
                            || match s with
                               | EmptyString => false
                               | String _ s' => find fuel' s'
                               end
                        end) (S (String.length s)) s))
      | _ => Raise (TypeError "'in <string>' requires string as left operand")
      end
  | VField IdentityField => Ok (VBool true)
  | _ => Raise (TypeError ("argument of type '" ++ type_name y ++ "' is not iterable"))
  end.

(** [seq[key]] with an integer key; a negative index counts from the
    end. *)
Definition index_seq (items : list value) (key : value) : result value :=
  match as_int key with
  | Some i =>
      let n := Z.of_nat (List.length items) in
      let j := if Z.ltb i 0 then Z.add i n else i in
      if Z.ltb j 0 then Raise (IndexError "index out of range")
      else match nth_error items (Z.to_nat j) with
           | Some x => Ok x
           | None => Raise (IndexError "index out of range")
           end
  | None => Raise (TypeError "indices must be integers")
  end.

(** [obj[key]]. *)
Definition py_getitem (obj key : value) : result value :=
  match obj with
  | VTuple items | VList items => index_seq items key
  | VStr s => index_seq (chars s) key
  | VField IdentityField => Ok (VField (KeyField key))
  | _ => Raise (TypeError ("'" ++ type_name obj ++ "' object is not subscriptable"))
  end.

Fixpoint lookup_attr (attr : string) (attrs : list (string * value)) : option value :=
  match attrs with
  | [] => None
  | (k, v) :: rest => if String.eqb k attr then Some v else lookup_attr attr rest
  end.

(** [getattr(obj, attr)].  A record has the attributes listed in it and
    no other; the attributes and methods of the other objects are outside
    the model. *)
Definition py_getattr (obj : value) (attr : string) : result value :=
  match obj with
  | VObj cls attrs =>
      match lookup_attr attr attrs with
      | Some v => Ok v
      | None => Raise (AttributeError ("'" ++ cls ++ "' object has no attribute '" ++ attr ++ "'"))
      end
  | _ => Raise (NotModelled ("attribute of a '" ++ type_name obj ++ "' object"))
  end.

(* ================================================================== *)
(** ** core.py: operator implementations and the [Field] methods *)
(* ================================================================== *)

Definition and_ (x y : value) : value := if truthy x then y else x.

(** The body reads [o or y]: [o] is the module-level identity field, not
    the parameter [x]. *)
Definition or_ (x y : value) : value :=
  if truthy (VField o) then VField o else y.

Definition not_ (x : value) : value := VBool (negb (truthy x)).

Definition in_ (x y : value) : result value := py_in x y.

(** Python's own [x or y], for comparison with [or_]. *)
Definition py_or (x y : value) : value := if truthy x then x else y.

(** Classification: [_is_mapper] is the spec's is_scalar, [_is_aggregator]
    its is_aggregate. *)
Fixpoint _is_mapper (self : field) : bool :=
  match self with
  | IdentityField | AttrField _ | KeyField _ | ConstantField _ => true
  | ListField fields => forallb _is_mapper fields
  | FunctionField _ args _ | OperatorField _ args _ => forallb _is_mapper args
  | AggregateFunctionField _ _ _ => false
  | AliasField fld _ => _is_mapper fld
  end.

Fixpoint _is_aggregator (self : field) : bool :=
  match self with
  | IdentityField | AttrField _ | KeyField _ => false
  | ConstantField _ => true
  | ListField fields => forallb _is_aggregator fields
  | FunctionField _ args _ | OperatorField _ args _ => forallb _is_aggregator args
  | AggregateFunctionField _ _ _ => true
  | AliasField fld _ => _is_aggregator fld
  end.

(** *** Structural equality *)

(** The loop [for sf, of in zip(..): if not sf._equals(of): return False]. *)
Definition all_equals (eqf : field -> field -> option bool)
  : list field -> list field -> option bool :=
  fix go (xs ys : list field) : option bool :=
    match xs, ys with
    | x :: xs', y :: ys' =>
        match eqf x y with
        | Some true => go xs' ys'
        | Some false => Some false
        | None => None
        end
    | _, _ => Some true
    end.

(** [self._equals(other)], dispatched on the class of [self].  The method
    of a non-alias class hands an alias [other] over to
    [other._equals(self)], so the recursion is on neither argument alone:
    the model counts calls and [None] means the count ran out
    ([equals_fuel_total] shows it never does for [_equals]). *)
Fixpoint equals_fuel (n : nat) (self other : field) {struct n} : option bool :=
  match n with
  | 0 => None
  | S n' =>
      match self with
      | AliasField fld _ => equals_fuel n' fld other
      | _ =>
          match other with
          | AliasField _ _ => equals_fuel n' other self
          | _ =>
              match self, other with
              | IdentityField, IdentityField => Some true
              | AttrField a, AttrField b => Some (String.eqb a b)
              | KeyField a, KeyField b => Some (eqb_val a b)
              | ConstantField a, ConstantField b => Some (eqb_val a b)
              | ListField xs, ListField ys =>
                  if negb (Nat.eqb (List.length xs) (List.length ys)) then Some false
                  else all_equals (equals_fuel n') xs ys
              | FunctionField fn xs _, FunctionField gn ys _
              | OperatorField fn xs _, OperatorField gn ys _
              | AggregateFunctionField fn xs _, AggregateFunctionField gn ys _ =>
                  if negb (pyfunc_is fn gn) then Some false
                  else if negb (Nat.eqb (List.length xs) (List.length ys)) then Some false
                  else all_equals (equals_fuel n') xs ys
              | _, _ => Some false
              end
          end
      end
  end.

Fixpoint fsize (f : field) : nat :=
  match f with
  | IdentityField | AttrField _ | KeyField _ | ConstantField _ => 1
  | ListField l | FunctionField _ l _ | OperatorField _ l _
  | AggregateFunctionField _ l _ => S (list_sum (map fsize l))
  | AliasField g _ => S (fsize g)
  end.

Definition _equals (self other : field) : bool :=
  match equals_fuel (2 * (fsize self + fsize other) + 2) self other with
  | Some b => b
  | None => false
  end.

(** [field_index(needle_field, haystack_fields)]. *)
Definition field_index (needle_field : field) (haystack_fields : list field)
  : option nat :=
  (fix go (i : nat) (l : list field) : option nat :=
     match l with
     | [] => None
     | candidate_field :: l' =>
         if _equals needle_field candidate_field then Some i else go (S i) l'
     end) 0 haystack_fields.

(** *** Constructors that can fail *)

(** A prefix of [name] matches [[a-zA-Z_][a-zA-Z_0-9]*]: what
    [re.match] tests, which anchors at the start only. *)
Definition is_ident_start (c : ascii) : bool :=
  let n := nat_of_ascii c in
  (((65 <=? n) && (n <=? 90)) || ((97 <=? n) && (n <=? 122)) || (n =? 95))%nat.

Definition is_ident_char (c : ascii) : bool :=
  let n := nat_of_ascii c in
  (is_ident_start c || ((48 <=? n) && (n <=? 57)))%nat.

(** [re.match(r"[a-zA-Z_][a-zA-Z_0-9]*", name)]: the matched prefix. *)
Fixpoint ident_run (s : string) : string :=
  match s with
  | String c s' => if is_ident_char c then String c (ident_run s') else EmptyString
  | EmptyString => EmptyString
  end.

Definition re_match_ident (name : string) : option string :=
  match name with
  | String c s' => if is_ident_start c then Some (String c (ident_run s')) else None
  | EmptyString => None
  end.

(** [name] as a whole is an identifier: what the assertion message of
    [AliasField.__init__] and the specification ask for. *)
Definition is_identifier (name : string) : bool :=
  match re_match_ident name with
  | Some m => String.eqb m name
  | None => false
  end.

Module AliasField.
(** [AliasField.__init__]. *)
Definition __init__ (fld : value) (name : string) : result field :=
  match re_match_ident name with
  | Some _ => Ok (AliasField (to_field fld) name)
  | None => Raise (AssertionError "Alias must be a valid Python identifier")
  end.
End AliasField.

Module OperatorField.
(** [OperatorField.__init__]. *)
Definition __init__ (func : pyfunc) (args : list field) (name : string)
  : result field :=
  if (Nat.eqb (List.length args) 1 || Nat.eqb (List.length args) 2)%bool
  then Ok (OperatorField func args (name_or name func))
  else Raise (AssertionError "").
End OperatorField.

Module AggregateFunctionField.
(** [AggregateFunctionField.__init__]: the node is built, then the
    assertion on the arguments decides whether the caller gets it. *)
Definition __init__ (func : pyfunc) (args : list field) (name : string)
  : result field :=
  if forallb _is_mapper args
  then Ok (AggregateFunctionField func args (name_or name func))
  else Raise (AssertionError "").
End AggregateFunctionField.

(** The methods of the base class [Field]. *)
Module Field.
Definition AS (self : field) (name : string) : result field :=
  AliasField.__init__ (VField self) name.
Definition IN (self : field) (others : list value) : field :=
  OperatorField F_in [self; ListField (to_fields others)] "IN".
Definition __invert__ (self : field) : field :=
  OperatorField F_not [self] "NOT".
Definition __and__ := field_op F_and "AND".
Definition __or__ := field_op F_or "OR".
Definition __ne__ := field_op F_ne "!=".
Definition __lt__ := field_op F_lt "<".
Definition __le__ := field_op F_le "<=".
Definition __gt__ := field_op F_gt ">".
Definition __ge__ := field_op F_ge ">=".
Definition __add__ := field_op F_add "+".
Definition __sub__ := field_op F_sub "-".
Definition __mul__ := field_op F_mul "*".
Definition __truediv__ := field_op F_truediv "/".
Definition __mod__ := field_op F_mod "%".
Definition __pow__ := field_op F_pow "**".
Definition IS := field_op F_is "IS".
Definition CONTAINS := field_op F_contains "CONTAINS".
Definition LIKE := field_op F_fnmatch "LIKE".
Definition MATCHES := field_op F_matches "MATCHES".
Definition AND := __and__.
Definition OR := __or__.
End Field.

Definition NOT (fld : field) : field := Field.__invert__ fld.

(* ================================================================== *)
(** ** Applying functions and evaluating fields *)
(* ================================================================== *)

Definition all_ints (vs : list value) : option (list Z) :=
  fold_right (fun v acc =>
                match as_int v, acc with
                | Some n, Some l => Some (n :: l)
                | _, _ => None
                end) (Some []) vs.

Definition all_strs (vs : list value) : option (list string) :=
  fold_right (fun v acc =>
                match v, acc with
                | VStr s, Some l => Some (s :: l)
                | _, _ => None
                end) (Some []) vs.

Definition seq_items (v : value) : option (list value) :=
  match v with
  | VTuple items | VList items => Some items
  | _ => None
  end.

(** The part of the callables that the model computes itself: the
    functions of core.py and functions.py, comparisons, integer
    arithmetic and the sequence builtins.  [None] means the call is
    outside this part (regular expressions, floats, random numbers,
    user functions, another arity) and is left to the host. *)
Definition model_func (fn : pyfunc) (args : list value) : option (result value) :=
  match fn, args with
  | F_and, [x; y] => Some (Ok (and_ x y))
  | F_or, [x; y] => Some (Ok (or_ x y))
  | F_not, [x] => Some (Ok (not_ x))
  | F_in, [x; y] => Some (in_ x y)
  | F_eq, [x; y] => Some (Ok (py_eq x y))
  | F_ne, [x; y] => Some (Ok (py_ne x y))
  | F_lt, [x; y] => Some (py_cmp Lt x y)
  | F_le, [x; y] => Some (py_cmp Le x y)
  | F_gt, [x; y] => Some (py_cmp Gt x y)
  | F_ge, [x; y] => Some (py_cmp Ge x y)
  | F_contains, [x; y] => Some (py_in y x)
  | F_add, [x; y] =>
      match as_int x, as_int y, x, y with
      | Some a, Some b, _, _ => Some (Ok (VInt (a + b)))
      | _, _, VStr a, VStr b => Some (Ok (VStr (a ++ b)))
      | _, _, _, _ => None
      end
  | F_sub, [x; y] =>
      match as_int x, as_int y with
      | Some a, Some b => Some (Ok (VInt (a - b)))
      | _, _ => None
      end
  | F_mul, [x; y] =>
      match as_int x, as_int y with
      | Some a, Some b => Some (Ok (VInt (a * b)))
      | _, _ => None
      end
  | F_len, [x] =>
      match x with
      | VTuple items | VList items => Some (Ok (VInt (Z.of_nat (List.length items))))
      | VStr s => Some (Ok (VInt (Z.of_nat (String.length s))))
      | _ => None
      end
  | F_sum, [x] =>
      match seq_items x with
      | Some items =>
          match all_ints items with
          | Some ns => Some (Ok (VInt (fold_left Z.add ns 0%Z)))
          | None => None
          end
      | None => None
      end
  | F_product, [x] =>
      match seq_items x with
      | Some items =>
          match all_ints items with
          | Some ns => Some (Ok (VInt (fold_left Z.mul ns 1%Z)))
          | None => None
          end
      | None => None
      end
  | F_join, [x] =>
      match seq_items x with
      | Some items =>
          match all_strs items with
          | Some ss => Some (Ok (VStr (String.concat "" ss)))
          | None => None
          end
      | None => None
      end
  | F_list, [x] =>
      match seq_items x with
      | Some items => Some (Ok (VList items))
      | None => None
      end
  | F_tuple, [x] =>
      match seq_items x with
      | Some items => Some (Ok (VTuple items))
      | None => None
      end
  | F_first, [x] =>
      match seq_items x with
      | Some (v :: _) => Some (Ok v)
      | _ => None
      end
  | _, _ => None
  end.

(** The host runtime: the callables outside [model_func], the [repr] of
    objects that are not literals, and the call [return_type( **kwargs )]
    of a row constructor. *)
Class Host : Type := {
  host_call : pyfunc -> list value -> result value;
  host_repr : value -> string;
  host_construct : string -> list (value * value) -> result value
}.

Definition apply_func `{Host} (fn : pyfunc) (args : list value) : result value :=
  match model_func fn args with
  | Some r => r
  | None => host_call fn args
  end.

(** [self(obj)]: [__call__] of each field class.  An aggregate function
    is called with the records of a group and builds one column per
    argument. *)
Fixpoint __call__ `{Host} (self : field) (obj : value) {struct self} : result value :=
  match self with
  | IdentityField => Ok obj
  | AttrField attr => py_getattr obj attr
  | KeyField key => py_getitem obj key
  | ConstantField v => Ok v
  | ListField fields =>
      vs <- mapM (fun f => __call__ f obj) fields ;; Ok (VList vs)
  | FunctionField func args _ | OperatorField func args _ =>
      vs <- mapM (fun arg => __call__ arg obj) args ;; apply_func func vs
  | AggregateFunctionField func args _ =>
      cols <- mapM (fun arg =>
                      objs <- py_iter obj ;;
                      col <- mapM (fun ob => __call__ arg ob) objs ;;
                      Ok (VTuple col)) args ;;
      apply_func func cols
  | AliasField fld _ => __call__ fld obj
  end.

(* ================================================================== *)
(** ** Printing: [repr], [str], [__str__] and [_name] *)
(* ================================================================== *)

Definition squote : ascii := "'"%char.
Definition dquote : ascii := ascii_of_nat 34.
Definition backslash : ascii := "\"%char.
Definition newline : ascii := ascii_of_nat 10.

Fixpoint contains_char (c : ascii) (s : string) : bool :=
  match s with
  | EmptyString => false
  | String d s' => Ascii.eqb c d || contains_char c s'
  end.

Definition hex_digit (n : nat) : ascii :=
  if (n <? 10)%nat then ascii_of_nat (48 + n) else ascii_of_nat (87 + n).

(** One character of [repr(str)] with quote [q], for code points below
    256. *)
Definition repr_char (q c : ascii) : string :=
  let n := nat_of_ascii c in
  if Ascii.eqb c backslash then "\\"
  else if Ascii.eqb c q then String backslash (String q EmptyString)
  else if (n =? 10)%nat then "\n"
  else if (n =? 13)%nat then "\r"
  else if (n =? 9)%nat then "\t"
  else if ((n <? 32) || ((127 <=? n) && (n <=? 160)) || (n =? 173))%nat
       then "\x" ++ String (hex_digit (n / 16)) (String (hex_digit (n mod 16)) EmptyString)
  else String c EmptyString.

Fixpoint repr_chars (q : ascii) (s : string) : string :=
  match s with
  | EmptyString => EmptyString
  | String c s' => repr_char q c ++ repr_chars q s'
  end.

(** [repr] of a string: single quotes, unless the string holds a single
    quote and no double quote. *)
Definition py_repr_str (s : string) : string :=
  let q := if contains_char squote s && negb (contains_char dquote s)
           then dquote else squote in
  String q (repr_chars q s ++ String q EmptyString).

Definition py_repr_int (n : Z) : string := NilZero.string_of_int (Z.to_int n).

Fixpoint py_repr `{Host} (v : value) {struct v} : string :=
  match v with
  | VNone => "None"
  | VBool b => if b then "True" else "False"
  | VInt n => py_repr_int n
  | VStr s => py_repr_str s
  | VTuple items =>
      match items with
      | [x] => "(" ++ py_repr x ++ ",)"
      | _ => "(" ++ String.concat ", " (map py_repr items) ++ ")"
      end
  | VList items => "[" ++ String.concat ", " (map py_repr items) ++ "]"
  | _ => host_repr v
  end.

Definition py_str `{Host} (v : value) : string :=
  match v with
  | VStr s => s
  | _ => py_repr v
  end.

(** [str(field)].  An [OperatorField] has one or two arguments (its
    constructor asserts it); the last case is there for totality. *)
Fixpoint __str__ `{Host} (self : field) {struct self} : string :=
  match self with
  | ListField fields => String.concat ", " (map __str__ fields)
  | KeyField key => "o[" ++ py_repr key ++ "]"
  | AttrField attr => "o." ++ attr
  | IdentityField => "o"
  | AliasField fld name => __str__ fld ++ " AS " ++ name
  | ConstantField v => py_repr v
  | FunctionField _ args name | AggregateFunctionField _ args name =>
      name ++ "(" ++ String.concat ", " (map __str__ args) ++ ")"
  | OperatorField _ args name =>
      match args with
      | [a; b] => "(" ++ __str__ a ++ " " ++ name ++ " " ++ __str__ b ++ ")"
      | a :: _ => name ++ " " ++ __str__ a
      | [] => name ++ " "
      end
  end.

(** [fields_to_str] on a sequence of fields (on a single field it is
    [__str__]). *)
Definition fields_to_str `{Host} (fields : list field) : string :=
  match fields with
  | [] => "()"
  | [f] => __str__ f ++ ","
  | _ => String.concat ", " (map __str__ fields)
  end.

(** [f._name()]: the key under which [RETURNING] stores the column. *)
Fixpoint _name `{Host} (self : field) : result value :=
  match self with
  | ListField fields =>
      names <- mapM _name fields ;;
      match all_strs names with
      | Some ss => Ok (VStr (String.concat "," ss))
      | None => Raise (TypeError "sequence item: expected str instance")
      end
  | KeyField key => Ok key
  | AttrField attr => Ok (VStr attr)
  | IdentityField => Ok (VStr "o")
  | AliasField _ name => Ok (VStr name)
  | ConstantField v => Ok (VStr (py_str v))
  | FunctionField _ _ _ | OperatorField _ _ _ | AggregateFunctionField _ _ _ =>
      Ok (VStr (__str__ self))
  end.

Definition is_linebreak (c : ascii) : bool :=
  existsb (Nat.eqb (nat_of_ascii c)) [10; 11; 12; 13; 28; 29; 30; 133]%nat.

(** [text.splitlines()]. *)
Fixpoint splitlines_from (after_cr : bool) (cur : string) (s : string) : list string :=
  match s with
  | EmptyString => if String.eqb cur "" then [] else [cur]
  | String c s' =>
      if after_cr && Ascii.eqb c newline then splitlines_from false cur s'
      else if is_linebreak c
           then cur :: splitlines_from (Nat.eqb (nat_of_ascii c) 13) "" s'
           else splitlines_from false (cur ++ String c EmptyString) s'
  end.

Definition splitlines (text : string) : list string := splitlines_from false "" text.

Definition nl : string := String newline EmptyString.

Definition indent (text : string) (tab : string) : string :=
  String.concat nl (map (fun line : string => (tab ++ line)%string) (splitlines text)).

Definition block (text : string) : string :=
  if Nat.eqb (List.length (splitlines text)) 1 then text
  else "(" ++ nl ++ indent text "    " ++ nl ++ ")".

(* ================================================================== *)
(** ** The query builder *)
(* ================================================================== *)

(** A return type is known by its [__name__]. *)
Record SelectQuery : Type := mkSelectQuery {
  fields : list field;
  flatten : bool;
  distinct : bool;
  where_ : option field;
  group_by : option (list field);
  return_type : option string
}.

(** [SELECT( *fields )]: [SelectQuery(select_fields, flatten)] with the
    defaults of the other attributes. *)
Definition SELECT (args : list value) : SelectQuery :=
  match args with
  | [] => mkSelectQuery [IdentityField] true false None None None
  | [fld] =>
      match fld with
      | VList items | VTuple items =>
          mkSelectQuery (to_fields items) false false None None None
      | _ => mkSelectQuery [to_field fld] true false None None None
      end
  | _ => mkSelectQuery (to_fields args) false false None None None
  end.

(** [_return_types = {"dict": dict}], extended by [add_return_type]. *)
Definition _return_types : list string := ["dict"].

(* ================================================================== *)
(** ** Generators *)
(* ================================================================== *)

(** What a generator will produce when it is consumed: the items it
    yields, ended by exhaustion or by an exception. *)
Inductive gen (A : Type) : Type :=
| Stop
| Fail (e : error)
| Yield (a : A) (rest : gen A).

Arguments Stop {A}.
Arguments Fail {A} e.
Arguments Yield {A} a rest.

Fixpoint gen_of_list {A : Type} (l : list A) : gen A :=
  match l with
  | [] => Stop
  | x :: l' => Yield x (gen_of_list l')
  end.

(** [list(g)]. *)
Fixpoint list_of_gen {A : Type} (g : gen A) : result (list A) :=
  match g with
  | Stop => Ok []
  | Fail e => Raise e
  | Yield a rest => l <- list_of_gen rest ;; Ok (a :: l)
  end.

(** A generator whose body first computes a list and then yields from it. *)
Definition gen_of_result {A : Type} (r : result (list A)) : gen A :=
  match r with
  | Ok l => gen_of_list l
  | Raise e => Fail e
  end.

(** [(f(x) for x in g)]. *)
Fixpoint gmap {A B : Type} (f : A -> result B) (g : gen A) : gen B :=
  match g with
  | Stop => Stop
  | Fail e => Fail e
  | Yield a rest =>
      match f a with
      | Ok b => Yield b (gmap f rest)
      | Raise e => Fail e
      end
  end.

(** [filter(p, g)]. *)
Fixpoint gfilter {A : Type} (p : A -> result value) (g : gen A) : gen A :=
  match g with
  | Stop => Stop
  | Fail e => Fail e
  | Yield a rest =>
      match p a with
      | Ok v => if truthy v then Yield a (gfilter p rest) else gfilter p rest
      | Raise e => Fail e
      end
  end.

(** The outcome of one [next(g)] and the generator afterwards. *)
Inductive next_result (A : Type) : Type :=
| Item (a : A)
| StopIteration
| Raised (e : error).

Arguments Item {A} a.
Arguments StopIteration {A}.
Arguments Raised {A} e.

Definition next {A : Type} (g : gen A) : next_result A * gen A :=
  match g with
  | Stop => (StopIteration, Stop)
  | Fail e => (Raised e, Stop)
  | Yield a rest => (Item a, rest)
  end.

(* ================================================================== *)
(** ** Sorting and grouping as the executor uses them *)
(* ================================================================== *)

Record KeyValuePair : Type := mkKeyValuePair {
  _key : value;
  _value : value
}.

Module KeyValuePair.
Definition key (self : KeyValuePair) : value := _key self.
Definition value (self : KeyValuePair) : value := _value self.
End KeyValuePair.

(** [sorted(l, key=key)]: a stable sort that asks only [<] of the keys.
    It is written as an insertion sort; CPython's merge sort makes other
    comparisons and returns the same list whenever [<] orders the keys
    totally, and whenever no key is below another. *)
Section Sorted.
Variable A : Type.
Variable key : A -> value.

Fixpoint insert_sorted (x : A) (s : list A) : result (list A) :=
  match s with
  | [] => Ok [x]
  | y :: s' =>
      b <- py_lt (key y) (key x) ;;
      if truthy b then r <- insert_sorted x s' ;; Ok (y :: r)
      else Ok (x :: s)
  end.

Fixpoint sorted (l : list A) : result (list A) :=
  match l with
  | [] => Ok []
  | x :: l' => s <- sorted l' ;; insert_sorted x s
  end.

(** [itertools.groupby(l, key=key)]: a group is a maximal run of items
    whose keys equal the key of the run's first item, which is the
    key reported for the group. *)
Fixpoint groupby_from (tgtkey : value) (rest : list A)
  : list A * list (value * list A) :=
  match rest with
  | [] => ([], [])
  | x :: rest' =>
      if eqb_val tgtkey (key x)
      then let '(g, gs) := groupby_from tgtkey rest' in (x :: g, gs)
      else let '(g, gs) := groupby_from (key x) rest' in ([], (key x, x :: g) :: gs)
  end.

Definition groupby (l : list A) : list (value * list A) :=
  match l with
  | [] => []
  | x :: rest => let '(g, gs) := groupby_from (key x) rest in (key x, x :: g) :: gs
  end.
End Sorted.

(* ================================================================== *)
(** ** [SelectQuery]: clauses and execution *)
(* ================================================================== *)

Record SelectResult : Type := mkSelectResult {
  _res : gen value;
  query : SelectQuery
}.

Module SelectQuery.

Definition _replace (self : SelectQuery)
    (flatten' distinct' : option bool) (where' : option field)
    (group_by' : option (list field)) (return_type' : option string)
  : SelectQuery :=
  {| fields := fields self;
     flatten := match flatten' with None => flatten self | Some b => b end;
     distinct := match distinct' with None => distinct self | Some b => b end;
     where_ := match where' with None => where_ self | Some w => Some w end;
     group_by := match group_by' with None => group_by self | Some g => Some g end;
     return_type := match return_type' with
                    | None => return_type self
                    | Some t => Some t
                    end |}.

(** [str(query)].  With [flatten] set the projection is printed as the
    field [fields[0]]. *)
Definition __str__ `{Host} (self : SelectQuery) : result string :=
  let select := if distinct self then "SELECT DISTINCT" else "SELECT" in
  shown <- (if flatten self
            then match fields self with
                 | f0 :: _ => Ok (__str__ f0)
                 | [] => Raise (IndexError "tuple index out of range")
                 end
            else Ok (fields_to_str (fields self))) ;;
  let l1 := [select ++ " " ++ shown] in
  let l2 := match where_ self with
            | Some w => ["WHERE " ++ block (__str__ w)]
            | None => []
            end in
  let l3 := match group_by self with
            | Some g => ["GROUP BY " ++ fields_to_str g]
            | None => []
            end in
  let l4 := match return_type self with
            | Some t => ["RETURNING " ++ t]
            | None => []
            end in
  Ok (String.concat nl (l1 ++ l2 ++ l3 ++ l4)%list).

Definition DISTINCT (self : SelectQuery) : SelectQuery :=
  _replace self None (Some true) None None None.

Definition _distinct (self : SelectQuery) (res : gen value) : gen value :=
  if distinct self
  then (fix go (res : gen value) (seen : list value) {struct res} : gen value :=
          match res with
          | Stop => Stop
          | Fail e => Fail e
          | Yield r rest =>
              if negb (hashable r)
              then Fail (TypeError ("unhashable type: '" ++ type_name r ++ "'"))
              else if existsb (eqb_val r) seen then go rest seen
                   else Yield r (go rest (r :: seen))
          end) res []
  else res.

Definition WHERE (self : SelectQuery) (where_expr : field) : result SelectQuery :=
  if _is_mapper where_expr
  then Ok (_replace self None None (Some (to_field (VField where_expr))) None None)
  else Raise (AssertionError "cannot use an aggregate function in WHERE").

Definition _where `{Host} (self : SelectQuery) (res : gen value) : gen value :=
  match where_ self with
  | Some w => gfilter (__call__ w) res
  | None => res
  end.

(** The [ValueError] message of the source starts with the printed
    field; the model keeps the rest of the message. *)
Definition GROUP_BY (self : SelectQuery) (args : list value) : result SelectQuery :=
  let group_fields := to_fields args in
  if negb (forallb _is_mapper group_fields)
  then Raise (AssertionError "cannot use an aggregate function in GROUP BY")
  else if forallb (fun select_field =>
                     match field_index select_field group_fields with
                     | Some _ => true
                     | None => _is_aggregator select_field
                     end) (fields self)
       then Ok (_replace self None None None (Some group_fields) None)
       else Raise (ValueError " is neither in GROUP BY or an aggregate function").

Definition RETURNING (self : SelectQuery) (return_type : string) : SelectQuery :=
  _replace self (Some false) None None None (Some return_type).

Definition _returning `{Host} (self : SelectQuery) (res : gen value) : gen value :=
  match return_type self with
  | Some t =>
      match mapM _name (fields self) with
      | Ok names =>
          gmap (fun r => items <- py_iter r ;; host_construct t (combine names items)) res
      | Raise e => Fail e
      end
  | None => res
  end.

Definition _select {A : Type} (select_fields : list (A -> result value))
    (res : gen A) : gen value :=
  gmap (fun r => vs <- mapM (fun f => f r) select_fields ;; Ok (VTuple vs)) res.

Definition _flatten (self : SelectQuery) (res : gen value) : gen value :=
  if flatten self then gmap (fun r => py_getitem r (VInt 0)) res else res.

Definition _make_group_by_field `{Host} (self : SelectQuery) (select_field : field)
  : KeyValuePair -> result value :=
  match group_by self with
  | Some group_fields =>
      match field_index select_field group_fields with
      | Some idx =>
          fun pair => py_getitem (KeyValuePair.key pair) (VInt (Z.of_nat idx))
      | None => fun pair => __call__ select_field (KeyValuePair.value pair)
      end
  | None => fun _ => Raise (TypeError "'NoneType' object is not iterable")
  end.

(** [_group]: nothing runs before the first [next], so an exception of
    the input, of a key or of the sort ends the generator at once. *)
Definition _group `{Host} (self : SelectQuery) (res : gen value) : gen KeyValuePair :=
  gen_of_result
    (recs <- list_of_gen res ;;
     keys <- list_of_gen
               (_select (map __call__ (match group_by self with
                                       | Some g => g
                                       | None => []
                                       end)) (gen_of_list recs)) ;;
     let pairs := map (fun kv => mkKeyValuePair (fst kv) (snd kv)) (combine keys recs) in
     pairs <- sorted KeyValuePair.key pairs ;;
     Ok (map (fun kg => mkKeyValuePair (fst kg)
                          (VList (map KeyValuePair.value (snd kg))))
             (groupby KeyValuePair.key pairs))).

Definition __call__ `{Host} (self : SelectQuery) (objects : list value)
  : result SelectResult :=
  let res := _where self (gen_of_list objects) in
  res <- match group_by self with
         | None =>
             if forallb _is_mapper (fields self)
             then Ok (_select (map __call__ (fields self)) res)
             else Raise (ValueError "cannot use aggregate function without GROUP BY")
         | Some _ =>
             let group_by_fields := map (_make_group_by_field self) (fields self) in
             Ok (_select group_by_fields (_group self res))
         end ;;
  let res := _flatten self res in
  let res := _distinct self res in
  let res := _returning self res in
  Ok (mkSelectResult res self).

End SelectQuery.

Module SelectResult.

(** [list(self)]. *)
Definition list (self : SelectResult) : result (list value) :=
  list_of_gen (_res self).

(** [one]: the returned value or the raised exception, and the result
    object with what is left of its generator. *)
Definition one (self : SelectResult) : result value * SelectResult :=
  match next (_res self) with
  | (StopIteration, g) =>
      (Raise (ValueError "no items in in result"), mkSelectResult g (query self))
  | (Raised e, g) => (Raise e, mkSelectResult g (query self))
  | (Item first, g) =>
      match next g with
      | (StopIteration, g') => (Ok first, mkSelectResult g' (query self))
      | (Raised e, g') => (Raise e, mkSelectResult g' (query self))
      | (Item _, g') =>
          (Raise (ValueError "more than one item in result"),
           mkSelectResult g' (query self))
      end
  end.

End SelectResult.

(* ================================================================== *)
(** ** functions.py: the registry [f] *)
(* ================================================================== *)

(** What [field_function] and [aggregate_function] store under a name:
    the closure [wrapped], which remembers the class of node to build,
    the function and its display name. *)
Inductive wrapped : Type :=
| WrapField (func : pyfunc) (name : string)
| WrapAggregate (func : pyfunc) (name : string).

(** [wrapped( *fields )]. *)
Definition call_wrapped (w : wrapped) (args : list value) : result field :=
  match w with
  | WrapField func name => Ok (FunctionField func (to_fields args) (name_or name func))
  | WrapAggregate func name =>
      AggregateFunctionField.__init__ func (to_fields args) name
  end.

Record FunctionsRegistry : Type := mkFunctionsRegistry {
  _funcs : list (string * wrapped)
}.

Module FunctionsRegistry.

Definition _add (self : FunctionsRegistry) (name : string) (func : wrapped)
  : FunctionsRegistry :=
  mkFunctionsRegistry ((name, func) :: _funcs self).

Definition field_function (func : pyfunc) (name : option string)
    (self : FunctionsRegistry) : FunctionsRegistry :=
  let name := match name with Some n => n | None => func_name func end in
  _add self name (WrapField func name).

Definition aggregate_function (func : pyfunc) (name : option string)
    (self : FunctionsRegistry) : FunctionsRegistry :=
  let name := match name with Some n => n | None => func_name func end in
  _add self name (WrapAggregate func name).

(** [self._funcs[name]]: the latest registration under the name. *)
Fixpoint lookup (name : string) (entries : list (string * wrapped)) : option wrapped :=
  match entries with
  | [] => None
  | (n, w) :: rest => if String.eqb n name then Some w else lookup name rest
  end.

Definition get (self : FunctionsRegistry) (name : string) : option wrapped :=
  lookup name (_funcs self).

End FunctionsRegistry.

(** The registry after the module body of functions.py has run. *)
Definition f : FunctionsRegistry :=
  fold_left (fun reg register => register reg)
    [ FunctionsRegistry.field_function F_add None;
      FunctionsRegistry.field_function F_sub None;
      FunctionsRegistry.field_function F_mul None;
      FunctionsRegistry.field_function F_truediv (Some "div");
      FunctionsRegistry.field_function F_mod None;
      FunctionsRegistry.field_function F_pow None;
      FunctionsRegistry.field_function F_abs None;
      FunctionsRegistry.field_function F_round None;
      FunctionsRegistry.field_function F_concat None;
      FunctionsRegistry.field_function F_str None;
      FunctionsRegistry.field_function F_upper None;
      FunctionsRegistry.field_function F_lower None;
      FunctionsRegistry.field_function F_replace None;
      FunctionsRegistry.field_function F_len None;
      FunctionsRegistry.field_function F_randint None;
      FunctionsRegistry.field_function F_random None;
      FunctionsRegistry.aggregate_function F_len (Some "count");
      FunctionsRegistry.aggregate_function F_sum None;
      FunctionsRegistry.aggregate_function F_max None;
      FunctionsRegistry.aggregate_function F_min None;
      FunctionsRegistry.aggregate_function F_list None;
      FunctionsRegistry.aggregate_function F_tuple None;
      FunctionsRegistry.aggregate_function F_set None;
      FunctionsRegistry.aggregate_function F_product None;
      FunctionsRegistry.aggregate_function F_join None;
      FunctionsRegistry.aggregate_function F_first None;
      FunctionsRegistry.aggregate_function F_average None;
      FunctionsRegistry.aggregate_function F_weighted_average None ]
    (mkFunctionsRegistry []).

(** [f.name( *args )], as [f._funcs[name]( *args )] in the parser. *)
Definition f_call (name : string) (args : list value) : result field :=
  match FunctionsRegistry.get f name with
  | Some w => call_wrapped w args
  | None => Raise (NameError ("undefined field function " ++ name))
  end.

(* ================================================================== *)
(** ** lexer.py *)
(* ================================================================== *)

(** A token: its type and its value.  Keywords carry their upper-case
    spelling, [TLit] is a one-character literal, [TFloat] keeps the text
    of a float literal (floats are outside the model), and [TError] stands
    for the [SyntaxError] that [t_error] raises when the parser asks for
    a token at a character no rule accepts. *)
Inductive token : Type :=
| TKw (kw : string)
| TCompare (op : string)
| TId (name : string)
| TStr (s : string)
| TInt (n : Z)
| TFloat (text : string)
| TPow
| TLit (c : ascii)
| TError (text : string).

Definition keywords : list string :=
  ["SELECT"; "DISTINCT"; "WHERE"; "GROUP"; "BY"; "AS"; "RETURNING"; "AND";
   "OR"; "NOT"; "TRUE"; "FALSE"; "NONE"; "O"; "IN"].

Definition compare_ids : list string := ["IS"; "IN"; "CONTAINS"; "MATCHES"; "LIKE"].

Definition literals : string := "()[],.+-/*%".

Definition upper_char (c : ascii) : ascii :=
  let n := nat_of_ascii c in
  if ((97 <=? n) && (n <=? 122))%nat then ascii_of_nat (n - 32) else c.

Fixpoint upper (s : string) : string :=
  match s with
  | EmptyString => EmptyString
  | String c s' => String (upper_char c) (upper s')
  end.

Definition mem_string (x : string) (l : list string) : bool := existsb (String.eqb x) l.

(** The longest prefix whose characters satisfy [p], and the rest. *)
Fixpoint span (p : ascii -> bool) (s : string) : string * string :=
  match s with
  | String c s' =>
      if p c then let '(a, b) := span p s' in (String c a, b) else (EmptyString, s)
  | EmptyString => (EmptyString, EmptyString)
  end.

Definition is_digit (c : ascii) : bool :=
  let n := nat_of_ascii c in ((48 <=? n) && (n <=? 57))%nat.

Definition char_in (cs : string) (c : ascii) : bool := contains_char c cs.

(** [t_ID]. *)
Definition t_ID (text : string) : token :=
  if mem_string (upper text) keywords then TKw (upper text)
  else if mem_string (upper text) compare_ids then TCompare (upper text)
  else TId text.

(** The body of a string literal after the opening quote, up to the
    closing quote: characters other than quote and backslash, and the
    pairs backslash-backslash and backslash-quote. *)
Fixpoint scan_str (s : string) : option (string * string) :=
  match s with
  | EmptyString => None
  | String c s' =>
      if Ascii.eqb c squote then Some (EmptyString, s')
      else if Ascii.eqb c backslash then
        match s' with
        | String d s'' =>
            if Ascii.eqb d backslash || Ascii.eqb d squote then
              match scan_str s'' with
              | Some (body, rest) => Some (String c (String d body), rest)
              | None => None
              end
            else None
        | EmptyString => None
        end
      else
        match scan_str s' with
        | Some (body, rest) => Some (String c body, rest)
        | None => None
        end
  end.

Definition take_sign (s : string) : string * string :=
  match s with
  | String c s' => if char_in "+-" c then (String c EmptyString, s') else (EmptyString, s)
  | EmptyString => (EmptyString, s)
  end.

(** [exponent]: [[eE][+-]?\d+]. *)
Definition match_exponent (s : string) : option (string * string) :=
  match s with
  | String e s1 =>
      if char_in "eE" e then
        let '(sg, s2) := take_sign s1 in
        let '(ds, s3) := span is_digit s2 in
        if String.eqb ds "" then None else Some (String e (sg ++ ds), s3)
      else None
  | EmptyString => None
  end.

(** [floatnumber]: the matched text and the rest of the input. *)
Definition match_float (s : string) : option (string * string) :=
  let '(sg, s1) := take_sign s in
  let '(d1, s2) := span is_digit s1 in
  match s2 with
  | String "." s3 =>
      let '(d2, s4) := span is_digit s3 in
      if String.eqb d1 "" && String.eqb d2 "" then None
      else
        match match_exponent s4 with
        | Some (ex, s5) => Some (sg ++ d1 ++ "." ++ d2 ++ ex, s5)
        | None => Some (sg ++ d1 ++ "." ++ d2, s4)
        end
  | _ =>
      if String.eqb d1 "" then None
      else
        match match_exponent s2 with
        | Some (ex, s5) => Some (sg ++ d1 ++ ex, s5)
        | None => None
        end
  end.

Definition digit_value (c : ascii) : Z :=
  let n := nat_of_ascii c in
  if ((48 <=? n) && (n <=? 57))%nat then Z.of_nat (n - 48)
  else if ((97 <=? n) && (n <=? 102))%nat then Z.of_nat (n - 87)
  else Z.of_nat (n - 55).

(** [int(digits, base)]. *)
Definition int_of_digits (base : Z) (digits : string) : Z :=
  (fix go (acc : Z) (s : string) : Z :=
     match s with
     | EmptyString => acc
     | String c s' => go (acc * base + digit_value c)%Z s'
     end) 0%Z digits.

Definition is_bin (c : ascii) : bool := char_in "01" c.
Definition is_oct (c : ascii) : bool := char_in "01234567" c.
Definition is_hex (c : ascii) : bool := char_in "0123456789abcdefABCDEF" c.
Definition is_nonzero_digit (c : ascii) : bool := char_in "123456789" c.

(** A prefixed literal [0b..], [0o..], [0x..] with at least one digit. *)
Definition match_prefixed (markers : string) (digit : ascii -> bool) (base : Z)
    (s : string) : option (Z * string) :=
  match s with
  | String "0" (String m s') =>
      if char_in markers m then
        let '(ds, rest) := span digit s' in
        if String.eqb ds "" then None else Some (int_of_digits base ds, rest)
      else None
  | _ => None
  end.

(** [intnumber] and the value [t_INT] computes. *)
Definition match_int (s : string) : option (Z * string) :=
  let '(sg, s1) := take_sign s in
  let sign := if String.eqb sg "-" then (-1)%Z else 1%Z in
  let unsigned :=
    match s1 with
    | String c _ =>
        if is_nonzero_digit c
        then let '(ds, rest) := span is_digit s1 in Some (int_of_digits 10 ds, rest)
        else
          match match_prefixed "bB" is_bin 2 s1 with
          | Some r => Some r
          | None =>
              match match_prefixed "oO" is_oct 8 s1 with
              | Some r => Some r
              | None =>
                  match match_prefixed "xX" is_hex 16 s1 with
                  | Some r => Some r
                  | None =>
                      match s1 with
                      | String "0" rest => Some (0%Z, rest)
                      | _ => None
                      end
                  end
              end
          end
    | EmptyString => None
    end in
  match unsigned with
  | Some (n, rest) => Some ((sign * n)%Z, rest)
  | None => None
  end.

(** [t_COMPARE]: [>=?|<=?|==|!=]. *)
Definition match_compare (s : string) : option (string * string) :=
  match s with
  | String ">" (String "=" r) => Some (">=", r)
  | String ">" r => Some (">", r)
  | String "<" (String "=" r) => Some ("<=", r)
  | String "<" r => Some ("<", r)
  | String "=" (String "=" r) => Some ("==", r)
  | String "!" (String "=" r) => Some ("!=", r)
  | _ => None
  end.

(** One step of [lexer.token()] at a character that is not ignored: the
    rules in the order of the master expression (the function rules in
    file order, then [t_COMPARE] and [t_POW]), then the literals.  The
    result is the token, if the rule returns one, and the rest of the
    input; [None] is [t_error]. *)
Definition lex_one (s : string) : option (option token * string) :=
  match s with
  | EmptyString => None
  | String c s' =>
      if is_ident_start c then
        let '(name, rest) := span is_ident_char s in Some (Some (t_ID name), rest)
      else
        match (if Ascii.eqb c squote then scan_str s' else None) with
        | Some (body, rest) => Some (Some (TStr body), rest)
        | None =>
            match match_float s with
            | Some (text, rest) => Some (Some (TFloat text), rest)
            | None =>
                match match_int s with
                | Some (n, rest) => Some (Some (TInt n), rest)
                | None =>
                    if Ascii.eqb c newline then
                      Some (None, snd (span (Ascii.eqb newline) s))
                    else
                      match match_compare s with
                      | Some (op, rest) => Some (Some (TCompare op), rest)
                      | None =>
                          match s with
                          | String "*" (String "*" rest) => Some (Some TPow, rest)
                          | _ =>
                              if char_in literals c then Some (Some (TLit c), s')
                              else None
                          end
                      end
                end
            end
        end
  end.

(** The tokens the parser will be given, in order; the characters of
    [t_ignore] are skipped. *)
Fixpoint lex_fuel (fuel : nat) (s : string) : list token :=
  match fuel with
  | 0 => []
  | S fuel' =>
      match s with
      | EmptyString => []
      | String c s' =>
          if char_in (String " " (String (ascii_of_nat 9) EmptyString)) c
          then lex_fuel fuel' s'
          else
            match lex_one s with
            | Some (Some t, rest) => t :: lex_fuel fuel' rest
            | Some (None, rest) => lex_fuel fuel' rest
            | None => [TError s]
            end
      end
  end.

Definition lex (s : string) : list token := lex_fuel (S (String.length s)) s.

(* ================================================================== *)
(** ** parser.py: the reduction actions *)
(* ================================================================== *)

(** The values on the parser's stack are Python objects: fields, [None]
    (a reduction that leaves [p[0]] unset), lists of them, and the values
    of tokens. *)

(** The operators the actions apply to stack values.  A field on the left
    builds a node; [Field] has no reflected arithmetic methods.  The other
    cases arise only from operands that are not fields. *)
Definition plain_binary (fn : pyfunc) (l r : value) : result value :=
  match l, r with
  | VNone, _ | _, VNone => Raise (TypeError "unsupported operand type(s)")
  | _, _ =>
      match fn, as_int l, as_int r, l, r with
      | F_or, _, _, VBool a, VBool b => Ok (VBool (a || b))
      | F_and, _, _, VBool a, VBool b => Ok (VBool (a && b))
      | F_or, Some a, Some b, _, _ => Ok (VInt (Z.lor a b))
      | F_and, Some a, Some b, _, _ => Ok (VInt (Z.land a b))
      | F_add, Some a, Some b, _, _ => Ok (VInt (a + b))
      | F_sub, Some a, Some b, _, _ => Ok (VInt (a - b))
      | F_mul, Some a, Some b, _, _ => Ok (VInt (a * b))
      | _, _, _, _, _ => Raise (NotModelled "operator on plain values")
      end
  end.

Definition py_binary (fn : pyfunc) (sym : string) (l r : value) : result value :=
  match l with
  | VField fld => Ok (VField (field_op fn sym fld r))
  | _ =>
      match r with
      | VField _ => Raise (TypeError "unsupported operand type(s)")
      | _ => plain_binary fn l r
      end
  end.

(** [~x]. *)
Definition py_invert (x : value) : result value :=
  match x with
  | VField fld => Ok (VField (Field.__invert__ fld))
  | VBool _ | VInt _ =>
      match as_int x with
      | Some n => Ok (VInt (- n - 1))
      | None => Raise (TypeError "bad operand type for unary ~")
      end
  | _ => Raise (TypeError "bad operand type for unary ~")
  end.

(** A method call [x.NAME(y)] with a method of [Field]. *)
Definition call_method (method : field -> value -> field) (name : string)
    (x y : value) : result value :=
  match x with
  | VField fld => Ok (VField (method fld y))
  | _ => Raise (AttributeError ("'" ++ type_name x ++ "' object has no attribute '" ++ name ++ "'"))
  end.

Definition p_fexpr_1 (p1 p3 : value) : result value := py_binary F_or "OR" p1 p3.
Definition p_predterm_1 (p1 p3 : value) : result value := py_binary F_and "AND" p1 p3.
Definition p_prednfactor_1 (p2 : value) : result value := py_invert p2.

Definition p_predfactor_1 (p1 : value) (p3 : list value) : result value :=
  match p1 with
  | VField fld => Ok (VField (Field.IN fld p3))
  | _ => Raise (AttributeError ("'" ++ type_name p1 ++ "' object has no attribute 'IN'"))
  end.

(** [p_predfactor_2].  In the MATCHES branch the node is built and
    compared with [p[0]] ([==], which builds one more node); [p[0]] is
    not assigned and stays [None]. *)
Definition p_predfactor_2 (left : value) (op : string) (right : value) : result value :=
  if String.eqb op "==" then Ok (py_eq left right)
  else if String.eqb op "!=" then Ok (py_ne left right)
  else if String.eqb op ">" then py_cmp Gt left right
  else if String.eqb op ">=" then py_cmp Ge left right
  else if String.eqb op "<" then py_cmp Lt left right
  else if String.eqb op "<=" then py_cmp Le left right
  else if String.eqb op "IS" then call_method Field.IS "IS" left right
  else if String.eqb op "CONTAINS" then call_method Field.CONTAINS "CONTAINS" left right
  else if String.eqb op "LIKE" then call_method Field.LIKE "LIKE" left right
  else if String.eqb op "MATCHES" then
    built <- call_method Field.MATCHES "MATCHES" left right ;;
    let _ := py_eq VNone built in
    Ok VNone
  else Ok VNone.

Definition p_arithexpr_1 (p1 p3 : value) : result value := py_binary F_add "+" p1 p3.
Definition p_arithexpr_2 (p1 p3 : value) : result value := py_binary F_sub "-" p1 p3.
Definition p_term_1 (p1 p3 : value) : result value := py_binary F_mul "*" p1 p3.
Definition p_term_2 (p1 p3 : value) : result value := py_binary F_truediv "/" p1 p3.
Definition p_term_3 (p1 p3 : value) : result value := py_binary F_mod "%" p1 p3.
Definition p_expnt_1 (p1 p3 : value) : result value := py_binary F_pow "**" p1 p3.

Definition p_field_1 (p1 : value) : value := VField (ConstantField p1).
Definition p_field_2 : value := VField IdentityField.
Definition p_field_3 (p3 : string) : value := VField (AttrField p3).
Definition p_field_4 (p3 : value) : value := VField (KeyField p3).

Definition p_field_5 (p1 : string) (p3 : list value) : result value :=
  fld <- f_call p1 p3 ;; Ok (VField fld).

Definition p_field_7 (p1 : value) (p3 : string) : result value :=
  fld <- AliasField.__init__ p1 p3 ;; Ok (VField fld).

Definition p_groupby_1 (p3 : value) : list value :=
  match p3 with
  | VList items => items
  | _ => [p3]
  end.

Definition p_returning_1 (p2 : string) : result string :=
  if mem_string p2 _return_types then Ok p2
  else Raise (NameError ("undefined return type " ++ p2)).

(** [p_statement]: [distinct] is the DISTINCT token's value or [None];
    [where], [groupby] and [returning] are [None] when the clause is
    absent or its reduction left [p[0]] unset. *)
Definition p_statement (distinct : bool) (fexprplus : value) (where_v : value)
    (groupby : option (list value)) (returning : option string)
  : result SelectQuery :=
  let s := SELECT [fexprplus] in
  let s := if distinct then SelectQuery.DISTINCT s else s in
  s <- match where_v with
       | VNone => Ok s
       | VField w => SelectQuery.WHERE s w
       | _ => Raise (AttributeError ("'" ++ type_name where_v
                                     ++ "' object has no attribute '_is_mapper'"))
       end ;;
  s <- match groupby with
       | Some g => SelectQuery.GROUP_BY s g
       | None => Ok s
       end ;;
  Ok match returning with
     | Some t => SelectQuery.RETURNING s t
     | None => s
     end.

(* ================================================================== *)
(** ** parser.py: the grammar *)
(* ================================================================== *)

(** PLY drives the reductions from LALR(1) tables built from the
    docstrings.  The model is a deterministic parser for the same
    productions, one function per nonterminal, left recursion written as
    a loop; where a production can both end and go on (the comma lists
    after IN) it goes on, as the tables do when PLY resolves a conflict
    by shifting.  A [TError] token raises as soon as the parser looks at
    it.  [fuel] bounds the number of nested calls. *)

Definition next_is_kw (k : string) (ts : list token) : bool :=
  match ts with
  | TKw k' :: _ => String.eqb k k'
  | _ => false
  end.

Definition next_is_lit (c : ascii) (ts : list token) : bool :=
  match ts with
  | TLit c' :: _ => Ascii.eqb c c'
  | _ => false
  end.

Definition next_is_error (ts : list token) : bool :=
  match ts with
  | TError _ :: _ => true
  | _ => false
  end.

Definition LexError : error := SyntaxError "Unexpected character(s)".

(** [p_error], called with the offending token, or with [None] at the end
    of the input, where reading [p.type] fails. *)
Definition unexpected {A : Type} (ts : list token) : result A :=
  match ts with
  | [] => Raise (AttributeError "'NoneType' object has no attribute 'type'")
  | TError _ :: _ => Raise LexError
  | _ => Raise (SyntaxError "Unexpected token")
  end.

Definition out_of_fuel {A : Type} : result A := Raise (NotModelled "nesting too deep").

(** The tokens that can start an [fexpr]. *)
Definition starts_fexpr (ts : list token) : bool :=
  match ts with
  | TKw k :: _ => mem_string k ["NOT"; "O"; "TRUE"; "FALSE"; "NONE"]
  | TLit c :: _ => Ascii.eqb c "("
  | TId _ :: _ | TStr _ :: _ | TInt _ :: _ | TFloat _ :: _ => true
  | _ => false
  end.

(** [literal : STR | FLOAT | INT | TRUE | FALSE | NONE]. *)
Definition parse_literal (ts : list token) : result (value * list token) :=
  match ts with
  | TStr s :: ts' => Ok (VStr s, ts')
  | TInt n :: ts' => Ok (VInt n, ts')
  | TFloat _ :: _ => Raise (NotModelled "float literal")
  | TKw k :: ts' =>
      if String.eqb k "TRUE" then Ok (VBool true, ts')
      else if String.eqb k "FALSE" then Ok (VBool false, ts')
      else if String.eqb k "NONE" then Ok (VNone, ts')
      else unexpected ts
  | _ => unexpected ts
  end.

Definition expect_lit {A : Type} (c : ascii) (ts : list token)
    (k : list token -> result A) : result A :=
  match ts with
  | TLit c' :: ts' => if Ascii.eqb c c' then k ts' else unexpected ts
  | _ => unexpected ts
  end.

(** [field : field AS ID]. *)
Fixpoint field_loop (fuel : nat) (l : value) (ts : list token) {struct fuel}
  : result (value * list token) :=
  match fuel with
  | 0 => out_of_fuel
  | S n =>
      if next_is_error ts then Raise LexError
      else if next_is_kw "AS" ts then
        match tl ts with
        | TId name :: ts1 =>
            v <- p_field_7 l name ;;
            field_loop n v ts1
        | _ => unexpected (tl ts)
        end
      else Ok (l, ts)
  end.

Fixpoint parse_fexpr (fuel : nat) (ts : list token) {struct fuel}
  : result (value * list token) :=
  match fuel with
  | 0 => out_of_fuel
  | S n =>
      '(l, ts1) <- parse_predterm n ts ;;
      fexpr_loop n l ts1
  end

(** [fexpr : fexpr OR predterm]. *)
with fexpr_loop (fuel : nat) (l : value) (ts : list token) {struct fuel}
  : result (value * list token) :=
  match fuel with
  | 0 => out_of_fuel
  | S n =>
      if next_is_error ts then Raise LexError
      else if next_is_kw "OR" ts then
        '(r, ts1) <- parse_predterm n (tl ts) ;;
        v <- p_fexpr_1 l r ;;
        fexpr_loop n v ts1
      else Ok (l, ts)
  end

with parse_predterm (fuel : nat) (ts : list token) {struct fuel}
  : result (value * list token) :=
  match fuel with
  | 0 => out_of_fuel
  | S n =>
      '(l, ts1) <- parse_prednfactor n ts ;;
      predterm_loop n l ts1
  end

(** [predterm : predterm AND prednfactor]. *)
with predterm_loop (fuel : nat) (l : value) (ts : list token) {struct fuel}
  : result (value * list token) :=
  match fuel with
  | 0 => out_of_fuel
  | S n =>
      if next_is_error ts then Raise LexError
      else if next_is_kw "AND" ts then
        '(r, ts1) <- parse_prednfactor n (tl ts) ;;
        v <- p_predterm_1 l r ;;
        predterm_loop n v ts1
      else Ok (l, ts)
  end

(** [prednfactor : NOT prednfactor | predfactor]. *)
with parse_prednfactor (fuel : nat) (ts : list token) {struct fuel}
  : result (value * list token) :=
  match fuel with
  | 0 => out_of_fuel
  | S n =>
      if next_is_kw "NOT" ts then
        '(x, ts1) <- parse_prednfactor n (tl ts) ;;
        v <- p_prednfactor_1 x ;;
        Ok (v, ts1)
      else
        '(l, ts1) <- parse_arithexpr n ts ;;
        predfactor_loop n l ts1
  end

(** [predfactor : predfactor IN fexprs | predfactor COMPARE arithexpr]. *)
with predfactor_loop (fuel : nat) (l : value) (ts : list token) {struct fuel}
  : result (value * list token) :=
  match fuel with
  | 0 => out_of_fuel
  | S n =>
      match ts with
      | TError _ :: _ => Raise LexError
      | TKw k :: ts1 =>
          if String.eqb k "IN" then
            '(items, ts2) <- parse_fexprs n ts1 ;;
            v <- p_predfactor_1 l items ;;
            predfactor_loop n v ts2
          else Ok (l, ts)
      | TCompare op :: ts1 =>
          '(r, ts2) <- parse_arithexpr n ts1 ;;
          v <- p_predfactor_2 l op r ;;
          predfactor_loop n v ts2
      | _ => Ok (l, ts)
      end
  end

(** [fexprs : fexpr ',' | fexprs2plus | fexprs2plus ','], after IN. *)
with parse_fexprs (fuel : nat) (ts : list token) {struct fuel}
  : result (list value * list token) :=
  match fuel with
  | 0 => out_of_fuel
  | S n =>
      '(e1, ts1) <- parse_fexpr n ts ;;
      expect_lit "," ts1 (fun ts2 => fexprs_tail n e1 ts2)
  end

(** After [fexpr ','] : the list ends, or a second item follows. *)
with fexprs_tail (fuel : nat) (e1 : value) (ts : list token) {struct fuel}
  : result (list value * list token) :=
  match fuel with
  | 0 => out_of_fuel
  | S n =>
      if next_is_error ts then Raise LexError
      else if starts_fexpr ts then
        '(e2, ts1) <- parse_fexpr n ts ;;
        fexprs_more n [e1; e2] ts1
      else Ok ([e1], ts)
  end

(** [fexprs2plus : fexprs2plus ',' fexpr], and the optional last comma. *)
with fexprs_more (fuel : nat) (items : list value) (ts : list token) {struct fuel}
  : result (list value * list token) :=
  match fuel with
  | 0 => out_of_fuel
  | S n =>
      if next_is_error ts then Raise LexError
      else if next_is_lit "," ts then
        if next_is_error (tl ts) then Raise LexError
        else if starts_fexpr (tl ts) then
          '(e, ts1) <- parse_fexpr n (tl ts) ;;
          fexprs_more n (items ++ [e])%list ts1
        else Ok (items, tl ts)
      else Ok (items, ts)
  end

with parse_arithexpr (fuel : nat) (ts : list token) {struct fuel}
  : result (value * list token) :=
  match fuel with
  | 0 => out_of_fuel
  | S n =>
      '(l, ts1) <- parse_term n ts ;;
      arithexpr_loop n l ts1
  end

(** [arithexpr : arithexpr '+' term | arithexpr '-' term]. *)
with arithexpr_loop (fuel : nat) (l : value) (ts : list token) {struct fuel}
  : result (value * list token) :=
  match fuel with
  | 0 => out_of_fuel
  | S n =>
      if next_is_error ts then Raise LexError
      else if next_is_lit "+" ts then
        '(r, ts1) <- parse_term n (tl ts) ;;
        v <- p_arithexpr_1 l r ;;
        arithexpr_loop n v ts1
      else if next_is_lit "-" ts then
        '(r, ts1) <- parse_term n (tl ts) ;;
        v <- p_arithexpr_2 l r ;;
        arithexpr_loop n v ts1
      else Ok (l, ts)
  end

with parse_term (fuel : nat) (ts : list token) {struct fuel}
  : result (value * list token) :=
  match fuel with
  | 0 => out_of_fuel
  | S n =>
      '(l, ts1) <- parse_expnt n ts ;;
      term_loop n l ts1
  end

(** [term : term '*' expnt | term '/' expnt | term '%' expnt]. *)
with term_loop (fuel : nat) (l : value) (ts : list token) {struct fuel}
  : result (value * list token) :=
  match fuel with
  | 0 => out_of_fuel
  | S n =>
      if next_is_error ts then Raise LexError
      else if next_is_lit "*" ts then
        '(r, ts1) <- parse_expnt n (tl ts) ;;
        v <- p_term_1 l r ;;
        term_loop n v ts1
      else if next_is_lit "/" ts then
        '(r, ts1) <- parse_expnt n (tl ts) ;;
        v <- p_term_2 l r ;;
        term_loop n v ts1
      else if next_is_lit "%" ts then
        '(r, ts1) <- parse_expnt n (tl ts) ;;
        v <- p_term_3 l r ;;
        term_loop n v ts1
      else Ok (l, ts)
  end

(** [expnt : field POW expnt | field]. *)
with parse_expnt (fuel : nat) (ts : list token) {struct fuel}
  : result (value * list token) :=
  match fuel with
  | 0 => out_of_fuel
  | S n =>
      '(l, ts1) <- parse_field n ts ;;
      match ts1 with
      | TError _ :: _ => Raise LexError
      | TPow :: ts2 =>
          '(r, ts3) <- parse_expnt n ts2 ;;
          v <- p_expnt_1 l r ;;
          Ok (v, ts3)
      | _ => Ok (l, ts1)
      end
  end

(** [field], without its left-recursive production. *)
with parse_field (fuel : nat) (ts : list token) {struct fuel}
  : result (value * list token) :=
  match fuel with
  | 0 => out_of_fuel
  | S n =>
      '(v, ts1) <-
        match ts with
        | TKw k :: ts1 =>
            if String.eqb k "O" then
              match ts1 with
              | TLit c :: ts2 =>
                  if Ascii.eqb c "." then
                    match ts2 with
                    | TId name :: ts3 => Ok (p_field_3 name, ts3)
                    | _ => unexpected ts2
                    end
                  else if Ascii.eqb c "[" then
                    '(lit, ts3) <- parse_literal ts2 ;;
                    expect_lit "]" ts3 (fun ts4 => Ok (p_field_4 lit, ts4))
                  else Ok (p_field_2, ts1)
              | TError _ :: _ => Raise LexError
              | _ => Ok (p_field_2, ts1)
              end
            else
              '(lit, ts2) <- parse_literal ts ;; Ok (p_field_1 lit, ts2)
        | TId name :: ts1 =>
            expect_lit "(" ts1 (fun ts2 =>
              '(args, ts3) <- parse_fexprstar n ts2 ;;
              expect_lit ")" ts3 (fun ts4 =>
                v <- p_field_5 name args ;; Ok (v, ts4)))
        | TLit c :: ts1 =>
            if Ascii.eqb c "(" then
              '(v, ts2) <- parse_fexpr n ts1 ;;
              expect_lit ")" ts2 (fun ts3 => Ok (v, ts3))
            else unexpected ts
        | _ => '(lit, ts2) <- parse_literal ts ;; Ok (p_field_1 lit, ts2)
        end ;;
      field_loop n v ts1
  end

(** [fexprstar : fexprs | fexpr | empty]. *)
with parse_fexprstar (fuel : nat) (ts : list token) {struct fuel}
  : result (list value * list token) :=
  match fuel with
  | 0 => out_of_fuel
  | S n =>
      if next_is_error ts then Raise LexError
      else if starts_fexpr ts then
        '(e1, ts1) <- parse_fexpr n ts ;;
        if next_is_lit "," ts1 then fexprs_tail n e1 (tl ts1)
        else Ok ([e1], ts1)
      else Ok ([], ts)
  end.

(** [fexprplus : fexprs | fexpr]: a list, or the single value. *)
Definition parse_fexprplus (fuel : nat) (ts : list token)
  : result (value * list token) :=
  '(e1, ts1) <- parse_fexpr fuel ts ;;
  if next_is_lit "," ts1 then
    '(items, ts2) <- fexprs_tail fuel e1 (tl ts1) ;; Ok (VList items, ts2)
  else Ok (e1, ts1).

(** [statement : select distinct fexprplus where groupby returning]. *)
Definition parse_statement (fuel : nat) (ts : list token) : result SelectQuery :=
  let ts := if next_is_kw "SELECT" ts then tl ts else ts in
  let distinct := next_is_kw "DISTINCT" ts in
  let ts := if distinct then tl ts else ts in
  '(fexprplus, ts) <- parse_fexprplus fuel ts ;;
  '(where_v, ts) <- (if next_is_kw "WHERE" ts then parse_fexpr fuel (tl ts)
                     else Ok (VNone, ts)) ;;
  '(groupby, ts) <- (if next_is_kw "GROUP" ts then
                       if next_is_kw "BY" (tl ts) then
                         '(g, ts') <- parse_fexprplus fuel (tl (tl ts)) ;;
                         Ok (Some (p_groupby_1 g), ts')
                       else unexpected (tl ts)
                     else Ok (None, ts)) ;;
  '(returning, ts) <- (if next_is_kw "RETURNING" ts then
                         match tl ts with
                         | TId name :: ts' =>
                             t <- p_returning_1 name ;; Ok (Some t, ts')
                         | _ => unexpected (tl ts)
                         end
                       else Ok (None, ts)) ;;
  match ts with
  | [] => p_statement distinct fexprplus where_v groupby returning
  | _ => unexpected ts
  end.

(** [snakeql.query(text)], that is [yacc.parse(text)]. *)
Definition parse (text : string) : result SelectQuery :=
  let ts := lex text in
  parse_statement (20 * (List.length ts + 1)) ts.

(* ================================================================== *)
(** ** Notions used to state the properties *)
(* ================================================================== *)

(** Pointwise comparison of two lists of the same length. *)
Fixpoint forall2b {A : Type} (p : A -> A -> bool) (xs ys : list A) : bool :=
  match xs, ys with
  | [], [] => true
  | x :: xs', y :: ys' => p x y && forall2b p xs' ys'
  | _, _ => false
  end.

Definition is_alias (f : field) : bool :=
  match f with AliasField _ _ => true | _ => false end.

(** A bound on the number of nested [_equals] calls. *)
Definition equals_depth (self other : field) : nat :=
  2 * (fsize self + fsize other) + (if is_alias self then 0 else 1).

(** The comparison [_equals] makes when neither side is an alias, with
    [eq] standing for the recursive calls. *)
Definition direct_equals (eq : field -> field -> bool) (self other : field) : bool :=
  match self, other with
  | IdentityField, IdentityField => true
  | AttrField a, AttrField b => String.eqb a b
  | KeyField a, KeyField b => eqb_val a b
  | ConstantField a, ConstantField b => eqb_val a b
  | ListField xs, ListField ys =>
      Nat.eqb (List.length xs) (List.length ys)
      && forallb (fun xy => eq (fst xy) (snd xy)) (combine xs ys)
  | FunctionField fn xs _, FunctionField gn ys _
  | OperatorField fn xs _, OperatorField gn ys _
  | AggregateFunctionField fn xs _, AggregateFunctionField gn ys _ =>
      pyfunc_is fn gn
      && Nat.eqb (List.length xs) (List.length ys)
      && forallb (fun xy => eq (fst xy) (snd xy)) (combine xs ys)
  | _, _ => false
  end.

(** *** Ordered keys *)

(** The truth value of [a < b], false when the comparison raises. *)
Definition ltb_val (a b : value) : bool :=
  match py_lt a b with
  | Ok v => truthy v
  | Raise _ => false
  end.

Definition lt_defined (a b : value) : bool :=
  match py_lt a b with
  | Ok _ => true
  | Raise _ => false
  end.

(** [<] is defined between all the keys, orders them as a strict weak
    order, and two keys are [==] exactly when neither is below the
    other.  Integers, strings and tuples of them are ordered this way;
    sets (ordered by inclusion) and keys of mixed types are not. *)
Definition totally_ordered (ks : list value) : bool :=
  forallb (fun a =>
    forallb (fun b =>
      lt_defined a b
      && Bool.eqb (eqb_val a b) (negb (ltb_val a b) && negb (ltb_val b a))
      && implb (ltb_val a b) (negb (ltb_val b a))
      && forallb (fun c =>
           implb (ltb_val a b && ltb_val b c) (ltb_val a c)
           && implb (negb (ltb_val a b) && negb (ltb_val b c)) (negb (ltb_val a c)))
         ks) ks) ks.

(** The sort of [sorted] when every comparison answers. *)
Section PureSort.
Variable A : Type.
Variable key : A -> value.

Fixpoint insert_pure (x : A) (s : list A) : list A :=
  match s with
  | [] => [x]
  | y :: s' => if ltb_val (key y) (key x) then y :: insert_pure x s' else x :: s
  end.

Fixpoint isort (l : list A) : list A :=
  match l with
  | [] => []
  | x :: l' => insert_pure x (isort l')
  end.
End PureSort.

(** *** The rows of a grouped query, as the specification describes them *)

(** The group key of a record: the tuple of the GROUP BY values. *)
Definition group_key `{Host} (gb : list field) (r : value) : result value :=
  vs <- mapM (fun g => __call__ g r) gb ;; Ok (VTuple vs).

Definition tuple_items (v : value) : list value :=
  match v with
  | VTuple items => items
  | _ => []
  end.

(** The i-th value of the row of a group with key [K] and records [G]. *)
Definition row_value `{Host} (gb : list field) (K : value) (G : list value)
    (select_field : field) : result value :=
  match field_index select_field gb with
  | Some idx => Ok (nth idx (tuple_items K) VNone)
  | None => __call__ select_field (VList G)
  end.

Definition row_of `{Host} (q : SelectQuery) (gb : list field)
    (group : value * list value) : result value :=
  vs <- mapM (row_value gb (fst group) (snd group)) (fields q) ;; Ok (VTuple vs).

(** The records among [recs] whose key equals [K], in input order. *)
Definition records_with_key (K : value) (keys recs : list value) : list value :=
  map snd (filter (fun kr => eqb_val K (fst kr)) (combine keys recs)).

(** The rows a grouped query produces before flattening, DISTINCT and
    RETURNING. *)
Definition grouped_rows `{Host} (q : SelectQuery) (res : gen value) : gen value :=
  SelectQuery._select (map (SelectQuery._make_group_by_field q) (fields q))
    (SelectQuery._group q res).

(** The keys of the groups [_group] yields. *)
Definition group_keys `{Host} (q : SelectQuery) (res : gen value) : result (list value) :=
  l <- list_of_gen (SelectQuery._group q res) ;; Ok (map KeyValuePair.key l).

(** No two keys of the list are [==]. *)
Definition distinct_keys (ks : list value) : Prop :=
  ForallOrdPairs (fun a b => eqb_val a b = false) ks.

(** A grouped query emits exactly one row per distinct key: the keys of
    the groups are pairwise different, with no condition on them. *)
Definition one_row_per_distinct_key `{Host} (q : SelectQuery) (objects : list value) : Prop :=
  exists ks : list value,
    group_keys q (SelectQuery._where q (gen_of_list objects)) = Ok ks /\
    distinct_keys ks.

(** *** Sample queries and inputs *)

(** [SELECT o.x, sum(o.y) GROUP BY o.x]. *)
Definition sum_y_by_x : SelectQuery :=
  mkSelectQuery
    [AttrField "x"; AggregateFunctionField F_sum [AttrField "y"] "sum"]
    false false None (Some [AttrField "x"]) None.

Definition point (x y : Z) : value := VObj "Point" [("x", VInt x); ("y", VInt y)].

Definition three_points : list value := [point 2 1; point 1 5; point 2 10].

(** [SELECT o.tags, GROUP BY o.tags] over records whose [tags] are sets. *)
Definition by_tags : SelectQuery :=
  mkSelectQuery [AttrField "tags"] false false None (Some [AttrField "tags"]) None.

Definition tagged (tags : list Z) : value := VObj "Item" [("tags", VSet tags)].

Definition three_tagged : list value := [tagged [1%Z]; tagged [2%Z]; tagged [1%Z]].

(** Structural equality of two queries: the projections and the GROUP BY
    lists field by field under [_equals], and the same flags, WHERE
    clause and return type. *)
Definition option_equals {A : Type} (eq : A -> A -> bool) (a b : option A) : bool :=
  match a, b with
  | Some x, Some y => eq x y
  | None, None => true
  | _, _ => false
  end.

Definition query_equals (a b : SelectQuery) : bool :=
  forall2b _equals (fields a) (fields b)
  && Bool.eqb (flatten a) (flatten b)
  && Bool.eqb (distinct a) (distinct b)
  && option_equals _equals (where_ a) (where_ b)
  && option_equals (forall2b _equals) (group_by a) (group_by b)
  && option_equals String.eqb (return_type a) (return_type b).

(** The round trip of the specification at one text: if it parses, then
    the printed query parses again, to a structurally equal query. *)
Definition round_trip `{Host} (text : string) : Prop :=
  forall q : SelectQuery,
    parse text = Ok q ->
    exists (printed : string) (q' : SelectQuery),
      SelectQuery.__str__ q = Ok printed /\
      parse printed = Ok q' /\
      query_equals q' q = true.

(** *** Sample texts *)

(** The query [SELECT (NOT o.x) == 1] parses to: [==] over [NOT o.x]. *)
Definition eq_of_not : SelectQuery :=
  mkSelectQuery
    [OperatorField F_eq
       [OperatorField F_not [AttrField "x"] "NOT"; ConstantField (VInt 1)] "=="]
    true false None None None.

(** The query its printed form parses to: [NOT] over [o.x == 1]. *)
Definition not_of_eq : SelectQuery :=
  mkSelectQuery
    [OperatorField F_not
       [OperatorField F_eq [AttrField "x"; ConstantField (VInt 1)] "=="] "NOT"]
    true false None None None.

(** *** Fields without a MATCHES node *)

(** Some node of the field applies the function [matches]. *)
Fixpoint uses_matches (fld : field) : bool :=
  match fld with
  | IdentityField | AttrField _ | KeyField _ | ConstantField _ => false
  | ListField l => existsb uses_matches l
  | FunctionField fn args _ | OperatorField fn args _
  | AggregateFunctionField fn args _ =>
      pyfunc_is fn F_matches || existsb uses_matches args
  | AliasField g _ => uses_matches g
  end.

(** The values the reductions leave on the stack for an expression: a
    field without MATCHES node, [None], or a plain [bool] or [int]. *)
Definition stack_ok (v : value) : Prop :=
  match v with
  | VField fld => uses_matches fld = false
  | VNone | VBool _ | VInt _ => True
  | _ => False
  end.

(** A property of the value a computation returns, if it returns one. *)
Definition okr {A : Type} (P : A -> Prop) (r : result A) : Prop :=
  match r with
  | Ok a => P a
  | Raise _ => True
  end.

Definition wrapped_func (w : wrapped) : pyfunc :=
  match w with
  | WrapField fn _ | WrapAggregate fn _ => fn
  end.

Definition query_without_matches (q : SelectQuery) : Prop :=
  Forall (fun fld => uses_matches fld = false) (fields q) /\
  (forall w, where_ q = Some w -> uses_matches w = false) /\
  (forall g, group_by q = Some g -> Forall (fun fld => uses_matches fld = false) g).

Definition parsed_ok (p : value * list token) : Prop := stack_ok (fst p).

Definition parsed_list_ok (p : list value * list token) : Prop :=
  Forall stack_ok (fst p).

(** The invariant of the expression parser at one amount of fuel. *)
Definition parser_inv (n : nat) : Prop :=
  (forall ts, okr parsed_ok (parse_fexpr n ts)) /\
  (forall l ts, stack_ok l -> okr parsed_ok (fexpr_loop n l ts)) /\
  (forall ts, okr parsed_ok (parse_predterm n ts)) /\
  (forall l ts, stack_ok l -> okr parsed_ok (predterm_loop n l ts)) /\
  (forall ts, okr parsed_ok (parse_prednfactor n ts)) /\
  (forall l ts, stack_ok l -> okr parsed_ok (predfactor_loop n l ts)) /\
  (forall ts, okr parsed_list_ok (parse_fexprs n ts)) /\
  (forall e ts, stack_ok e -> okr parsed_list_ok (fexprs_tail n e ts)) /\
  (forall items ts, Forall stack_ok items -> okr parsed_list_ok (fexprs_more n items ts)) /\
  (forall ts, okr parsed_ok (parse_arithexpr n ts)) /\
  (forall l ts, stack_ok l -> okr parsed_ok (arithexpr_loop n l ts)) /\
  (forall ts, okr parsed_ok (parse_term n ts)) /\
  (forall l ts, stack_ok l -> okr parsed_ok (term_loop n l ts)) /\
  (forall ts, okr parsed_ok (parse_expnt n ts)) /\
  (forall ts, okr parsed_ok (parse_field n ts)) /\
  (forall ts, okr parsed_list_ok (parse_fexprstar n ts)).

(** What [fexprplus] leaves on the stack: one expression value, or the
    list of them. *)
Definition plus_ok (v : value) : Prop :=
  stack_ok v \/ exists items, v = VList items /\ Forall stack_ok items.

(** *** Subsequences *)

(** [out] keeps some of the items of [l], in the order of [l]. *)
Inductive subseq {A : Type} : list A -> list A -> Prop :=
| subseq_nil : subseq [] []
| subseq_skip (x : A) (out l : list A) : subseq out l -> subseq out (x :: l)
| subseq_keep (x : A) (out l : list A) : subseq out l -> subseq (x :: out) (x :: l).

(** *** Registry entries and parsed queries *)

(** The display name a registry entry gives to the nodes it builds. *)
Definition wrapped_name (w : wrapped) : string :=
  match w with
  | WrapField _ name | WrapAggregate _ name => name
  end.

(** What the builder methods check, as a property of a finished query. *)
Definition validated (q : SelectQuery) : Prop :=
  fields q <> [] /\
  (flatten q = true -> List.length (fields q) = 1) /\
  (forall w, where_ q = Some w -> _is_mapper w = true) /\
  (forall g, group_by q = Some g ->
             g <> [] /\ forallb _is_mapper g = true /\
             Forall (fun select_field =>
                       field_index select_field g <> None
                       \/ _is_aggregator select_field = true) (fields q)) /\
  (forall t, return_type q = Some t -> In t _return_types /\ flatten q = false).

(** *** Character classes of a text *)

(** Every character of [s] satisfies [p]. *)
Fixpoint all_chars (p : ascii -> bool) (s : string) : bool :=
  match s with
  | EmptyString => true
  | String c s' => p c && all_chars p s'
  end.

(** [s] is empty or starts with a character that does not satisfy [p]. *)
Definition stops (p : ascii -> bool) (s : string) : bool :=
  match s with
  | EmptyString => true
  | String c _ => negb (p c)
  end.

(** What may follow a number: the end of the text, or a character that is
    neither a letter, a digit, an underscore nor a dot. *)
Definition ends_number (rest : string) : bool :=
  stops (fun c => is_ident_char c || Ascii.eqb c ".") rest.

(** A character that [repr] prints as itself between single quotes and
    that a string literal of the lexer may hold: printable ASCII other
    than the single quote and the backslash. *)
Definition plain_char (c : ascii) : bool :=
  let n := nat_of_ascii c in
  ((32 <=? n) && (n <? 127))%nat
  && negb (Ascii.eqb c squote) && negb (Ascii.eqb c backslash).

(** *** Fuel of the parser *)

(** One more unit of fuel changes no answer other than [out_of_fuel]. *)
Definition fuel_mono (n : nat) : Prop :=
  (forall l ts, field_loop n l ts <> out_of_fuel -> field_loop (S n) l ts = field_loop n l ts) /\
  (forall ts, parse_fexpr n ts <> out_of_fuel -> parse_fexpr (S n) ts = parse_fexpr n ts) /\
  (forall l ts, fexpr_loop n l ts <> out_of_fuel -> fexpr_loop (S n) l ts = fexpr_loop n l ts) /\
  (forall ts, parse_predterm n ts <> out_of_fuel -> parse_predterm (S n) ts = parse_predterm n ts) /\
  (forall l ts, predterm_loop n l ts <> out_of_fuel -> predterm_loop (S n) l ts = predterm_loop n l ts) /\
  (forall ts, parse_prednfactor n ts <> out_of_fuel -> parse_prednfactor (S n) ts = parse_prednfactor n ts) /\
  (forall l ts, predfactor_loop n l ts <> out_of_fuel -> predfactor_loop (S n) l ts = predfactor_loop n l ts) /\
  (forall ts, parse_fexprs n ts <> out_of_fuel -> parse_fexprs (S n) ts = parse_fexprs n ts) /\
  (forall e1 ts, fexprs_tail n e1 ts <> out_of_fuel -> fexprs_tail (S n) e1 ts = fexprs_tail n e1 ts) /\
  (forall items ts, fexprs_more n items ts <> out_of_fuel -> fexprs_more (S n) items ts = fexprs_more n items ts) /\
  (forall ts, parse_arithexpr n ts <> out_of_fuel -> parse_arithexpr (S n) ts = parse_arithexpr n ts) /\
  (forall l ts, arithexpr_loop n l ts <> out_of_fuel -> arithexpr_loop (S n) l ts = arithexpr_loop n l ts) /\
  (forall ts, parse_term n ts <> out_of_fuel -> parse_term (S n) ts = parse_term n ts) /\
  (forall l ts, term_loop n l ts <> out_of_fuel -> term_loop (S n) l ts = term_loop n l ts) /\
  (forall ts, parse_expnt n ts <> out_of_fuel -> parse_expnt (S n) ts = parse_expnt n ts) /\
  (forall ts, parse_field n ts <> out_of_fuel -> parse_field (S n) ts = parse_field n ts) /\
  (forall ts, parse_fexprstar n ts <> out_of_fuel -> parse_fexprstar (S n) ts = parse_fexprstar n ts).

(** The answer is not [out_of_fuel], and what is left of the tokens after a
    parsed value is shorter than [bound]. *)
Definition within {A : Type} (bound : nat) (r : result (A * list token)) : Prop :=
  match r with
  | Ok p => List.length (snd p) < bound
  | Raise e => Raise e <> @out_of_fuel (A * list token)
  end.

(** With twenty units of fuel per token the parsing functions answer, and
    the ones that parse a phrase use up a token at least. *)
Definition fuel_enough (n : nat) : Prop :=
  (forall l ts, 8 + 20 * List.length ts <= n -> within (S (List.length ts)) (field_loop n l ts)) /\
  (forall ts, 7 + 20 * List.length ts <= n -> within (List.length ts) (parse_fexpr n ts)) /\
  (forall l ts, 8 + 20 * List.length ts <= n -> within (S (List.length ts)) (fexpr_loop n l ts)) /\
  (forall ts, 6 + 20 * List.length ts <= n -> within (List.length ts) (parse_predterm n ts)) /\
  (forall l ts, 8 + 20 * List.length ts <= n -> within (S (List.length ts)) (predterm_loop n l ts)) /\
  (forall ts, 5 + 20 * List.length ts <= n -> within (List.length ts) (parse_prednfactor n ts)) /\
  (forall l ts, 8 + 20 * List.length ts <= n -> within (S (List.length ts)) (predfactor_loop n l ts)) /\
  (forall ts, 8 + 20 * List.length ts <= n -> within (List.length ts) (parse_fexprs n ts)) /\
  (forall e1 ts, 8 + 20 * List.length ts <= n -> within (S (List.length ts)) (fexprs_tail n e1 ts)) /\
  (forall items ts, 8 + 20 * List.length ts <= n -> within (S (List.length ts)) (fexprs_more n items ts)) /\
  (forall ts, 4 + 20 * List.length ts <= n -> within (List.length ts) (parse_arithexpr n ts)) /\
  (forall l ts, 8 + 20 * List.length ts <= n -> within (S (List.length ts)) (arithexpr_loop n l ts)) /\
  (forall ts, 3 + 20 * List.length ts <= n -> within (List.length ts) (parse_term n ts)) /\
  (forall l ts, 8 + 20 * List.length ts <= n -> within (S (List.length ts)) (term_loop n l ts)) /\
  (forall ts, 2 + 20 * List.length ts <= n -> within (List.length ts) (parse_expnt n ts)) /\
  (forall ts, 1 + 20 * List.length ts <= n -> within (List.length ts) (parse_field n ts)) /\
  (forall ts, 8 + 20 * List.length ts <= n -> within (S (List.length ts)) (parse_fexprstar n ts)).



(** *** Parsing without counting fuel *)












(** *** Texts that parse back *)














(** A text of blanks, tabs and line feeds only. *)
Definition blank_text (s : string) : bool :=
  all_chars (fun c => Ascii.eqb c " " || Ascii.eqb c (ascii_of_nat 9)
                      || Ascii.eqb c newline) s.

(* ================================================================== *)
(** * Properties *)
(* ================================================================== *)

Unset Implicit Arguments.

(** A host that knows no callable beyond the model, for concrete runs. *)
#[local] Instance bare_host : Host := {|
  host_call := fun fn _ => Raise (NameError (func_name fn));
  host_repr := fun v => "<" ++ type_name v ++ ">";
  host_construct := fun t kw => Ok (VObj t [])
|}.

(* ------------------------------------------------------------------ *)
(** ** The binary operators of [Field] *)
(* ------------------------------------------------------------------ *)

Lemma mapM_two {A B : Type} (g : A -> result B) (a b : A) :
  mapM g [a; b] = (x <- g a ;; y <- g b ;; Ok [x; y]).
Proof.
  simpl. destruct (g a); simpl; [|reflexivity].
  destruct (g b); reflexivity.
Qed.

(** Evaluating a node built by [field_op] evaluates the two operands in
    order and applies the function to the two values. *)
Lemma call_field_op `{Host} (fn : pyfunc) (sym : string) (a : field) (b : value) (r : value) :
  __call__ (field_op fn sym a b) r =
  (x <- __call__ a r ;; y <- __call__ (to_field b) r ;; apply_func fn [x; y]).
Proof.
  unfold field_op.
  change (__call__ (OperatorField fn [a; to_field b] (name_or sym fn)) r)
    with (vs <- mapM (fun arg => __call__ arg r) [a; to_field b] ;; apply_func fn vs).
  rewrite mapM_two.
  destruct (__call__ a r); simpl; [|reflexivity].
  destruct (__call__ (to_field b) r); reflexivity.
Qed.

(** C1: the function registered for OR ignores its left operand.  For all
    operand values it returns the module-level identity field object,
    which is true, and not Python's [x or y]; a node built by [|]
    therefore evaluates, once its operands have been evaluated, to that
    true object on every record. *)
Theorem or_ignores_left_operand `{Host} :
  (forall x y : value, or_ x y = VField o) /\
  truthy (VField o) = true /\
  or_ (VBool false) (VBool false) <> py_or (VBool false) (VBool false) /\
  or_ (VInt 1) (VInt 2) <> py_or (VInt 1) (VInt 2) /\
  (forall x y : value, apply_func F_or [x; y] = Ok (VField o)) /\
  (forall (a : field) (b : value), Field.__or__ a b = OperatorField F_or [a; to_field b] "OR") /\
  (forall (a : field) (b : value) (r : value),
      __call__ (Field.__or__ a b) r =
      (_ <- __call__ a r ;; _ <- __call__ (to_field b) r ;; Ok (VField o))).
Proof.
  repeat split; try reflexivity; try discriminate.
  intros a b r. unfold Field.__or__. rewrite call_field_op. reflexivity.
Qed.


(* ------------------------------------------------------------------ *)
(** ** [SelectResult.one] *)
(* ------------------------------------------------------------------ *)

(** The two [ValueError]s of [one], which the specification calls
    EmptyResult and AmbiguousResult. *)
Definition EmptyResult : error := ValueError "no items in in result".
Definition AmbiguousResult : error := ValueError "more than one item in result".

(** C7: [one] takes rows off the result: with exactly one row it returns
    that row and leaves the result exhausted; with no row it fails with
    EmptyResult; with two or more it fails with AmbiguousResult, after
    taking the first two rows. *)
Theorem one_returns_single_row (q : SelectQuery) :
  (forall row : value,
      SelectResult.one (mkSelectResult (gen_of_list [row]) q)
      = (Ok row, mkSelectResult Stop q)) /\
  SelectResult.one (mkSelectResult (gen_of_list []) q)
  = (Raise EmptyResult, mkSelectResult Stop q) /\
  (forall (r1 r2 : value) (rest : list value),
      SelectResult.one (mkSelectResult (gen_of_list (r1 :: r2 :: rest)) q)
      = (Raise AmbiguousResult, mkSelectResult (gen_of_list rest) q)) /\
  EmptyResult <> AmbiguousResult.
Proof.
  repeat split; try reflexivity. discriminate.
Qed.

(* ------------------------------------------------------------------ *)
(** ** [AliasField.__init__] *)
(* ------------------------------------------------------------------ *)

Lemma alias_init_accepts_prefix (fld : value) (c : ascii) (rest : string) :
  is_ident_start c = true ->
  AliasField.__init__ fld (String c rest) = Ok (AliasField (to_field fld) (String c rest)).
Proof.
  intros Hc. unfold AliasField.__init__, re_match_ident. rewrite Hc. reflexivity.
Qed.

(** C8, at the failing input: the names [a b] and [a-b] are not
    identifiers, and [AliasField.__init__] accepts them, because
    [re.match] only asks for an identifier at the start of the name. *)
Theorem alias_accepts_non_identifier :
  is_identifier "a b" = false /\
  AliasField.__init__ (VField o) "a b" = Ok (AliasField o "a b") /\
  is_identifier "a-b" = false /\
  AliasField.__init__ (VField o) "a-b" = Ok (AliasField o "a-b").
Proof. repeat split; reflexivity. Qed.

(* ------------------------------------------------------------------ *)
(** ** [AggregateFunctionField.__init__] *)
(* ------------------------------------------------------------------ *)



(* ------------------------------------------------------------------ *)
(** ** Equality of values *)
(* ------------------------------------------------------------------ *)

Lemma py_eq_tuple (xs ys : list value) :
  py_eq (VTuple xs) (VTuple ys) = VBool (forall2b eqb_val xs ys).
Proof.
  simpl. f_equal. revert ys.
  induction xs as [|x xs IH]; intros [|y ys]; simpl; try reflexivity.
  rewrite IH. reflexivity.
Qed.

Lemma py_eq_list (xs ys : list value) :
  py_eq (VList xs) (VList ys) = VBool (forall2b eqb_val xs ys).
Proof.
  simpl. f_equal. revert ys.
  induction xs as [|x xs IH]; intros [|y ys]; simpl; try reflexivity.
  rewrite IH. reflexivity.
Qed.

Lemma py_eq_obj (c d : string) (xs ys : list (string * value)) :
  py_eq (VObj c xs) (VObj d ys)
  = VBool (String.eqb c d
           && forall2b (fun kx ky => String.eqb (fst kx) (fst ky)
                                     && eqb_val (snd kx) (snd ky)) xs ys).
Proof.
  simpl. do 2 f_equal. revert ys.
  induction xs as [|x xs IH]; intros [|y ys]; simpl; try reflexivity.
  rewrite IH. reflexivity.
Qed.

Lemma forall2b_sym {A : Type} (p : A -> A -> bool) (xs : list A) :
  Forall (fun x => forall y, p x y = p y x) xs ->
  forall ys, forall2b p xs ys = forall2b p ys xs.
Proof.
  induction 1 as [|x xs Hx _ IH]; intros [|y ys]; simpl; try reflexivity.
  rewrite Hx, IH. reflexivity.
Qed.

Lemma forall2b_refl {A : Type} (p : A -> A -> bool) (xs : list A) :
  Forall (fun x => p x x = true) xs -> forall2b p xs xs = true.
Proof.
  induction 1 as [|x xs Hx _ IH]; simpl; [reflexivity|].
  rewrite Hx, IH. reflexivity.
Qed.

(** The truth value of [==] does not depend on the side. *)
Lemma eqb_val_sym (a b : value) : eqb_val a b = eqb_val b a.
Proof.
  revert b. induction a as [| x | n | s | l H | l H | l | c l H | g] using value_nested_ind; intros b.
  - destruct b; reflexivity.
  - destruct b as [| c | n | | | | | |]; try reflexivity.
    + unfold eqb_val; simpl. destruct x, c; reflexivity.
    + unfold eqb_val; simpl. apply Z.eqb_sym.
  - destruct b as [| c | m | | | | | |]; try reflexivity.
    + unfold eqb_val; simpl. apply Z.eqb_sym.
    + unfold eqb_val; simpl. apply Z.eqb_sym.
  - destruct b; try reflexivity.
    unfold eqb_val; simpl. apply String.eqb_sym.
  - destruct b; try reflexivity.
    unfold eqb_val. rewrite !py_eq_tuple. simpl.
    apply forall2b_sym. exact H.
  - destruct b; try reflexivity.
    unfold eqb_val. rewrite !py_eq_list. simpl.
    apply forall2b_sym. exact H.
  - destruct b; try reflexivity.
    unfold eqb_val; simpl. unfold set_eq. apply andb_comm.
  - destruct b; try reflexivity.
    unfold eqb_val. rewrite !py_eq_obj. simpl.
    rewrite String.eqb_sym. f_equal.
    apply forall2b_sym.
    eapply Forall_impl; [|exact H].
    intros [k v] Hv [k' v']; simpl in *.
    rewrite String.eqb_sym, Hv. reflexivity.
  - destruct b; reflexivity.
Qed.

(* ------------------------------------------------------------------ *)
(** ** Structural equality of fields *)
(* ------------------------------------------------------------------ *)

Lemma all_equals_ext (eqf eqg : field -> field -> option bool) (xs ys : list field) :
  (forall x y, In (x, y) (combine xs ys) -> eqf x y = eqg x y) ->
  all_equals eqf xs ys = all_equals eqg xs ys.
Proof.
  revert ys. induction xs as [|x xs IH]; intros [|y ys] Hext; simpl; try reflexivity.
  rewrite <- (Hext x y) by (left; reflexivity).
  destruct (eqf x y) as [[|]|]; try reflexivity.
  apply IH. intros x' y' Hin. apply Hext. right. exact Hin.
Qed.

Lemma all_equals_forallb (eqf : field -> field -> option bool)
    (p : field -> field -> bool) (xs ys : list field) :
  (forall x y, In (x, y) (combine xs ys) -> eqf x y = Some (p x y)) ->
  all_equals eqf xs ys
  = Some (forallb (fun xy => p (fst xy) (snd xy)) (combine xs ys)).
Proof.
  revert ys. induction xs as [|x xs IH]; intros [|y ys] Hext; simpl; try reflexivity.
  rewrite (Hext x y) by (left; reflexivity).
  destruct (p x y); simpl; [|reflexivity].
  apply IH. intros x' y' Hin. apply Hext. right. exact Hin.
Qed.

Lemma in_fsize_le (x : field) (xs : list field) :
  In x xs -> fsize x <= list_sum (map fsize xs).
Proof.
  induction xs as [|y xs IH]; simpl; [tauto|].
  intros [->|Hin]; [lia|]. specialize (IH Hin). lia.
Qed.

Lemma fsize_pos (f : field) : 1 <= fsize f.
Proof. destruct f; simpl; lia. Qed.

Lemma equals_depth_arg (x y : field) (xs ys : list field) :
  In (x, y) (combine xs ys) ->
  equals_depth x y + 4 <= 2 * (S (list_sum (map fsize xs)) + S (list_sum (map fsize ys))) + 1.
Proof.
  intros Hin.
  pose proof (in_fsize_le _ _ (in_combine_l _ _ _ _ Hin)).
  pose proof (in_fsize_le _ _ (in_combine_r _ _ _ _ Hin)).
  unfold equals_depth. destruct (is_alias x); lia.
Qed.

Ltac equals_args IH :=
  repeat match goal with
         | |- context [if ?c then _ else _] => destruct c; try reflexivity
         end;
  apply all_equals_ext; intros ? ? Hin; apply IH;
  apply equals_depth_arg in Hin; lia.

(** Beyond [equals_depth], the number of calls allowed no longer matters. *)
Lemma equals_fuel_stable (n : nat) :
  forall (m : nat) (self other : field),
    equals_depth self other < n -> equals_depth self other < m ->
    equals_fuel n self other = equals_fuel m self other.
Proof.
  induction n as [|n IH]; intros m self other Hn Hm; [lia|].
  destruct m as [|m]; [lia|].
  unfold equals_depth in Hn, Hm.
  destruct self; destruct other; cbn [fsize is_alias] in Hn, Hm; simpl;
    try reflexivity;
    try (apply IH; unfold equals_depth; cbn [fsize is_alias]; lia);
    try (apply IH; unfold equals_depth; cbn [fsize is_alias];
         match goal with |- context [is_alias ?f] => destruct (is_alias f) end; lia);
    equals_args IH.
Qed.

Lemma all_equals_some (eqf : field -> field -> option bool) (xs ys : list field) :
  (forall x y, In (x, y) (combine xs ys) -> eqf x y <> None) ->
  all_equals eqf xs ys <> None.
Proof.
  revert ys. induction xs as [|x xs IH]; intros [|y ys] Hs; simpl; try discriminate.
  pose proof (Hs x y (or_introl eq_refl)) as Hxy.
  destruct (eqf x y) as [[|]|]; try discriminate; [|congruence].
  apply IH. intros x' y' Hin. apply Hs. right. exact Hin.
Qed.

(** [_equals] always answers: the calls allowed by [equals_depth] are
    enough for every pair of fields. *)
Lemma equals_fuel_total (n : nat) :
  forall (self other : field),
    equals_depth self other < n -> equals_fuel n self other <> None.
Proof.
  induction n as [|n IH]; intros self other Hn; [lia|].
  unfold equals_depth in Hn.
  destruct self; destruct other; cbn [fsize is_alias] in Hn; simpl;
    try discriminate;
    try (apply IH; unfold equals_depth; cbn [fsize is_alias]; lia);
    try (apply IH; unfold equals_depth; cbn [fsize is_alias];
         match goal with |- context [is_alias ?f] => destruct (is_alias f) end; lia);
    repeat match goal with
           | |- context [if ?c then _ else _] => destruct c; try discriminate
           end;
    apply all_equals_some; intros ? ? Hin; apply IH;
    apply equals_depth_arg in Hin; lia.
Qed.

Lemma equals_fuel_spec (n : nat) (self other : field) :
  equals_depth self other < n ->
  equals_fuel n self other = Some (_equals self other).
Proof.
  intros Hn. unfold _equals.
  assert (Hm : equals_depth self other < 2 * (fsize self + fsize other) + 2)
    by (unfold equals_depth; destruct (is_alias self); lia).
  rewrite <- (@equals_fuel_stable n _ self other Hn Hm).
  pose proof (@equals_fuel_total n self other Hn).
  destruct (equals_fuel n self other); congruence.
Qed.

(** [AliasField._equals]: [return self.field._equals(other)]. *)
Lemma equals_alias_self (fld : field) (name : string) (other : field) :
  _equals (AliasField fld name) other = _equals fld other.
Proof.
  pose proof (@equals_fuel_spec (2 * (fsize (AliasField fld name) + fsize other) + 2)
                (AliasField fld name) other) as H.
  assert (Hd : equals_depth (AliasField fld name) other
               < 2 * (fsize (AliasField fld name) + fsize other) + 2)
    by (unfold equals_depth; simpl; lia).
  specialize (H Hd).
  replace (2 * (fsize (AliasField fld name) + fsize other) + 2)
    with (S (2 * (fsize fld + fsize other) + 3)) in H by (simpl; lia).
  simpl in H.
  rewrite equals_fuel_spec in H
    by (unfold equals_depth; destruct (is_alias fld); lia).
  congruence.
Qed.

(** The other classes: [if isinstance(other, AliasField): return
    other._equals(self)]. *)
Lemma equals_alias_other (self fld : field) (name : string) :
  is_alias self = false ->
  _equals self (AliasField fld name) = _equals (AliasField fld name) self.
Proof.
  intros Hna.
  pose proof (@equals_fuel_spec (S (equals_depth self (AliasField fld name)))
                self (AliasField fld name) (Nat.lt_succ_diag_r _)) as H.
  assert (Hstep : equals_fuel (S (equals_depth self (AliasField fld name)))
                    self (AliasField fld name)
                  = equals_fuel (equals_depth self (AliasField fld name))
                      (AliasField fld name) self)
    by (destruct self; try discriminate; reflexivity).
  rewrite Hstep in H.
  rewrite equals_fuel_spec in H
    by (unfold equals_depth; rewrite Hna; simpl; lia).
  congruence.
Qed.

(** Neither side an alias: the class-by-class comparison. *)
Lemma equals_direct (self other : field) :
  is_alias self = false -> is_alias other = false ->
  _equals self other = direct_equals _equals self other.
Proof.
  intros Hs Ho.
  pose proof (@equals_fuel_spec (S (equals_depth self other)) self other
                (Nat.lt_succ_diag_r _)) as H.
  assert (Some (_equals self other) = Some (direct_equals _equals self other));
    [|congruence].
  rewrite <- H. clear H.
  remember (equals_depth self other) as d eqn:Hd.
  destruct self; try discriminate; destruct other; try discriminate;
    try reflexivity;
    cbn [equals_fuel direct_equals];
    repeat match goal with
           | |- context [pyfunc_is ?a ?b] => destruct (pyfunc_is a b); simpl; try reflexivity
           | |- context [Nat.eqb ?a ?b] => destruct (Nat.eqb a b); simpl; try reflexivity
           end;
    apply all_equals_forallb; intros x y Hin; apply equals_fuel_spec;
    apply equals_depth_arg in Hin; subst d; unfold equals_depth in *;
    cbn [fsize is_alias]; lia.
Qed.

Lemma forallb_combine_sym (p : field -> field -> bool) (xs ys : list field) :
  (forall x y, In (x, y) (combine xs ys) -> p x y = p y x) ->
  forallb (fun xy => p (fst xy) (snd xy)) (combine xs ys)
  = forallb (fun xy => p (fst xy) (snd xy)) (combine ys xs).
Proof.
  revert ys. induction xs as [|x xs IH]; intros [|y ys] Hp; simpl; try reflexivity.
  rewrite (Hp x y) by (left; reflexivity). f_equal.
  apply IH. intros x' y' Hin. apply Hp. right. exact Hin.
Qed.

Lemma pyfunc_is_sym (a b : pyfunc) : pyfunc_is a b = pyfunc_is b a.
Proof.
  unfold pyfunc_is.
  destruct (pyfunc_eq_dec a b), (pyfunc_eq_dec b a); congruence.
Qed.

Lemma direct_equals_sym (eq : field -> field -> bool) (self other : field) :
  (forall x y, fsize x + fsize y < fsize self + fsize other -> eq x y = eq y x) ->
  direct_equals eq self other = direct_equals eq other self.
Proof.
  intros Heq.
  assert (Hargs : forall xs ys,
             S (list_sum (map fsize xs)) + S (list_sum (map fsize ys))
             <= fsize self + fsize other ->
             forallb (fun xy => eq (fst xy) (snd xy)) (combine xs ys)
             = forallb (fun xy => eq (fst xy) (snd xy)) (combine ys xs)).
  { intros xs ys Hle. apply forallb_combine_sym. intros x y Hin. apply Heq.
    pose proof (in_fsize_le _ _ (in_combine_l _ _ _ _ Hin)).
    pose proof (in_fsize_le _ _ (in_combine_r _ _ _ _ Hin)). lia. }
  destruct self; destruct other; simpl; try reflexivity;
    try apply String.eqb_sym; try apply eqb_val_sym;
    rewrite ?(pyfunc_is_sym func func0),
            ?(Nat.eqb_sym (List.length args) (List.length args0)),
            ?(Nat.eqb_sym (List.length fields0) (List.length fields1));
    f_equal; apply Hargs; simpl; lia.
Qed.

(** Structural equality does not depend on the side asked. *)
Lemma equals_sym (self other : field) : _equals self other = _equals other self.
Proof.
  remember (fsize self + fsize other) as n eqn:Hn.
  revert self other Hn.
  induction n as [n IH] using lt_wf_ind. intros self other Hn.
  assert (Hsym : forall x y, fsize x + fsize y < n -> _equals x y = _equals y x)
    by (intros x y Hlt; apply (IH (fsize x + fsize y) Hlt); reflexivity).
  clear IH. subst n.
  destruct (is_alias self) eqn:Hs; destruct (is_alias other) eqn:Ho.
  - destruct self as [| | | | | | | |f1 n1]; try discriminate.
    destruct other as [| | | | | | | |f2 n2]; try discriminate.
    rewrite !equals_alias_self.
    rewrite (Hsym f1 (AliasField f2 n2)) by (simpl; lia).
    rewrite equals_alias_self.
    rewrite (Hsym f2 (AliasField f1 n1)) by (simpl; lia).
    rewrite equals_alias_self.
    apply Hsym. simpl. lia.
  - destruct self as [| | | | | | | |f1 n1]; try discriminate.
    symmetry. apply equals_alias_other. exact Ho.
  - destruct other as [| | | | | | | |f2 n2]; try discriminate.
    apply equals_alias_other. exact Hs.
  - rewrite !equals_direct by assumption.
    apply direct_equals_sym. exact Hsym.
Qed.

(** C6: an alias is transparent.  [F.AS(n)] with an identifier [n] builds
    the alias; the alias classifies as [F] does, and it is structurally
    equal to a field [G] exactly when [F] is, whichever side is asked. *)
Theorem alias_is_transparent (F : field) (n : string) :
  is_identifier n = true ->
  Field.AS F n = Ok (AliasField F n) /\
  _is_mapper (AliasField F n) = _is_mapper F /\
  _is_aggregator (AliasField F n) = _is_aggregator F /\
  (forall G : field, _equals (AliasField F n) G = _equals F G) /\
  (forall G : field, _equals G (AliasField F n) = _equals G F).
Proof.
  intros Hn. repeat split.
  - unfold Field.AS, AliasField.__init__. unfold is_identifier in Hn.
    destruct (re_match_ident n); [reflexivity | discriminate].
  - intros G. apply equals_alias_self.
  - intros G. rewrite (equals_sym G (AliasField F n)), (equals_sym G F).
    apply equals_alias_self.
Qed.

Lemma alias_is_transparent_witness :
  Field.AS (AttrField "x") "total" = Ok (AliasField (AttrField "x") "total") /\
  _equals (AttrField "x") (AliasField (AttrField "x") "total")
  = _equals (AttrField "x") (AttrField "x").
Proof.
  destruct (@alias_is_transparent (AttrField "x") "total" eq_refl)
    as [Hinit [_ [_ [_ Hright]]]].
  split; [exact Hinit | apply Hright].
Defined.

(* ------------------------------------------------------------------ *)
(** ** [SELECT] and flattening *)
(* ------------------------------------------------------------------ *)

Lemma to_fields_of_fields (fs : list field) : to_fields (map VField fs) = fs.
Proof.
  unfold to_fields. induction fs as [|f0 fs IH]; simpl; [reflexivity|].
  rewrite IH. reflexivity.
Qed.

Lemma flatten_single_rows (q : SelectQuery) (vs : list value) :
  flatten q = true ->
  SelectQuery._flatten q (gen_of_list (map (fun v => VTuple [v]) vs)) = gen_of_list vs.
Proof.
  intros Hq. unfold SelectQuery._flatten. rewrite Hq.
  induction vs as [|v vs IH]; simpl; [reflexivity|].
  rewrite IH. reflexivity.
Qed.

(** Projecting on one field and flattening yields the values of the
    field, one per record. *)
Lemma mapM_one {A B : Type} (g : A -> result B) (a : A) :
  mapM g [a] = (x <- g a ;; Ok [x]).
Proof. simpl. destruct (g a); reflexivity. Qed.

Lemma flatten_select_one `{Host} (q : SelectQuery) (F : field) (res : gen value) :
  flatten q = true ->
  SelectQuery._flatten q (SelectQuery._select [__call__ F] res) = gmap (__call__ F) res.
Proof.
  intros Hq. unfold SelectQuery._flatten, SelectQuery._select. rewrite Hq.
  induction res as [| e | r rest IH]; cbn [gmap]; try reflexivity.
  rewrite mapM_one.
  destruct (__call__ F r) as [v|e]; cbn [bind gmap]; [|reflexivity].
  rewrite IH. reflexivity.
Qed.

(** C5: [SELECT] follows the argument-shape table, and a flattened query
    delivers the sole element of each one-element row.  Executing a
    query built from one scalar field yields the field's values
    themselves. *)
Theorem select_projection_and_flatten `{Host} :
  (fields (SELECT []) = [IdentityField] /\ flatten (SELECT []) = true) /\
  (forall items : list value,
      fields (SELECT [VList items]) = to_fields items /\
      flatten (SELECT [VList items]) = false /\
      fields (SELECT [VTuple items]) = to_fields items /\
      flatten (SELECT [VTuple items]) = false) /\
  (forall fs : list field,
      fields (SELECT [VList (map VField fs)]) = fs /\
      fields (SELECT [VTuple (map VField fs)]) = fs) /\
  (forall v : value,
      seq_items v = None ->
      fields (SELECT [v]) = [to_field v] /\ flatten (SELECT [v]) = true) /\
  (forall F : field,
      fields (SELECT [VField F]) = [F] /\ flatten (SELECT [VField F]) = true) /\
  (forall (F G : field) (rest : list field),
      fields (SELECT (map VField (F :: G :: rest))) = F :: G :: rest /\
      flatten (SELECT (map VField (F :: G :: rest))) = false) /\
  (forall (q : SelectQuery) (vs : list value),
      flatten q = true ->
      SelectQuery._flatten q (gen_of_list (map (fun v => VTuple [v]) vs))
      = gen_of_list vs) /\
  (forall (q : SelectQuery) (res : gen value),
      flatten q = false -> SelectQuery._flatten q res = res) /\
  (forall (F : field) (objects : list value),
      _is_mapper F = true ->
      SelectQuery.__call__ (SELECT [VField F]) objects
      = Ok (mkSelectResult (gmap (__call__ F) (gen_of_list objects))
              (SELECT [VField F]))).
Proof.
  split; [split; reflexivity|].
  split; [intros items; repeat split|].
  split; [intros fs; split; simpl; apply to_fields_of_fields|].
  split; [intros v Hv; destruct v; try discriminate; split; reflexivity|].
  split; [intros F; split; reflexivity|].
  split; [intros F G rest; split; [|reflexivity]|].
  { simpl. do 2 f_equal. apply to_fields_of_fields. }
  split; [intros q vs Hq; apply flatten_single_rows; exact Hq|].
  split.
  - intros q res Hq. unfold SelectQuery._flatten. rewrite Hq. reflexivity.
  - intros F objects HF. unfold SelectQuery.__call__. simpl. rewrite HF. simpl.
    do 2 f_equal.
    unfold SelectQuery._where, SelectQuery._returning, SelectQuery._distinct. simpl.
    apply (flatten_select_one (SELECT [VField F]) F). reflexivity.
Qed.

Lemma select_projection_and_flatten_witness :
  fields (SELECT [VInt 7]) = [ConstantField (VInt 7)] /\
  SelectQuery._flatten (SELECT [])
    (gen_of_list (map (fun v => VTuple [v]) [VInt 1; VInt 2]))
  = gen_of_list [VInt 1; VInt 2] /\
  SelectQuery._flatten (SELECT [VList []]) (gen_of_list [VTuple [VInt 1]])
  = gen_of_list [VTuple [VInt 1]] /\
  SelectQuery.__call__ (SELECT [VField (KeyField (VInt 0))]) [VTuple [VInt 5; VInt 6]]
  = Ok (mkSelectResult (gen_of_list [VInt 5]) (SELECT [VField (KeyField (VInt 0))])).
Proof.
  destruct (@select_projection_and_flatten bare_host)
    as [_ [_ [_ [Hone [_ [_ [Hflat [Hkeep Hrun]]]]]]]].
  split; [|split; [|split]].
  - apply (Hone (VInt 7)). reflexivity.
  - apply Hflat. reflexivity.
  - apply Hkeep. reflexivity.
  - apply (Hrun (KeyField (VInt 0))). reflexivity.
Defined.

(* ------------------------------------------------------------------ *)
(** ** Sorting and grouping on totally ordered keys *)
(* ------------------------------------------------------------------ *)

Section SortGroup.
Variable A : Type.
Variable key : A -> value.
Variable KS : list value.
Hypothesis Htotal : totally_ordered KS = true.

Let le_key (a b : A) : Prop := ltb_val (key b) (key a) = false.

Lemma order_pair (a b : value) :
  In a KS -> In b KS ->
  (exists v, py_lt a b = Ok v /\ truthy v = ltb_val a b) /\
  eqb_val a b = negb (ltb_val a b) && negb (ltb_val b a) /\
  (ltb_val a b = true -> ltb_val b a = false).
Proof.
  intros Ha Hb. unfold totally_ordered in Htotal.
  rewrite forallb_forall in Htotal. specialize (Htotal a Ha).
  rewrite forallb_forall in Htotal. specialize (Htotal b Hb).
  repeat (apply andb_prop in Htotal; destruct Htotal as [Htotal ?]).
  split; [|split].
  - unfold lt_defined in Htotal. unfold ltb_val.
    destruct (py_lt a b) as [v|]; [|discriminate]. exists v. split; reflexivity.
  - apply Bool.eqb_prop. assumption.
  - intros Hab. rewrite Hab in *. simpl in *.
    destruct (ltb_val b a); [discriminate | reflexivity].
Qed.

Lemma order_trans (a b c : value) :
  In a KS -> In b KS -> In c KS ->
  ltb_val a b = true -> ltb_val b c = true -> ltb_val a c = true.
Proof.
  intros Ha Hb Hc Hab Hbc. unfold totally_ordered in Htotal.
  rewrite forallb_forall in Htotal. specialize (Htotal a Ha).
  rewrite forallb_forall in Htotal. specialize (Htotal b Hb).
  apply andb_prop in Htotal. destruct Htotal as [_ Htotal].
  rewrite forallb_forall in Htotal. specialize (Htotal c Hc).
  apply andb_prop in Htotal. destruct Htotal as [Htotal _].
  rewrite Hab, Hbc in Htotal. exact Htotal.
Qed.

Lemma order_negtrans (a b c : value) :
  In a KS -> In b KS -> In c KS ->
  ltb_val a b = false -> ltb_val b c = false -> ltb_val a c = false.
Proof.
  intros Ha Hb Hc Hab Hbc. unfold totally_ordered in Htotal.
  rewrite forallb_forall in Htotal. specialize (Htotal a Ha).
  rewrite forallb_forall in Htotal. specialize (Htotal b Hb).
  apply andb_prop in Htotal. destruct Htotal as [_ Htotal].
  rewrite forallb_forall in Htotal. specialize (Htotal c Hc).
  apply andb_prop in Htotal. destruct Htotal as [_ Htotal].
  rewrite Hab, Hbc in Htotal. simpl in Htotal.
  destruct (ltb_val a c); [discriminate | reflexivity].
Qed.

Lemma order_irrefl (a : value) : In a KS -> ltb_val a a = false.
Proof.
  intros Ha. destruct (order_pair a a Ha Ha) as [_ [_ Hasym]].
  destruct (ltb_val a a) eqn:E; [|reflexivity]. exact (Hasym eq_refl).
Qed.

Lemma order_eq_refl (a : value) : In a KS -> eqb_val a a = true.
Proof.
  intros Ha. destruct (order_pair a a Ha Ha) as [_ [Heq _]].
  rewrite Heq, (order_irrefl a Ha). reflexivity.
Qed.

Lemma order_eq_lt (a b : value) :
  In a KS -> In b KS -> eqb_val a b = true ->
  ltb_val a b = false /\ ltb_val b a = false.
Proof.
  intros Ha Hb Heq. destruct (order_pair a b Ha Hb) as [_ [Hc _]].
  rewrite Hc in Heq. apply andb_prop in Heq. destruct Heq as [H1 H2].
  destruct (ltb_val a b), (ltb_val b a); try discriminate. split; reflexivity.
Qed.

Lemma order_lt_neq (a b : value) :
  In a KS -> In b KS -> ltb_val a b = true -> eqb_val a b = false.
Proof.
  intros Ha Hb Hlt. destruct (order_pair a b Ha Hb) as [_ [Hc _]].
  rewrite Hc, Hlt. reflexivity.
Qed.

Lemma order_total (a b : value) :
  In a KS -> In b KS -> eqb_val a b = false -> ltb_val b a = false ->
  ltb_val a b = true.
Proof.
  intros Ha Hb Hne Hba. destruct (order_pair a b Ha Hb) as [_ [Hc _]].
  rewrite Hc, Hba in Hne. destruct (ltb_val a b); [reflexivity | discriminate].
Qed.

(** Two keys equal to a third are not strictly ordered. *)
Lemma order_eq_eq (k a b : value) :
  In k KS -> In a KS -> In b KS ->
  eqb_val k a = true -> eqb_val k b = true -> ltb_val a b = false.
Proof.
  intros Hk Ha Hb Hka Hkb.
  destruct (order_eq_lt k a Hk Ha Hka) as [_ Hak].
  destruct (order_eq_lt k b Hk Hb Hkb) as [Hkb' _].
  exact (order_negtrans a k b Ha Hk Hb Hak Hkb').
Qed.

Definition keyed (l : list A) : Prop := Forall (fun x => In (key x) KS) l.

Lemma insert_sorted_pure (x : A) (s : list A) :
  In (key x) KS -> keyed s -> insert_sorted key x s = Ok (insert_pure key x s).
Proof.
  intros Hx Hs. induction Hs as [|y s Hy Hs IH]; simpl; [reflexivity|].
  destruct (order_pair _ _ Hy Hx) as [[v [Hv Htv]] _].
  unfold py_lt in *. rewrite Hv. simpl. rewrite Htv.
  destruct (ltb_val (key y) (key x)); [|reflexivity].
  rewrite IH. reflexivity.
Qed.

Lemma insert_pure_perm (x : A) (s : list A) :
  Permutation (insert_pure key x s) (x :: s).
Proof.
  induction s as [|y s IH]; simpl; [apply Permutation_refl|].
  destruct (ltb_val (key y) (key x)); [|apply Permutation_refl].
  eapply Permutation_trans; [apply perm_skip, IH | apply perm_swap].
Qed.

Lemma isort_perm (l : list A) : Permutation (isort key l) l.
Proof.
  induction l as [|x l IH]; simpl; [apply Permutation_refl|].
  eapply Permutation_trans; [apply insert_pure_perm | apply perm_skip, IH].
Qed.

Lemma keyed_perm (l l' : list A) : Permutation l l' -> keyed l -> keyed l'.
Proof. intros Hp Hk. unfold keyed. eapply Permutation_Forall; eassumption. Qed.

Lemma keyed_isort (l : list A) : keyed l -> keyed (isort key l).
Proof. intros Hk. eapply keyed_perm; [apply Permutation_sym, isort_perm | exact Hk]. Qed.

(** On totally ordered keys every comparison of [sorted] answers and
    the result is the insertion sort by [<]. *)
Lemma sorted_pure (l : list A) : keyed l -> sorted key l = Ok (isort key l).
Proof.
  intros Hl. induction Hl as [|x l Hx Hl IH]; simpl; [reflexivity|].
  rewrite IH. simpl. apply insert_sorted_pure; [exact Hx | apply keyed_isort, Hl].
Qed.

Lemma insert_pure_sorted (x : A) (s : list A) :
  In (key x) KS -> keyed s ->
  StronglySorted le_key s -> StronglySorted le_key (insert_pure key x s).
Proof.
  intros Hx Hs Hss. induction Hss as [|y s Hss IH Hall]; simpl.
  - constructor; constructor.
  - inversion Hs as [|? ? Hy Hs']; subst.
    destruct (ltb_val (key y) (key x)) eqn:Hyx.
    + constructor; [apply IH; exact Hs'|].
      eapply Permutation_Forall; [apply Permutation_sym, insert_pure_perm|].
      constructor; [|exact Hall].
      unfold le_key. destruct (order_pair _ _ Hy Hx) as [_ [_ Hasym]]. auto.
    + constructor; [constructor; assumption|].
      constructor; [exact Hyx|].
      rewrite Forall_forall in Hall, Hs' |- *. intros z Hz.
      unfold le_key in *.
      exact (order_negtrans _ _ _ (Hs' z Hz) Hy Hx (Hall z Hz) Hyx).
Qed.

Lemma isort_sorted (l : list A) : keyed l -> StronglySorted le_key (isort key l).
Proof.
  intros Hl. induction Hl as [|x l Hx Hl IH]; simpl; [constructor|].
  apply insert_pure_sorted; [exact Hx | apply keyed_isort, Hl | exact IH].
Qed.

(** The sort is stable: the items with a given key keep their order. *)
Lemma insert_pure_filter (K : value) (x : A) (s : list A) :
  In K KS -> In (key x) KS -> keyed s ->
  filter (fun p => eqb_val K (key p)) (insert_pure key x s)
  = filter (fun p => eqb_val K (key p)) (x :: s).
Proof.
  intros HK Hx Hs. induction Hs as [|y s Hy Hs IH]; [reflexivity|].
  cbn [insert_pure].
  destruct (ltb_val (key y) (key x)) eqn:Hyx; [|reflexivity].
  cbn [filter]. rewrite IH. cbn [filter].
  destruct (eqb_val K (key y)) eqn:Ey; destruct (eqb_val K (key x)) eqn:Ex;
    try reflexivity.
  rewrite (order_eq_eq _ _ _ HK Hy Hx Ey Ex) in Hyx. discriminate.
Qed.

Lemma isort_filter (K : value) (l : list A) :
  In K KS -> keyed l ->
  filter (fun p => eqb_val K (key p)) (isort key l)
  = filter (fun p => eqb_val K (key p)) l.
Proof.
  intros HK Hl. induction Hl as [|x l Hx Hl IH]; [reflexivity|].
  cbn [isort]. rewrite insert_pure_filter by (auto using keyed_isort).
  cbn [filter]. rewrite IH. reflexivity.
Qed.

End SortGroup.

Section GroupRuns.
Variable A : Type.
Variable key : A -> value.
Variable KS : list value.
Hypothesis Htotal : totally_ordered KS = true.

Let eqk (K : value) (p : A) : bool := eqb_val K (key p).

(** What [groupby_from] returns on a sorted list whose items are not
    below the target key: the items equal to the target, then one group
    per further key, in strictly ascending order, each holding all the
    items with its key. *)
Lemma groupby_from_sorted (rest : list A) :
  forall tgt : value,
    In tgt KS -> keyed A key KS rest ->
    StronglySorted (fun a b => ltb_val (key b) (key a) = false) rest ->
    Forall (fun p => ltb_val (key p) tgt = false) rest ->
    forall g gs, groupby_from key tgt rest = (g, gs) ->
      g = filter (eqk tgt) rest /\
      Forall (fun kg => ltb_val tgt (fst kg) = true) gs /\
      StronglySorted (fun a b => ltb_val a b = true) (map fst gs) /\
      Forall (fun kg => In (fst kg) KS /\ snd kg <> [] /\
                        snd kg = filter (eqk (fst kg)) rest) gs /\
      Forall (fun x => eqk tgt x = true \/
                       Exists (fun kg => eqk (fst kg) x = true) gs) rest.
Proof.
  induction rest as [|x rest IH]; intros tgt Htgt Hkeyed Hsorted Hlow g gs Hg.
  - simpl in Hg. injection Hg as <- <-. repeat split; constructor.
  - unfold keyed in Hkeyed, IH.
    inversion Hkeyed as [|? ? Hx Hkeyed']; subst.
    inversion Hsorted as [|? ? Hsorted' Hhead]; subst.
    inversion Hlow as [|? ? Hxlow Hlow']; subst.
    cbn [groupby_from] in Hg. unfold eqk. cbn [filter].
    destruct (eqb_val tgt (key x)) eqn:Etx.
    + destruct (groupby_from key tgt rest) as [g' gs'] eqn:Hrec.
      injection Hg as <- <-.
      destruct (IH tgt Htgt Hkeyed' Hsorted' Hlow' g' gs' Hrec)
        as [Hg' [Hgt [Hasc [Hgroups Hcover]]]].
      split; [f_equal; exact Hg'|].
      split; [exact Hgt|]. split; [exact Hasc|]. split.
      * rewrite Forall_forall in Hgroups, Hgt |- *. intros kg Hkg.
        destruct (Hgroups kg Hkg) as [HK [Hne Hfil]].
        split; [exact HK|]. split; [exact Hne|].
        cbn [filter].
        destruct (eqb_val (fst kg) (key x)) eqn:Ekx; [|exact Hfil].
        exfalso.
        destruct (order_eq_lt KS Htotal _ _ Htgt Hx Etx) as [Htx _].
        destruct (order_eq_lt KS Htotal _ _ HK Hx Ekx) as [_ HxK].
        pose proof (order_negtrans KS Htotal _ _ _ Htgt Hx HK Htx HxK) as Hc.
        rewrite (Hgt kg Hkg) in Hc. discriminate.
      * constructor; [left; exact Etx | exact Hcover].
    + destruct (groupby_from key (key x) rest) as [g' gs'] eqn:Hrec.
      injection Hg as <- <-.
      destruct (IH (key x) Hx Hkeyed' Hsorted' Hhead g' gs' Hrec)
        as [Hg' [Hgt [Hasc [Hgroups Hcover]]]].
      assert (Htx : ltb_val tgt (key x) = true)
        by (apply (order_total KS Htotal); assumption).
      split; [|split; [|split; [|split]]].
      * (* nothing later equals the target *)
        symmetry.
        assert (Hnone : forall p, In p rest -> eqk tgt p = false).
        { intros p Hp. unfold eqk.
          destruct (eqb_val tgt (key p)) eqn:Etp; [|reflexivity]. exfalso.
          rewrite Forall_forall in Hhead, Hkeyed'.
          destruct (order_eq_lt KS Htotal _ _ Htgt (Hkeyed' p Hp) Etp) as [Htp _].
          pose proof (order_negtrans KS Htotal _ _ _ Htgt (Hkeyed' p Hp) Hx
                        Htp (Hhead p Hp)) as Hc.
          rewrite Htx in Hc. discriminate. }
        unfold eqk in Hnone. clear - Hnone.
        induction rest as [|p rest IHr]; [reflexivity|].
        cbn [filter]. rewrite (Hnone p (or_introl eq_refl)).
        apply IHr. intros q Hq. apply Hnone. right. exact Hq.
      * constructor; [exact Htx|].
        rewrite Forall_forall in Hgt, Hgroups |- *. intros kg Hkg.
        destruct (Hgroups kg Hkg) as [HK _].
        exact (order_trans KS Htotal _ _ _ Htgt Hx HK Htx (Hgt kg Hkg)).
      * cbn [map fst]. constructor; [exact Hasc|].
        rewrite Forall_forall in Hgt |- *. intros k Hk.
        apply in_map_iff in Hk. destruct Hk as [kg [<- Hkg]]. exact (Hgt kg Hkg).
      * constructor.
        -- cbn [fst snd]. split; [exact Hx|]. split; [discriminate|].
           cbn [filter].
           rewrite (order_eq_refl KS Htotal _ Hx). f_equal. exact Hg'.
        -- rewrite Forall_forall in Hgroups, Hgt |- *. intros kg Hkg.
           destruct (Hgroups kg Hkg) as [HK [Hne Hfil]].
           split; [exact HK|]. split; [exact Hne|].
           cbn [filter].
           pose proof (order_lt_neq KS Htotal _ _ Hx HK (Hgt kg Hkg)) as Hn.
           rewrite eqb_val_sym in Hn. rewrite Hn. exact Hfil.
      * constructor.
        -- right. constructor. cbn [fst]. unfold eqk.
           apply (order_eq_refl KS Htotal _ Hx).
        -- rewrite Forall_forall in Hcover |- *. intros p Hp.
           right. destruct (Hcover p Hp) as [He|He].
           ++ constructor. exact He.
           ++ apply Exists_cons_tl. exact He.
Qed.

End GroupRuns.

Section GroupSorted.
Variable A : Type.
Variable key : A -> value.
Variable KS : list value.
Hypothesis Htotal : totally_ordered KS = true.

(** [groupby] on a sorted list: the keys come out strictly ascending and
    each group holds all the items with its key. *)
Lemma groupby_sorted (s : list A) :
  keyed A key KS s ->
  StronglySorted (fun a b => ltb_val (key b) (key a) = false) s ->
  StronglySorted (fun a b => ltb_val a b = true) (map fst (groupby key s)) /\
  Forall (fun kg => In (fst kg) KS /\ snd kg <> [] /\
                    snd kg = filter (fun p => eqb_val (fst kg) (key p)) s)
         (groupby key s) /\
  Forall (fun x => Exists (fun kg => eqb_val (fst kg) (key x) = true) (groupby key s)) s.
Proof.
  intros Hkeyed Hsorted. destruct s as [|x rest].
  - simpl. repeat split; constructor.
  - unfold keyed in Hkeyed.
    inversion Hkeyed as [|? ? Hx Hkeyed']; subst.
    inversion Hsorted as [|? ? Hsorted' Hhead]; subst.
    cbn [groupby].
    destruct (groupby_from key (key x) rest) as [g gs] eqn:Hrec.
    destruct (groupby_from_sorted A key KS Htotal rest (key x) Hx Hkeyed'
                Hsorted' Hhead g gs Hrec)
      as [Hg [Hgt [Hasc [Hgroups Hcover]]]].
    split; [|split].
    + cbn [map fst]. constructor; [exact Hasc|].
      rewrite Forall_forall in Hgt |- *. intros k Hk.
      apply in_map_iff in Hk. destruct Hk as [kg [<- Hkg]]. exact (Hgt kg Hkg).
    + constructor.
      * cbn [fst snd]. split; [exact Hx|]. split; [discriminate|].
        cbn [filter]. rewrite (order_eq_refl KS Htotal _ Hx). f_equal. exact Hg.
      * rewrite Forall_forall in Hgroups, Hgt |- *. intros kg Hkg.
        destruct (Hgroups kg Hkg) as [HK [Hne Hfil]].
        split; [exact HK|]. split; [exact Hne|].
        cbn [filter].
        pose proof (order_lt_neq KS Htotal _ _ Hx HK (Hgt kg Hkg)) as Hn.
        rewrite eqb_val_sym in Hn. rewrite Hn. exact Hfil.
    + constructor.
      * constructor. cbn [fst]. apply (order_eq_refl KS Htotal _ Hx).
      * rewrite Forall_forall in Hcover |- *. intros p Hp.
        destruct (Hcover p Hp) as [He|He].
        -- constructor. exact He.
        -- apply Exists_cons_tl. exact He.
Qed.

(** Sorting, then grouping: the groups of a list with totally ordered
    keys. *)
Lemma sorted_then_groupby (l : list A) :
  keyed A key KS l ->
  exists s : list A,
    sorted key l = Ok s /\
    StronglySorted (fun a b => ltb_val a b = true) (map fst (groupby key s)) /\
    Forall (fun kg => In (fst kg) KS /\ snd kg <> [] /\
                      snd kg = filter (fun p => eqb_val (fst kg) (key p)) l)
           (groupby key s) /\
    Forall (fun x => Exists (fun kg => eqb_val (fst kg) (key x) = true) (groupby key s)) l.
Proof.
  intros Hl. exists (isort key l).
  split; [apply (sorted_pure A key KS Htotal l Hl)|].
  destruct (groupby_sorted (isort key l) (keyed_isort A key KS l Hl)
              (isort_sorted A key KS Htotal l Hl)) as [Hasc [Hgroups Hcover]].
  split; [exact Hasc|]. split.
  - rewrite Forall_forall in Hgroups |- *. intros kg Hkg.
    destruct (Hgroups kg Hkg) as [HK [Hne Hfil]].
    split; [exact HK|]. split; [exact Hne|].
    rewrite Hfil. apply (isort_filter A key KS Htotal _ l HK Hl).
  - eapply Permutation_Forall; [apply isort_perm | exact Hcover].
Qed.

Lemma ascending_distinct (ks : list value) :
  Forall (fun k => In k KS) ks ->
  StronglySorted (fun a b => ltb_val a b = true) ks -> distinct_keys ks.
Proof.
  intros Hin Hs. unfold distinct_keys.
  induction Hs as [|k ks Hs IH Hall]; [constructor|].
  inversion Hin as [|? ? Hk Hin']; subst.
  constructor; [|apply IH; exact Hin'].
  rewrite Forall_forall in Hall, Hin' |- *. intros b Hb.
  apply (order_lt_neq KS Htotal _ _ Hk (Hin' b Hb) (Hall b Hb)).
Qed.

End GroupSorted.

(* ------------------------------------------------------------------ *)
(** ** The grouped branch of the executor *)
(* ------------------------------------------------------------------ *)

Lemma mapM_ext_in {A B : Type} (g h : A -> result B) (l : list A) :
  (forall x, In x l -> g x = h x) -> mapM g l = mapM h l.
Proof.
  induction l as [|x l IH]; intros Hgh; [reflexivity|].
  cbn [mapM]. rewrite (Hgh x (or_introl eq_refl)).
  destruct (h x); [|reflexivity]. cbn [bind].
  change ((fix go (l0 : list A) : result (list B) :=
             match l0 with
             | [] => Ok []
             | x0 :: l' => y <- g x0 ;; ys <- go l' ;; Ok (y :: ys)
             end) l) with (mapM g l).
  rewrite IH by (intros z Hz; apply Hgh; right; exact Hz). reflexivity.
Qed.

Lemma mapM_cons {A B : Type} (g : A -> result B) (x : A) (l : list A) :
  mapM g (x :: l) = (y <- g x ;; ys <- mapM g l ;; Ok (y :: ys)).
Proof. reflexivity. Qed.

Lemma mapM_map {A B C : Type} (g : B -> result C) (h : A -> B) (l : list A) :
  mapM g (map h l) = mapM (fun x => g (h x)) l.
Proof.
  induction l as [|x l IH]; [reflexivity|].
  cbn [map]. rewrite !mapM_cons, IH. reflexivity.
Qed.

Lemma mapM_length {A B : Type} (g : A -> result B) (l : list A) (l' : list B) :
  mapM g l = Ok l' -> List.length l' = List.length l.
Proof.
  revert l'. induction l as [|x l IH]; intros l' Hm.
  - injection Hm as <-. reflexivity.
  - rewrite mapM_cons in Hm. destruct (g x); [|discriminate]. cbn [bind] in Hm.
    destruct (mapM g l) as [ys|]; [|discriminate]. cbn [bind] in Hm.
    injection Hm as <-. simpl. f_equal. apply IH. reflexivity.
Qed.

Lemma mapM_in {A B : Type} (g : A -> result B) (l : list A) (l' : list B) :
  mapM g l = Ok l' -> forall y, In y l' -> exists x, In x l /\ g x = Ok y.
Proof.
  revert l'. induction l as [|x l IH]; intros l' Hm y Hy.
  - injection Hm as <-. destruct Hy.
  - rewrite mapM_cons in Hm. destruct (g x) as [b|] eqn:Hgx; [|discriminate].
    cbn [bind] in Hm.
    destruct (mapM g l) as [ys|]; [|discriminate]. cbn [bind] in Hm.
    injection Hm as <-. destruct Hy as [<-|Hy].
    + exists x. split; [left; reflexivity | exact Hgx].
    + destruct (IH ys eq_refl y Hy) as [x' [Hx' Hg']].
      exists x'. split; [right; exact Hx' | exact Hg'].
Qed.

Lemma list_of_gen_gmap {A B : Type} (g : A -> result B) (l : list A) :
  list_of_gen (gmap g (gen_of_list l)) = mapM g l.
Proof.
  induction l as [|x l IH]; [reflexivity|].
  rewrite mapM_cons. cbn [gen_of_list gmap].
  destruct (g x); [|reflexivity]. cbn [list_of_gen bind]. rewrite IH. reflexivity.
Qed.

Lemma list_of_gen_of_list {A : Type} (l : list A) : list_of_gen (gen_of_list l) = Ok l.
Proof. induction l as [|x l IH]; [reflexivity|]. simpl. rewrite IH. reflexivity. Qed.

Lemma gmap_map {A B C : Type} (g : B -> result C) (h : A -> B) (l : list A) :
  gmap g (gen_of_list (map h l)) = gmap (fun x => g (h x)) (gen_of_list l).
Proof.
  induction l as [|x l IH]; [reflexivity|].
  cbn [map gen_of_list gmap]. rewrite IH. reflexivity.
Qed.

Lemma gmap_ext_in {A B : Type} (g h : A -> result B) (l : list A) :
  (forall x, In x l -> g x = h x) ->
  gmap g (gen_of_list l) = gmap h (gen_of_list l).
Proof.
  induction l as [|x l IH]; intros Hgh; [reflexivity|].
  cbn [gen_of_list gmap]. rewrite (Hgh x (or_introl eq_refl)).
  rewrite IH by (intros z Hz; apply Hgh; right; exact Hz). reflexivity.
Qed.

Lemma field_index_lt (needle : field) (haystack : list field) (idx : nat) :
  field_index needle haystack = Some idx -> idx < List.length haystack.
Proof.
  unfold field_index.
  assert (Hgo : forall l i,
             (fix go (i : nat) (l : list field) {struct l} : option nat :=
                match l with
                | [] => None
                | candidate_field :: l' =>
                    if _equals needle candidate_field then Some i else go (S i) l'
                end) i l = Some idx -> idx < i + List.length l).
  { induction l as [|c l IH]; intros i Hi; [discriminate|].
    destruct (_equals needle c).
    - injection Hi as <-. simpl. lia.
    - apply IH in Hi. simpl. lia. }
  intros Hi. apply (Hgo haystack 0 Hi).
Qed.

Lemma getitem_tuple (ks : list value) (idx : nat) :
  idx < List.length ks ->
  py_getitem (VTuple ks) (VInt (Z.of_nat idx)) = Ok (nth idx ks VNone).
Proof.
  intros Hidx. unfold py_getitem, index_seq. cbn [as_int].
  replace (Z.ltb (Z.of_nat idx) 0) with false by (symmetry; apply Z.ltb_ge; lia).
  replace (Z.ltb (Z.of_nat idx) 0) with false by (symmetry; apply Z.ltb_ge; lia).
  rewrite Nat2Z.id.
  destruct (nth_error ks idx) as [v|] eqn:Hn.
  - f_equal. symmetry. apply nth_error_nth. exact Hn.
  - apply nth_error_None in Hn. lia.
Qed.

(** The keys of a grouped query are tuples with one item per GROUP BY
    field. *)
Lemma group_key_shape `{Host} (gb : list field) (recs keys : list value) :
  mapM (group_key gb) recs = Ok keys ->
  forall K, In K keys ->
            exists ks, K = VTuple ks /\ List.length ks = List.length gb.
Proof.
  intros Hm K HK.
  destruct (mapM_in _ _ _ Hm K HK) as [r [_ Hr]].
  unfold group_key in Hr.
  destruct (mapM (fun g => __call__ g r) gb) as [vs|] eqn:Hvs; [|discriminate].
  injection Hr as <-. exists vs. split; [reflexivity|].
  apply (mapM_length _ _ _ Hvs).
Qed.

(** [_make_group_by_field] computes the row value the specification
    describes. *)
Lemma make_group_by_field_row_value `{Host} (q : SelectQuery) (gb : list field)
    (ks : list value) (G : list value) (select_field : field) :
  group_by q = Some gb -> List.length ks = List.length gb ->
  SelectQuery._make_group_by_field q select_field
    (mkKeyValuePair (VTuple ks) (VList G))
  = row_value gb (VTuple ks) G select_field.
Proof.
  intros Hgb Hlen. unfold SelectQuery._make_group_by_field, row_value. rewrite Hgb.
  destruct (field_index select_field gb) as [idx|] eqn:Hidx; [|reflexivity].
  apply field_index_lt in Hidx. cbn [KeyValuePair.key _key tuple_items].
  apply getitem_tuple. lia.
Qed.

Lemma in_combine_left {A B : Type} (l : list A) (l' : list B) (a : A) :
  List.length l = List.length l' -> In a l -> exists b, In (a, b) (combine l l').
Proof.
  revert l'. induction l as [|x l IH]; intros [|y l'] Hlen Ha;
    try discriminate; [destruct Ha|].
  destruct Ha as [<-|Ha].
  - exists y. left. reflexivity.
  - destruct (IH l' (eq_add_S _ _ Hlen) Ha) as [b Hb]. exists b. right. exact Hb.
Qed.

Lemma records_with_key_pairs (K : value) (keys recs : list value) :
  map KeyValuePair.value
    (filter (fun p => eqb_val K (KeyValuePair.key p))
       (map (fun kv => mkKeyValuePair (fst kv) (snd kv)) (combine keys recs)))
  = records_with_key K keys recs.
Proof.
  unfold records_with_key.
  induction (combine keys recs) as [|kv l IH]; [reflexivity|].
  cbn [map filter KeyValuePair.key _key].
  destruct (eqb_val K (fst kv)); cbn [map KeyValuePair.value _value];
    rewrite IH; reflexivity.
Qed.

(** The keys [_group] computes for the records. *)
Lemma group_keys_computed `{Host} (gb : list field) (recs : list value) :
  list_of_gen (SelectQuery._select (map __call__ gb) (gen_of_list recs))
  = mapM (group_key gb) recs.
Proof.
  unfold SelectQuery._select. rewrite list_of_gen_gmap.
  apply mapM_ext_in. intros r _. unfold group_key.
  rewrite mapM_map. reflexivity.
Qed.

(** C3, as amended: on keys that [<] orders totally, a grouped query
    materializes the filtered records, computes the tuple of GROUP BY
    values of each, and emits one row per distinct key, in ascending key
    order.  The group of key K holds the records with that key in input
    order, and the i-th value of its row is K[idx] when projection field
    i is structurally equal to GROUP BY field idx (the first such), and
    otherwise projection field i called on the group's records. *)
Theorem group_by_one_row_per_key `{Host} (q : SelectQuery) (gb : list field)
    (objects recs keys : list value) :
  group_by q = Some gb ->
  list_of_gen (SelectQuery._where q (gen_of_list objects)) = Ok recs ->
  mapM (group_key gb) recs = Ok keys ->
  totally_ordered keys = true ->
  exists groups : list (value * list value),
    group_keys q (SelectQuery._where q (gen_of_list objects)) = Ok (map fst groups) /\
    grouped_rows q (SelectQuery._where q (gen_of_list objects))
    = gmap (row_of q gb) (gen_of_list groups) /\
    SelectQuery.__call__ q objects
    = Ok (mkSelectResult
            (SelectQuery._returning q
               (SelectQuery._distinct q
                  (SelectQuery._flatten q
                     (gmap (row_of q gb) (gen_of_list groups))))) q) /\
    StronglySorted (fun a b => ltb_val a b = true) (map fst groups) /\
    distinct_keys (map fst groups) /\
    Forall (fun kg => In (fst kg) keys /\ snd kg <> [] /\
                      snd kg = records_with_key (fst kg) keys recs) groups /\
    Forall (fun k => Exists (fun kg => eqb_val (fst kg) k = true) groups) keys.
Proof.
  intros Hgb Hrecs Hkeys Htotal.
  set (res := SelectQuery._where q (gen_of_list objects)) in *.
  set (pairs := map (fun kv => mkKeyValuePair (fst kv) (snd kv)) (combine keys recs)).
  assert (Hkeyed : keyed KeyValuePair KeyValuePair.key keys pairs).
  { unfold keyed. apply Forall_forall. intros p Hp.
    apply in_map_iff in Hp. destruct Hp as [[k r] [<- Hkr]].
    apply in_combine_l in Hkr. exact Hkr. }
  destruct (sorted_then_groupby KeyValuePair KeyValuePair.key keys Htotal pairs Hkeyed)
    as [s [Hsorted [Hasc [Hgroups Hcover]]]].
  set (gkv := groupby KeyValuePair.key s) in *.
  set (toGroup := fun kg : value * list KeyValuePair =>
                    (fst kg, map KeyValuePair.value (snd kg))).
  assert (Hgroup : SelectQuery._group q res
                   = gen_of_list
                       (map (fun kg => mkKeyValuePair (fst kg)
                                         (VList (map KeyValuePair.value (snd kg)))) gkv)).
  { unfold SelectQuery._group. rewrite Hrecs. cbn [bind]. rewrite Hgb.
    rewrite group_keys_computed, Hkeys. cbn [bind].
    fold pairs. rewrite Hsorted. reflexivity. }
  assert (Hrows : grouped_rows q res = gmap (row_of q gb) (gen_of_list (map toGroup gkv))).
  { unfold grouped_rows. rewrite Hgroup. unfold SelectQuery._select.
    rewrite !gmap_map. apply gmap_ext_in. intros kg Hkg.
    rewrite Forall_forall in Hgroups. destruct (Hgroups kg Hkg) as [HK _].
    destruct (group_key_shape gb recs keys Hkeys _ HK) as [ks [HKs Hlen]].
    unfold row_of, toGroup. cbn [fst snd]. rewrite HKs.
    rewrite mapM_map. f_equal.
    apply mapM_ext_in. intros sf _.
    apply make_group_by_field_row_value; assumption. }
  assert (Hfst : map fst (map toGroup gkv) = map fst gkv).
  { rewrite map_map. reflexivity. }
  exists (map toGroup gkv).
  split; [|split; [|split; [|split; [|split; [|split]]]]].
  - unfold group_keys. rewrite Hgroup, list_of_gen_of_list. cbn [bind].
    rewrite !map_map. reflexivity.
  - exact Hrows.
  - unfold SelectQuery.__call__. fold res. rewrite Hgb. cbn [bind].
    fold (grouped_rows q res). rewrite Hrows. reflexivity.
  - rewrite Hfst. exact Hasc.
  - rewrite Hfst. apply (ascending_distinct keys Htotal); [|exact Hasc].
    apply Forall_forall. intros k Hk. apply in_map_iff in Hk.
    destruct Hk as [kg [<- Hkg]].
    rewrite Forall_forall in Hgroups. apply (Hgroups kg Hkg).
  - apply Forall_forall. intros g Hg. apply in_map_iff in Hg.
    destruct Hg as [kg [<- Hkg]].
    rewrite Forall_forall in Hgroups. destruct (Hgroups kg Hkg) as [HK [Hne Hfil]].
    unfold toGroup. cbn [fst snd]. split; [exact HK|]. split.
    + destruct (snd kg); [congruence | discriminate].
    + rewrite Hfil. apply records_with_key_pairs.
  - apply Forall_forall. intros k Hk.
    destruct (in_combine_left keys recs k
                (mapM_length _ _ _ Hkeys) Hk) as [r Hkr].
    rewrite Forall_forall in Hcover.
    specialize (Hcover (mkKeyValuePair k r)).
    assert (Hin : In (mkKeyValuePair k r) pairs).
    { unfold pairs. apply in_map_iff. exists (k, r). split; [reflexivity | exact Hkr]. }
    specialize (Hcover Hin). cbn [KeyValuePair.key _key] in Hcover.
    apply Exists_exists in Hcover. destruct Hcover as [kg [Hkg He]].
    apply Exists_exists. exists (toGroup kg). split; [|exact He].
    apply in_map. exact Hkg.
Qed.

Lemma group_by_one_row_per_key_witness :
  group_by sum_y_by_x = Some [AttrField "x"] /\
  totally_ordered [VTuple [VInt 2]; VTuple [VInt 1]; VTuple [VInt 2]] = true /\
  exists groups : list (value * list value),
    group_keys sum_y_by_x (SelectQuery._where sum_y_by_x (gen_of_list three_points))
    = Ok (map fst groups) /\
    grouped_rows sum_y_by_x (SelectQuery._where sum_y_by_x (gen_of_list three_points))
    = gmap (row_of sum_y_by_x [AttrField "x"]) (gen_of_list groups) /\
    SelectQuery.__call__ sum_y_by_x three_points
    = Ok (mkSelectResult
            (SelectQuery._returning sum_y_by_x
               (SelectQuery._distinct sum_y_by_x
                  (SelectQuery._flatten sum_y_by_x
                     (gmap (row_of sum_y_by_x [AttrField "x"]) (gen_of_list groups)))))
            sum_y_by_x) /\
    StronglySorted (fun a b => ltb_val a b = true) (map fst groups) /\
    distinct_keys (map fst groups) /\
    Forall (fun kg => In (fst kg) [VTuple [VInt 2]; VTuple [VInt 1]; VTuple [VInt 2]] /\
                      snd kg <> [] /\
                      snd kg = records_with_key (fst kg)
                                 [VTuple [VInt 2]; VTuple [VInt 1]; VTuple [VInt 2]]
                                 three_points) groups /\
    Forall (fun k => Exists (fun kg => eqb_val (fst kg) k = true) groups)
           [VTuple [VInt 2]; VTuple [VInt 1]; VTuple [VInt 2]].
Proof.
  split; [reflexivity|]. split; [reflexivity|].
  apply (@group_by_one_row_per_key bare_host sum_y_by_x [AttrField "x"]
           three_points three_points
           [VTuple [VInt 2]; VTuple [VInt 1]; VTuple [VInt 2]]);
    reflexivity.
Defined.

(** The rows of the sample: one per key, keys ascending, sums per group. *)
Example sum_y_by_x_rows :
  (r <- SelectQuery.__call__ sum_y_by_x three_points ;; SelectResult.list r)
  = Ok [VTuple [VInt 1; VInt 5]; VTuple [VInt 2; VInt 11]].
Proof. reflexivity. Qed.

(** C3, as stated, fails where [<] does not order the keys totally: sets
    are ordered by inclusion, the sort leaves [{1}, {2}, {1}] as it is,
    and the key [{1}] gets two rows. *)
Lemma group_by_sets_repeats_key :
  (r <- SelectQuery.__call__ by_tags three_tagged ;; SelectResult.list r)
  = Ok [VTuple [VSet [1%Z]]; VTuple [VSet [2%Z]]; VTuple [VSet [1%Z]]] /\
  ~ one_row_per_distinct_key by_tags three_tagged.
Proof.
  split; [reflexivity|].
  intros [ks [Hks Hdistinct]].
  vm_compute in Hks. injection Hks as <-.
  unfold distinct_keys in Hdistinct.
  inversion Hdistinct as [|a l Hall _]; subst.
  inversion Hall as [|b l' _ Hrest]; subst.
  inversion Hrest as [|c l'' Hc _]; subst.
  vm_compute in Hc. discriminate.
Qed.

(* ------------------------------------------------------------------ *)
(** ** The parser *)
(* ------------------------------------------------------------------ *)

(** The doctests of parser.py, on the model. *)
Example parse_precedence :
  (q <- parse "select o.x where o.x == 0 and o.y == 0 or o.a == 0 and o.b == 0" ;;
   SelectQuery.__str__ q)
  = Ok ("SELECT o.x" ++ nl
        ++ "WHERE (((o.x == 0) AND (o.y == 0)) OR ((o.a == 0) AND (o.b == 0)))").
Proof. vm_compute. reflexivity. Qed.

Example parse_power :
  (q <- parse "select o.x * o.y ** o.z where (o.x * o.y) > 5" ;; SelectQuery.__str__ q)
  = Ok ("SELECT (o.x * (o.y ** o.z))" ++ nl ++ "WHERE ((o.x * o.y) > 5)").
Proof. vm_compute. reflexivity. Qed.

Example parse_group_by :
  (q <- parse ("SELECT o.x, sum(o.y)" ++ nl ++ "GROUP BY o.x") ;; SelectQuery.__str__ q)
  = Ok ("SELECT o.x, sum(o.y)" ++ nl ++ "GROUP BY o.x,").
Proof. vm_compute. reflexivity. Qed.

(** C4, at failing inputs: the printed form of a parsed query does not
    always parse back to a structurally equal query.  A unary operator is
    printed without parentheses of its own, so [(NOT o.x) == 1] comes back
    as [NOT (o.x == 1)]; a one-item IN list is printed without its comma
    and is rejected; a string holding a quote is printed in double quotes,
    which the lexer rejects. *)
Theorem round_trip_fails_on_unary_operand :
  parse "SELECT (NOT o.x) == 1" = Ok eq_of_not /\
  SelectQuery.__str__ eq_of_not = Ok "SELECT (NOT o.x == 1)" /\
  parse "SELECT (NOT o.x == 1)" = Ok not_of_eq /\
  query_equals not_of_eq eq_of_not = false /\
  ~ round_trip "SELECT (NOT o.x) == 1" /\
  ~ round_trip "SELECT o.x WHERE o.x IN o.y," /\
  ~ round_trip "SELECT 'a\'b'".
Proof.
  split; [vm_compute; reflexivity|].
  split; [vm_compute; reflexivity|].
  split; [vm_compute; reflexivity|].
  split; [vm_compute; reflexivity|].
  split; [|split].
  - intros Hrt.
    assert (Hp : parse "SELECT (NOT o.x) == 1" = Ok eq_of_not) by (vm_compute; reflexivity).
    destruct (Hrt _ Hp) as [printed [q' [Hprinted [Hq' Heq]]]].
    vm_compute in Hprinted. injection Hprinted as <-.
    vm_compute in Hq'. injection Hq' as <-.
    vm_compute in Heq. discriminate.
  - intros Hrt.
    assert (Hp : parse "SELECT o.x WHERE o.x IN o.y,"
                 = Ok (mkSelectQuery [AttrField "x"] true false
                         (Some (Field.IN (AttrField "x") [VField (AttrField "y")]))
                         None None)) by (vm_compute; reflexivity).
    destruct (Hrt _ Hp) as [printed [q' [Hprinted [Hq' _]]]].
    vm_compute in Hprinted. injection Hprinted as <-.
    vm_compute in Hq'. discriminate.
  - intros Hrt.
    assert (Hp : parse "SELECT 'a\'b'"
                 = Ok (SELECT [VStr "a\'b"])) by (vm_compute; reflexivity).
    destruct (Hrt _ Hp) as [printed [q' [Hprinted [Hq' _]]]].
    vm_compute in Hprinted. injection Hprinted as <-.
    vm_compute in Hq'. discriminate.
Qed.

(* ------------------------------------------------------------------ *)
(** ** No parse yields a MATCHES node *)
(* ------------------------------------------------------------------ *)

Lemma okr_bind {A B : Type} (P : A -> Prop) (Q : B -> Prop)
    (c : result A) (k : A -> result B) :
  okr P c -> (forall a, P a -> okr Q (k a)) -> okr Q (bind c k).
Proof. destruct c as [a|e]; simpl; auto. Qed.

Lemma okr_unexpected {A : Type} (P : A -> Prop) (ts : list token) :
  okr P (unexpected ts).
Proof. destruct ts as [|[] ?]; exact I. Qed.

Lemma okr_expect_lit {A : Type} (P : A -> Prop) (c : ascii) (ts : list token)
    (k : list token -> result A) :
  (forall ts', okr P (k ts')) -> okr P (expect_lit c ts k).
Proof.
  intros Hk. unfold expect_lit. destruct ts as [|[] ts']; try exact I.
  destruct (Ascii.eqb c c0); [apply Hk | exact I].
Qed.

Lemma to_field_ok (v : value) : stack_ok v -> uses_matches (to_field v) = false.
Proof. destruct v; simpl; auto. Qed.

Lemma field_op_ok (fn : pyfunc) (sym : string) (fld : field) (v : value) :
  pyfunc_is fn F_matches = false -> uses_matches fld = false -> stack_ok v ->
  uses_matches (field_op fn sym fld v) = false.
Proof.
  intros Hfn Hfld Hv. unfold field_op. simpl.
  rewrite Hfn, Hfld, (to_field_ok v Hv). reflexivity.
Qed.

Lemma py_eq_ok (l r : value) : stack_ok l -> stack_ok r -> stack_ok (py_eq l r).
Proof.
  intros Hl Hr.
  destruct l; try contradiction; destruct r; try contradiction;
    simpl in *; rewrite ?Hl, ?Hr; trivial.
Qed.

Lemma py_ne_ok (l r : value) : stack_ok l -> stack_ok r -> stack_ok (py_ne l r).
Proof.
  intros Hl Hr.
  destruct l; try contradiction; destruct r; try contradiction;
    simpl in *; rewrite ?Hl, ?Hr; trivial.
Qed.

Lemma py_cmp_ok (op : cmpop) (l r : value) :
  stack_ok l -> stack_ok r -> okr stack_ok (py_cmp op l r).
Proof.
  intros Hl Hr.
  destruct l; try contradiction; destruct r; try contradiction;
    simpl in *; rewrite ?Hl, ?Hr; trivial; destruct op; reflexivity.
Qed.

Lemma plain_binary_ok (fn : pyfunc) (l r : value) : okr stack_ok (plain_binary fn l r).
Proof.
  unfold plain_binary.
  destruct l; try exact I; destruct r; try exact I; destruct fn; simpl; exact I.
Qed.

Lemma py_binary_ok (fn : pyfunc) (sym : string) (l r : value) :
  pyfunc_is fn F_matches = false -> stack_ok l -> stack_ok r ->
  okr stack_ok (py_binary fn sym l r).
Proof.
  intros Hfn Hl Hr. unfold py_binary.
  destruct l; try contradiction;
    try (destruct r; try exact I; apply plain_binary_ok).
  exact (field_op_ok fn sym f0 r Hfn Hl Hr).
Qed.

Lemma py_invert_ok (x : value) : stack_ok x -> okr stack_ok (py_invert x).
Proof.
  intros Hx. destruct x; try exact I; simpl; trivial.
  simpl in Hx. rewrite Hx. reflexivity.
Qed.

Lemma call_method_ok (fn : pyfunc) (sym name : string) (l r : value) :
  pyfunc_is fn F_matches = false -> stack_ok l -> stack_ok r ->
  okr stack_ok (call_method (field_op fn sym) name l r).
Proof.
  intros Hfn Hl Hr. destruct l; try exact I.
  exact (field_op_ok fn sym f0 r Hfn Hl Hr).
Qed.

Lemma to_fields_ok (items : list value) :
  Forall stack_ok items -> existsb uses_matches (to_fields items) = false.
Proof.
  induction 1 as [|v items Hv _ IH]; [reflexivity|].
  simpl. rewrite (to_field_ok v Hv). exact IH.
Qed.

Lemma p_predfactor_1_ok (l : value) (items : list value) :
  stack_ok l -> Forall stack_ok items -> okr stack_ok (p_predfactor_1 l items).
Proof.
  intros Hl Hitems. destruct l; try exact I. simpl in *.
  rewrite Hl, (to_fields_ok items Hitems). reflexivity.
Qed.

Lemma p_predfactor_2_ok (l : value) (op : string) (r : value) :
  stack_ok l -> stack_ok r -> okr stack_ok (p_predfactor_2 l op r).
Proof.
  intros Hl Hr. unfold p_predfactor_2.
  repeat match goal with
         | |- okr _ (if ?b then _ else _) => destruct b
         end;
    try (apply py_cmp_ok; assumption);
    try (apply call_method_ok; auto; reflexivity);
    try exact I.
  - apply py_eq_ok; assumption.
  - apply py_ne_ok; assumption.
  - destruct (call_method Field.MATCHES "MATCHES" l r); exact I.
Qed.

Lemma lookup_wrapped (name : string) (entries : list (string * wrapped)) (w : wrapped) :
  forallb (fun e => negb (pyfunc_is (wrapped_func (snd e)) F_matches)) entries = true ->
  FunctionsRegistry.lookup name entries = Some w ->
  pyfunc_is (wrapped_func w) F_matches = false.
Proof.
  induction entries as [|[n w'] entries IH]; intros Hall Hl; [discriminate|].
  simpl in Hall, Hl. apply andb_prop in Hall. destruct Hall as [Hw Hall].
  destruct (String.eqb n name).
  - injection Hl as <-. apply negb_true_iff. exact Hw.
  - apply IH; assumption.
Qed.

(** The registry holds no entry for [matches]. *)
Lemma p_field_5_ok (name : string) (args : list value) :
  Forall stack_ok args -> okr stack_ok (p_field_5 name args).
Proof.
  intros Hargs. unfold p_field_5, f_call, FunctionsRegistry.get.
  destruct (FunctionsRegistry.lookup name (_funcs f)) as [w|] eqn:Hw; [|exact I].
  apply (lookup_wrapped name (_funcs f) w) in Hw; [|vm_compute; reflexivity].
  destruct w as [fn nm|fn nm]; simpl in Hw |- *.
  - rewrite Hw, (to_fields_ok args Hargs). reflexivity.
  - unfold AggregateFunctionField.__init__.
    destruct (forallb _is_mapper (to_fields args)); [|exact I].
    simpl. rewrite Hw, (to_fields_ok args Hargs). reflexivity.
Qed.

Lemma p_field_7_ok (l : value) (name : string) :
  stack_ok l -> okr stack_ok (p_field_7 l name).
Proof.
  intros Hl. unfold p_field_7, AliasField.__init__.
  destruct (re_match_ident name); [|exact I]. simpl. apply to_field_ok. exact Hl.
Qed.

Lemma field_loop_ok (n : nat) :
  forall l ts, stack_ok l -> okr parsed_ok (field_loop n l ts).
Proof.
  induction n as [|n IH]; intros l ts Hl; [exact I|].
  cbn [field_loop].
  destruct (next_is_error ts); [exact I|].
  destruct (next_is_kw "AS" ts); [|exact Hl].
  destruct (tl ts) as [|[] ts1]; try apply okr_unexpected.
  eapply okr_bind; [apply p_field_7_ok; exact Hl|].
  intros v Hv. apply IH. exact Hv.
Qed.

(** A [bind] whose first computation returns a value with the rest of the
    tokens. *)
Ltac bind_parsed H :=
  eapply okr_bind; [apply H; auto | intros [? ?] ?; unfold parsed_ok, parsed_list_ok in *;
                                    cbn [fst snd] in *].

Ltac bind_value H :=
  eapply okr_bind; [apply H; auto | intros ? ?].

Lemma parser_inv_holds (n : nat) : parser_inv n.
Proof.
  induction n as [|n IH].
  - unfold parser_inv. repeat split; intros; exact I.
  - destruct IH as [Hfexpr [Hfexpr_loop [Hpredterm [Hpredterm_loop [Hprednfactor
      [Hpredfactor_loop [Hfexprs [Hfexprs_tail [Hfexprs_more [Harith [Harith_loop
      [Hterm [Hterm_loop [Hexpnt [Hfield Hfexprstar]]]]]]]]]]]]]]].
    unfold parser_inv. repeat split.
    + (* parse_fexpr *)
      intros ts. cbn [parse_fexpr]. bind_parsed Hpredterm. apply Hfexpr_loop; assumption.
    + (* fexpr_loop *)
      intros l ts Hl. cbn [fexpr_loop].
      destruct (next_is_error ts); [exact I|].
      destruct (next_is_kw "OR" ts); [|exact Hl].
      bind_parsed Hpredterm. bind_value py_binary_ok. apply Hfexpr_loop; assumption.
    + (* parse_predterm *)
      intros ts. cbn [parse_predterm]. bind_parsed Hprednfactor.
      apply Hpredterm_loop; assumption.
    + (* predterm_loop *)
      intros l ts Hl. cbn [predterm_loop].
      destruct (next_is_error ts); [exact I|].
      destruct (next_is_kw "AND" ts); [|exact Hl].
      bind_parsed Hprednfactor. bind_value py_binary_ok. apply Hpredterm_loop; assumption.
    + (* parse_prednfactor *)
      intros ts. cbn [parse_prednfactor].
      destruct (next_is_kw "NOT" ts).
      * bind_parsed Hprednfactor. bind_value py_invert_ok. assumption.
      * bind_parsed Harith. apply Hpredfactor_loop; assumption.
    + (* predfactor_loop *)
      intros l ts Hl. cbn [predfactor_loop].
      destruct ts as [|[] ts1]; try exact Hl; try exact I.
      * destruct (String.eqb kw "IN"); [|exact Hl].
        bind_parsed Hfexprs. bind_value p_predfactor_1_ok.
        apply Hpredfactor_loop; assumption.
      * bind_parsed Harith. bind_value p_predfactor_2_ok.
        apply Hpredfactor_loop; assumption.
    + (* parse_fexprs *)
      intros ts. cbn [parse_fexprs]. bind_parsed Hfexpr.
      apply okr_expect_lit. intros ts'. apply Hfexprs_tail; assumption.
    + (* fexprs_tail *)
      intros e ts He. cbn [fexprs_tail].
      destruct (next_is_error ts); [exact I|].
      destruct (starts_fexpr ts).
      * bind_parsed Hfexpr. apply Hfexprs_more. repeat constructor; assumption.
      * repeat constructor. exact He.
    + (* fexprs_more *)
      intros items ts Hitems. cbn [fexprs_more].
      destruct (next_is_error ts); [exact I|].
      destruct (next_is_lit "," ts); [|exact Hitems].
      destruct (next_is_error (tl ts)); [exact I|].
      destruct (starts_fexpr (tl ts)); [|exact Hitems].
      bind_parsed Hfexpr. apply Hfexprs_more.
      apply Forall_app. split; [exact Hitems | repeat constructor; assumption].
    + (* parse_arithexpr *)
      intros ts. cbn [parse_arithexpr]. bind_parsed Hterm. apply Harith_loop; assumption.
    + (* arithexpr_loop *)
      intros l ts Hl. cbn [arithexpr_loop].
      destruct (next_is_error ts); [exact I|].
      destruct (next_is_lit "+" ts).
      { bind_parsed Hterm. bind_value py_binary_ok. apply Harith_loop; assumption. }
      destruct (next_is_lit "-" ts); [|exact Hl].
      bind_parsed Hterm. bind_value py_binary_ok. apply Harith_loop; assumption.
    + (* parse_term *)
      intros ts. cbn [parse_term]. bind_parsed Hexpnt. apply Hterm_loop; assumption.
    + (* term_loop *)
      intros l ts Hl. cbn [term_loop].
      destruct (next_is_error ts); [exact I|].
      destruct (next_is_lit "*" ts).
      { bind_parsed Hexpnt. bind_value py_binary_ok. apply Hterm_loop; assumption. }
      destruct (next_is_lit "/" ts).
      { bind_parsed Hexpnt. bind_value py_binary_ok. apply Hterm_loop; assumption. }
      destruct (next_is_lit "%" ts); [|exact Hl].
      bind_parsed Hexpnt. bind_value py_binary_ok. apply Hterm_loop; assumption.
    + (* parse_expnt *)
      intros ts. cbn [parse_expnt]. bind_parsed Hfield.
      destruct l as [|[] ts2]; try assumption; try exact I.
      bind_parsed Hexpnt. bind_value py_binary_ok. assumption.
    + (* parse_field *)
      intros ts. cbn [parse_field].
      eapply okr_bind with (P := parsed_ok);
        [|intros [v ts1] Hv; apply field_loop_ok; exact Hv].
      destruct ts as [|[] ts1]; try apply okr_unexpected;
        try (eapply okr_bind with (P := fun _ => True);
             [destruct (parse_literal _) as [[? ?]|]; exact I
             | intros [? ?] _; reflexivity]).
      * (* keyword *)
        destruct (String.eqb kw "O").
        -- destruct ts1 as [|[] ts2]; try reflexivity; try exact I.
           destruct (Ascii.eqb c "."); [destruct ts2 as [|[] ?]; try exact I; reflexivity|].
           destruct (Ascii.eqb c "["); [|reflexivity].
           eapply okr_bind with (P := fun _ => True);
             [destruct (parse_literal _) as [[? ?]|]; exact I|].
           intros [lit ts3] _. apply okr_expect_lit. intros ts4. reflexivity.
        -- eapply okr_bind with (P := fun _ => True);
             [destruct (parse_literal _) as [[? ?]|]; exact I
             | intros [? ?] _; reflexivity].
      * (* function call *)
        apply okr_expect_lit. intros ts2. bind_parsed Hfexprstar.
        apply okr_expect_lit. intros ts4.
        eapply okr_bind; [apply p_field_5_ok; assumption|].
        intros v Hv. exact Hv.
      * (* parenthesis *)
        destruct (Ascii.eqb c "("); [|apply okr_unexpected].
        bind_parsed Hfexpr. apply okr_expect_lit. intros ts3. assumption.
    + (* parse_fexprstar *)
      intros ts. cbn [parse_fexprstar].
      destruct (next_is_error ts); [exact I|].
      destruct (starts_fexpr ts); [|constructor].
      bind_parsed Hfexpr.
      destruct (next_is_lit "," l); [apply Hfexprs_tail; assumption|].
      repeat constructor. assumption.
Qed.

Lemma to_fields_clean (items : list value) :
  Forall stack_ok items ->
  Forall (fun fld => uses_matches fld = false) (to_fields items).
Proof.
  induction 1 as [|v items Hv _ IH]; [constructor|].
  constructor; [apply to_field_ok; exact Hv | exact IH].
Qed.

Lemma parse_fexprplus_ok (n : nat) (ts : list token) :
  okr (fun p => plus_ok (fst p)) (parse_fexprplus n ts).
Proof.
  destruct (parser_inv_holds n) as [Hfexpr [_ [_ [_ [_ [_ [_ [Htail _]]]]]]]].
  unfold parse_fexprplus. bind_parsed Hfexpr.
  destruct (next_is_lit "," l).
  - bind_parsed Htail. right. eexists. split; [reflexivity | assumption].
  - left. assumption.
Qed.

Lemma select_without_matches (v : value) :
  plus_ok v -> query_without_matches (SELECT [v]).
Proof.
  intros [Hv | [items [-> Hitems]]].
  - destruct v; try contradiction; simpl; repeat split; try discriminate;
      repeat constructor. exact Hv.
  - simpl. repeat split; try discriminate. apply to_fields_clean. exact Hitems.
Qed.

Lemma where_without_matches (q : SelectQuery) (w : field) :
  query_without_matches q -> uses_matches w = false ->
  okr query_without_matches (SelectQuery.WHERE q w).
Proof.
  intros [Hf [_ Hg]] Hw. unfold SelectQuery.WHERE.
  destruct (_is_mapper w); [|exact I].
  simpl. repeat split; [exact Hf | | exact Hg].
  intros w' Hw'. simpl in Hw'. injection Hw' as <-. exact Hw.
Qed.

Lemma group_by_without_matches (q : SelectQuery) (g : list value) :
  query_without_matches q -> Forall stack_ok g ->
  okr query_without_matches (SelectQuery.GROUP_BY q g).
Proof.
  intros [Hf [Hw _]] Hg. unfold SelectQuery.GROUP_BY.
  destruct (negb (forallb _is_mapper (to_fields g))); [exact I|].
  match goal with |- okr _ (if ?c then _ else _) => destruct c end; [|exact I].
  simpl. repeat split; [exact Hf | exact Hw |].
  intros g' Hg'. simpl in Hg'. injection Hg' as <-. apply to_fields_clean. exact Hg.
Qed.

Lemma p_groupby_1_ok (v : value) : plus_ok v -> Forall stack_ok (p_groupby_1 v).
Proof.
  intros [Hv | [items [-> Hitems]]].
  - destruct v; try contradiction; repeat constructor. exact Hv.
  - exact Hitems.
Qed.

Lemma p_statement_ok (distinct : bool) (fexprplus where_v : value)
    (groupby : option (list value)) (returning : option string) :
  plus_ok fexprplus -> stack_ok where_v ->
  (forall g, groupby = Some g -> Forall stack_ok g) ->
  okr query_without_matches (p_statement distinct fexprplus where_v groupby returning).
Proof.
  intros Hplus Hwhere Hgroup. unfold p_statement.
  assert (Hs : query_without_matches
                 (if distinct then SelectQuery.DISTINCT (SELECT [fexprplus])
                  else SELECT [fexprplus])).
  { pose proof (select_without_matches fexprplus Hplus) as Hq.
    destruct distinct; [|exact Hq].
    destruct Hq as [Hf [Hw Hg]]. repeat split; assumption. }
  eapply okr_bind with (P := query_without_matches).
  { destruct where_v; try exact I; [exact Hs|].
    apply where_without_matches; assumption. }
  intros s1 Hs1.
  eapply okr_bind with (P := query_without_matches).
  { destruct groupby as [g|]; [|exact Hs1].
    apply group_by_without_matches; [exact Hs1 | apply Hgroup; reflexivity]. }
  intros s2 Hs2. destruct returning; [|exact Hs2].
  destruct Hs2 as [Hf [Hw Hg]]. repeat split; assumption.
Qed.

(** No text parses to a query with a MATCHES node: not in its WHERE
    clause, nor in its projection or GROUP BY list. *)
Lemma parse_without_matches (text : string) :
  okr query_without_matches (parse text).
Proof.
  unfold parse. generalize (20 * (List.length (lex text) + 1)) as n.
  generalize (lex text) as ts. intros ts n.
  destruct (parser_inv_holds n) as [Hfexpr _].
  unfold parse_statement.
  eapply okr_bind; [apply parse_fexprplus_ok|].
  intros [fexprplus ts1] Hplus. cbn [fst] in Hplus.
  eapply okr_bind with (P := parsed_ok).
  { destruct (next_is_kw "WHERE" ts1); [apply Hfexpr | exact I]. }
  intros [where_v ts2] Hwhere. unfold parsed_ok in Hwhere. cbn [fst] in Hwhere.
  eapply okr_bind with (P := fun p => forall g, fst p = Some g -> Forall stack_ok g).
  { destruct (next_is_kw "GROUP" ts2); [|intros g Hg; discriminate].
    destruct (next_is_kw "BY" (tl ts2)); [|apply okr_unexpected].
    eapply okr_bind; [apply parse_fexprplus_ok|].
    intros [g ts'] Hg g' Hg'. cbn [fst] in *. injection Hg' as <-.
    apply p_groupby_1_ok. exact Hg. }
  intros [groupby ts3] Hgroup. cbn [fst] in Hgroup.
  eapply okr_bind with (P := fun _ => True).
  { destruct (next_is_kw "RETURNING" ts3); [|exact I].
    destruct (tl ts3) as [|[] ?]; try apply okr_unexpected.
    destruct (p_returning_1 name); exact I. }
  intros [returning ts4] _.
  destruct ts4; [|apply okr_unexpected].
  apply p_statement_ok; assumption.
Qed.

(** C2: the reduction for [predfactor COMPARE arithexpr] builds the
    MATCHES node and drops it: its output is [None] for every field on
    the left, where the sibling branches return the node they build.  The
    query parsed from [SELECT o.x WHERE o.s MATCHES 'foo.*'] therefore has
    no WHERE clause at all, and no text parses to a query whose WHERE
    clause holds a MATCHES node. *)
Theorem matches_reduction_discards_node :
  (forall (left : field) (right : value),
      p_predfactor_2 (VField left) "MATCHES" right = Ok VNone) /\
  (forall (left : field) (right : value),
      p_predfactor_2 (VField left) "LIKE" right = Ok (VField (Field.LIKE left right)) /\
      Field.MATCHES left right = OperatorField F_matches [left; to_field right] "MATCHES" /\
      uses_matches (Field.MATCHES left right) = true) /\
  parse "SELECT o.x WHERE o.s MATCHES 'foo.*'" = Ok (SELECT [VField (AttrField "x")]) /\
  where_ (SELECT [VField (AttrField "x")]) = None /\
  (forall (text : string) (q : SelectQuery) (w : field),
      parse text = Ok q -> where_ q = Some w -> uses_matches w = false).
Proof.
  split; [intros left right; reflexivity|].
  split; [intros left right; repeat split; reflexivity|].
  split; [vm_compute; reflexivity|].
  split; [reflexivity|].
  intros text q w Hq Hw.
  pose proof (parse_without_matches text) as Hok. rewrite Hq in Hok.
  destruct Hok as [_ [Hwhere _]]. apply Hwhere. exact Hw.
Qed.

Lemma matches_reduction_discards_node_witness :
  parse "SELECT o.x WHERE o.s LIKE 'foo.*'"
  = Ok (mkSelectQuery [AttrField "x"] true false
          (Some (Field.LIKE (AttrField "s") (VStr "foo.*"))) None None) /\
  uses_matches (Field.LIKE (AttrField "s") (VStr "foo.*")) = false.
Proof.
  assert (Hp : parse "SELECT o.x WHERE o.s LIKE 'foo.*'"
               = Ok (mkSelectQuery [AttrField "x"] true false
                       (Some (Field.LIKE (AttrField "s") (VStr "foo.*"))) None None))
    by (vm_compute; reflexivity).
  split; [exact Hp|].
  destruct matches_reduction_discards_node as [_ [_ [_ [_ Hnever]]]].
  exact (Hnever _ _ _ Hp eq_refl).
Defined.

(* ------------------------------------------------------------------ *)
(** ** Laws of structural equality *)
(* ------------------------------------------------------------------ *)

Lemma zmem_in (x : Z) (l : list Z) : In x l -> zmem x l = true.
Proof.
  intros Hin. unfold zmem. apply existsb_exists. exists x. split; [exact Hin|].
  apply Z.eqb_refl.
Qed.

Lemma subset_refl (l : list Z) : subset l l = true.
Proof.
  unfold subset. apply forallb_forall. intros x Hx. apply zmem_in. exact Hx.
Qed.

Lemma eqb_val_refl (a : value) : eqb_val a a = true.
Proof.
  induction a as [| b | n | s | l IH | l IH | l | c l IH | f] using value_nested_ind;
    unfold eqb_val.
  - reflexivity.
  - simpl. apply Bool.eqb_reflx.
  - simpl. apply Z.eqb_refl.
  - simpl. apply String.eqb_refl.
  - rewrite py_eq_tuple. simpl. apply forall2b_refl. exact IH.
  - rewrite py_eq_list. simpl. apply forall2b_refl. exact IH.
  - simpl. unfold set_eq. rewrite subset_refl. reflexivity.
  - rewrite py_eq_obj. simpl. rewrite String.eqb_refl. simpl.
    apply forall2b_refl.
    eapply Forall_impl; [|exact IH]. intros kv Hkv. simpl in Hkv.
    rewrite String.eqb_refl. exact Hkv.
  - reflexivity.
Qed.





(* ------------------------------------------------------------------ *)
(** ** [field_index] *)
(* ------------------------------------------------------------------ *)

Lemma field_index_from (needle : field) (haystack : list field) :
  match field_index needle haystack with
  | Some i =>
      exists (before : list field) (c : field) (after : list field),
        haystack = (before ++ c :: after)%list /\ List.length before = i /\
        _equals needle c = true /\
        Forall (fun b => _equals needle b = false) before
  | None => Forall (fun c => _equals needle c = false) haystack
  end.
Proof.
  unfold field_index.
  assert (Hgo : forall l i,
             match (fix go (i : nat) (l : list field) {struct l} : option nat :=
                      match l with
                      | [] => None
                      | candidate_field :: l' =>
                          if _equals needle candidate_field then Some i else go (S i) l'
                      end) i l with
             | Some j =>
                 exists (before : list field) (c : field) (after : list field),
                   l = (before ++ c :: after)%list /\ i + List.length before = j /\
                   _equals needle c = true /\
                   Forall (fun b => _equals needle b = false) before
             | None => Forall (fun c => _equals needle c = false) l
             end).
  { induction l as [|c l IH]; intros i; [constructor|].
    destruct (_equals needle c) eqn:Hc.
    - exists [], c, l. simpl. repeat split; [lia | exact Hc | constructor].
    - specialize (IH (S i)).
      destruct ((fix go (i : nat) (l : list field) {struct l} : option nat :=
                   match l with
                   | [] => None
                   | candidate_field :: l' =>
                       if _equals needle candidate_field then Some i else go (S i) l'
                   end) (S i) l) as [j|].
      + destruct IH as [before [c' [after [Hl [Hlen [Hc' Hbefore]]]]]].
        exists (c :: before), c', after. simpl. rewrite Hl.
        repeat split; [lia | exact Hc' | constructor; assumption].
      + constructor; assumption. }
  exact (Hgo haystack 0).
Qed.

(** X2: [field_index] answers the position of the first candidate that is
    structurally equal to the needle: every candidate before it differs;
    it answers [None] exactly when no candidate is equal. *)
Theorem field_index_first_match (needle : field) (haystack : list field) :
  (forall i : nat,
      field_index needle haystack = Some i <->
      exists (before : list field) (c : field) (after : list field),
        haystack = (before ++ c :: after)%list /\ List.length before = i /\
        _equals needle c = true /\
        Forall (fun b => _equals needle b = false) before) /\
  (field_index needle haystack = None <->
   Forall (fun c => _equals needle c = false) haystack).
Proof.
  pose proof (field_index_from needle haystack) as Hspec.
  split.
  - intros i. split.
    + intros Hi. rewrite Hi in Hspec. exact Hspec.
    + intros [before [c [after [Hl [Hlen [Hc Hbefore]]]]]].
      destruct (field_index needle haystack) as [j|].
      * destruct Hspec as [before' [c' [after' [Hl' [Hlen' [Hc' Hbefore']]]]]].
        f_equal. subst i j.
        destruct (Nat.lt_trichotomy (List.length before') (List.length before))
          as [Hlt | [Heq | Hgt]]; [|exact Heq|].
        -- exfalso. rewrite Forall_forall in Hbefore.
           assert (Hin : In c' before).
           { apply nth_error_In with (n := List.length before').
             assert (Hn : nth_error haystack (List.length before') = Some c').
             { rewrite Hl', nth_error_app2, Nat.sub_diag by lia. reflexivity. }
             rewrite Hl, nth_error_app1 in Hn by exact Hlt. exact Hn. }
           rewrite (Hbefore c' Hin) in Hc'. discriminate.
        -- exfalso. rewrite Forall_forall in Hbefore'.
           assert (Hin : In c before').
           { apply nth_error_In with (n := List.length before).
             assert (Hn : nth_error haystack (List.length before) = Some c).
             { rewrite Hl, nth_error_app2, Nat.sub_diag by lia. reflexivity. }
             rewrite Hl', nth_error_app1 in Hn by exact Hgt. exact Hn. }
           rewrite (Hbefore' c Hin) in Hc. discriminate.
      * exfalso. rewrite Forall_forall in Hspec.
        assert (Hin : In c haystack).
        { rewrite Hl. apply in_or_app. right. left. reflexivity. }
        rewrite (Hspec c Hin) in Hc. discriminate.
  - split.
    + intros Hnone. rewrite Hnone in Hspec. exact Hspec.
    + intros Hall. destruct (field_index needle haystack) as [j|]; [|reflexivity].
      exfalso. destruct Hspec as [before [c [after [Hl [_ [Hc _]]]]]].
      rewrite Forall_forall in Hall.
      assert (Hin : In c haystack).
      { rewrite Hl. apply in_or_app. right. left. reflexivity. }
      rewrite (Hall c Hin) in Hc. discriminate.
Qed.

Lemma field_index_first_match_witness :
  field_index (AttrField "y") [AttrField "x"; AliasField (AttrField "y") "total"; AttrField "y"]
  = Some 1.
Proof.
  apply (proj1 (field_index_first_match (AttrField "y")
                  [AttrField "x"; AliasField (AttrField "y") "total"; AttrField "y"])).
  exists [AttrField "x"], (AliasField (AttrField "y") "total"), [AttrField "y"].
  repeat split. constructor; [reflexivity | constructor].
Defined.

(* ------------------------------------------------------------------ *)
(** ** [SelectQuery._distinct] *)
(* ------------------------------------------------------------------ *)

Lemma gen_of_list_of_gen {A : Type} (g : gen A) (l : list A) :
  list_of_gen g = Ok l -> g = gen_of_list l.
Proof.
  revert l. induction g as [| e | a rest IH]; intros l Hl; simpl in Hl.
  - injection Hl as <-. reflexivity.
  - discriminate.
  - destruct (list_of_gen rest) as [l'|e]; simpl in Hl; [|discriminate].
    injection Hl as <-. simpl. rewrite (IH l' eq_refl). reflexivity.
Qed.

Lemma existsb_eqb_val_self (r : value) (l : list value) :
  existsb (eqb_val r) (r :: l) = true.
Proof. simpl. rewrite eqb_val_refl. reflexivity. Qed.

Lemma distinct_from_seen (rows : list value) :
  forallb hashable rows = true ->
  forall seen : list value,
  exists out : list value,
    list_of_gen
      ((fix go (res : gen value) (seen : list value) {struct res} : gen value :=
          match res with
          | Stop => Stop
          | Fail e => Fail e
          | Yield r rest =>
              if negb (hashable r)
              then Fail (TypeError ("unhashable type: '" ++ type_name r ++ "'"))
              else if existsb (eqb_val r) seen then go rest seen
                   else Yield r (go rest (r :: seen))
          end) (gen_of_list rows) seen) = Ok out /\
    subseq out rows /\
    ForallOrdPairs (fun a b => eqb_val a b = false) out /\
    Forall (fun r => existsb (eqb_val r) seen = false) out /\
    Forall (fun r => existsb (eqb_val r) seen || existsb (eqb_val r) out = true) rows /\
    (seen = [] -> hd_error out = hd_error rows).
Proof.
  induction rows as [|r rows IH]; intros Hhash seen.
  - exists []. simpl. repeat split; constructor.
  - simpl in Hhash. apply andb_true_iff in Hhash. destruct Hhash as [Hr Hrows].
    cbn [gen_of_list]. rewrite Hr. cbn [negb].
    destruct (existsb (eqb_val r) seen) eqn:Hseen.
    + destruct (IH Hrows seen) as [out [Hout [Hsub [Hpairs [Hnew [Hcover _]]]]]].
      exists out. split; [exact Hout|]. split; [constructor; exact Hsub|].
      split; [exact Hpairs|]. split; [exact Hnew|]. split.
      * constructor; [rewrite Hseen; reflexivity | exact Hcover].
      * intros ->. discriminate.
    + destruct (IH Hrows (r :: seen)) as [out [Hout [Hsub [Hpairs [Hnew [Hcover _]]]]]].
      exists (r :: out). cbn [list_of_gen]. rewrite Hout. cbn [bind].
      split; [reflexivity|]. split; [constructor; exact Hsub|]. split.
      { constructor; [|exact Hpairs].
        eapply Forall_impl; [|exact Hnew]. intros x Hx. simpl in Hx.
        apply orb_false_iff in Hx. destruct Hx as [Hx _].
        rewrite eqb_val_sym. exact Hx. }
      split.
      { constructor; [exact Hseen|].
        eapply Forall_impl; [|exact Hnew]. intros x Hx. simpl in Hx.
        apply orb_false_iff in Hx. apply Hx. }
      split.
      { constructor.
        - rewrite existsb_eqb_val_self. apply orb_true_r.
        - eapply Forall_impl; [|exact Hcover]. intros x Hx. simpl in Hx. simpl.
          destruct (eqb_val x r); [apply orb_true_r|]. exact Hx. }
      reflexivity.
Qed.

Lemma distinct_unhashable (rows : list value) :
  forallb hashable rows = false ->
  forall seen : list value,
  exists msg : string,
    list_of_gen
      ((fix go (res : gen value) (seen : list value) {struct res} : gen value :=
          match res with
          | Stop => Stop
          | Fail e => Fail e
          | Yield r rest =>
              if negb (hashable r)
              then Fail (TypeError ("unhashable type: '" ++ type_name r ++ "'"))
              else if existsb (eqb_val r) seen then go rest seen
                   else Yield r (go rest (r :: seen))
          end) (gen_of_list rows) seen) = Raise (TypeError msg).
Proof.
  induction rows as [|r rows IH]; intros Hhash seen; [discriminate|].
  simpl in Hhash. cbn [gen_of_list].
  destruct (hashable r) eqn:Hr; cbn [negb].
  - simpl in Hhash.
    destruct (existsb (eqb_val r) seen).
    + apply IH. exact Hhash.
    + destruct (IH Hhash (r :: seen)) as [msg Hmsg].
      exists msg. cbn [list_of_gen]. rewrite Hmsg. reflexivity.
  - eexists. reflexivity.
Qed.

(** X3: with DISTINCT set, the rows that come out are rows of the input
    in their input order, starting with the first input row, no two of
    them [==], and every input row is [==] to one of them; a row that
    cannot be hashed ends the iteration with a [TypeError]. *)
Theorem distinct_keeps_order_and_drops_repeats
    (q : SelectQuery) (res : gen value) (rows : list value) :
  distinct q = true ->
  list_of_gen res = Ok rows ->
  (forallb hashable rows = true ->
   exists out : list value,
     list_of_gen (SelectQuery._distinct q res) = Ok out /\
     subseq out rows /\
     hd_error out = hd_error rows /\
     ForallOrdPairs (fun a b => eqb_val a b = false) out /\
     Forall (fun r => existsb (eqb_val r) out = true) rows) /\
  (forallb hashable rows = false ->
   exists msg : string,
     list_of_gen (SelectQuery._distinct q res) = Raise (TypeError msg)).
Proof.
  intros Hq Hres. apply gen_of_list_of_gen in Hres. subst res.
  unfold SelectQuery._distinct. rewrite Hq. split.
  - intros Hhash.
    destruct (distinct_from_seen rows Hhash []) as [out [Hout [Hsub [Hpairs [_ [Hcover Hhd]]]]]].
    exists out. split; [exact Hout|]. split; [exact Hsub|].
    split; [apply Hhd; reflexivity|]. split; [exact Hpairs|].
    eapply Forall_impl; [|exact Hcover]. intros r Hr. exact Hr.
  - intros Hhash. apply distinct_unhashable. exact Hhash.
Qed.

Lemma distinct_keeps_order_and_drops_repeats_witness :
  exists out : list value,
    list_of_gen (SelectQuery._distinct (SelectQuery.DISTINCT (SELECT []))
                   (gen_of_list [VInt 1; VInt 2; VBool true; VInt 2; VInt 3])) = Ok out /\
    subseq out [VInt 1; VInt 2; VBool true; VInt 2; VInt 3] /\
    hd_error out = hd_error [VInt 1; VInt 2; VBool true; VInt 2; VInt 3] /\
    ForallOrdPairs (fun a b => eqb_val a b = false) out /\
    Forall (fun r => existsb (eqb_val r) out = true)
           [VInt 1; VInt 2; VBool true; VInt 2; VInt 3].
Proof.
  apply (distinct_keeps_order_and_drops_repeats (SelectQuery.DISTINCT (SELECT []))
           (gen_of_list [VInt 1; VInt 2; VBool true; VInt 2; VInt 3])
           [VInt 1; VInt 2; VBool true; VInt 2; VInt 3]); reflexivity.
Defined.

(* ------------------------------------------------------------------ *)
(** ** The builder methods of [SelectQuery] *)
(* ------------------------------------------------------------------ *)

(** X4: [WHERE] refuses a condition that is not scalar; otherwise it
    sets the condition and leaves the other clauses alone, so a second
    [WHERE] replaces the first instead of adding to it.  [DISTINCT] twice
    is [DISTINCT] once, and [RETURNING] switches flattening off. *)
Theorem where_replaces_earlier_where (q : SelectQuery) (w : field) :
  (_is_mapper w = false -> exists msg, SelectQuery.WHERE q w = Raise (AssertionError msg)) /\
  (_is_mapper w = true ->
   exists q' : SelectQuery,
     SelectQuery.WHERE q w = Ok q' /\
     where_ q' = Some w /\
     fields q' = fields q /\ flatten q' = flatten q /\ distinct q' = distinct q /\
     group_by q' = group_by q /\ return_type q' = return_type q /\
     (forall w2 : field, SelectQuery.WHERE q' w2 = SelectQuery.WHERE q w2)) /\
  SelectQuery.DISTINCT (SelectQuery.DISTINCT q) = SelectQuery.DISTINCT q /\
  (forall t : string,
      flatten (SelectQuery.RETURNING q t) = false /\
      return_type (SelectQuery.RETURNING q t) = Some t /\
      fields (SelectQuery.RETURNING q t) = fields q).
Proof.
  split; [|split; [|split]].
  - intros Hw. unfold SelectQuery.WHERE. rewrite Hw. eexists. reflexivity.
  - intros Hw. unfold SelectQuery.WHERE. rewrite Hw. eexists.
    split; [reflexivity|]. repeat split.
  - reflexivity.
  - intros t. repeat split.
Qed.

Lemma where_replaces_earlier_where_witness :
  exists q' : SelectQuery,
    SelectQuery.WHERE (SELECT []) (Field.__lt__ (AttrField "age") (VInt 40)) = Ok q' /\
    where_ q' = Some (Field.__lt__ (AttrField "age") (VInt 40)) /\
    SelectQuery.WHERE q' (AttrField "x") = SelectQuery.WHERE (SELECT []) (AttrField "x").
Proof.
  destruct (where_replaces_earlier_where (SELECT []) (Field.__lt__ (AttrField "age") (VInt 40)))
    as [_ [Hok _]].
  destruct (Hok eq_refl) as [q' [Hq' [Hw [_ [_ [_ [_ [_ Hagain]]]]]]]].
  exists q'. split; [exact Hq'|]. split; [exact Hw|]. apply Hagain.
Defined.

(** X5: [GROUP_BY] first asserts that every grouping field is scalar;
    then it accepts the call when every projection field is structurally
    equal to a grouping field or is an aggregate, and only the GROUP BY
    clause changes; it raises [ValueError] when some projection field is
    neither. *)
Theorem group_by_validates_projection (q : SelectQuery) (args : list value) :
  (forallb _is_mapper (to_fields args) = false ->
   exists msg, SelectQuery.GROUP_BY q args = Raise (AssertionError msg)) /\
  (forallb _is_mapper (to_fields args) = true ->
   Forall (fun select_field =>
             field_index select_field (to_fields args) <> None
             \/ _is_aggregator select_field = true) (fields q) ->
   SelectQuery.GROUP_BY q args
   = Ok (mkSelectQuery (fields q) (flatten q) (distinct q) (where_ q)
           (Some (to_fields args)) (return_type q))) /\
  (forallb _is_mapper (to_fields args) = true ->
   Exists (fun select_field =>
             field_index select_field (to_fields args) = None
             /\ _is_aggregator select_field = false) (fields q) ->
   exists msg, SelectQuery.GROUP_BY q args = Raise (ValueError msg)).
Proof.
  split; [|split].
  - intros Hg. unfold SelectQuery.GROUP_BY. rewrite Hg. eexists. reflexivity.
  - intros Hg Hall. unfold SelectQuery.GROUP_BY. rewrite Hg. cbn [negb].
    replace (forallb _ (fields q)) with true; [reflexivity|].
    symmetry. apply forallb_forall. intros sf Hsf.
    rewrite Forall_forall in Hall. destruct (Hall sf Hsf) as [Hidx | Hagg].
    + destruct (field_index sf (to_fields args)); [reflexivity | congruence].
    + destruct (field_index sf (to_fields args)); [reflexivity | exact Hagg].
  - intros Hg Hex. unfold SelectQuery.GROUP_BY. rewrite Hg. cbn [negb].
    replace (forallb _ (fields q)) with false; [eexists; reflexivity|].
    symmetry. apply not_true_is_false. intros Hall.
    rewrite forallb_forall in Hall. apply Exists_exists in Hex.
    destruct Hex as [sf [Hsf [Hidx Hagg]]]. specialize (Hall sf Hsf).
    rewrite Hidx, Hagg in Hall. discriminate.
Qed.

Lemma group_by_validates_projection_witness :
  SelectQuery.GROUP_BY
    (SELECT [VField (AttrField "x");
             VField (AggregateFunctionField F_sum [AttrField "y"] "sum")])
    [VField (AttrField "x")]
  = Ok sum_y_by_x /\
  (exists msg,
      SelectQuery.GROUP_BY (SELECT [VField (AttrField "x"); VField (AttrField "y")])
        [VField (AttrField "x")] = Raise (ValueError msg)) /\
  (exists msg,
      SelectQuery.GROUP_BY (SELECT [VField (AttrField "x")])
        [VField (AggregateFunctionField F_sum [AttrField "y"] "sum")]
      = Raise (AssertionError msg)).
Proof.
  split; [|split].
  - apply (proj1 (proj2 (group_by_validates_projection
                           (SELECT [VField (AttrField "x");
                                    VField (AggregateFunctionField F_sum [AttrField "y"] "sum")])
                           [VField (AttrField "x")]))).
    + reflexivity.
    + constructor; [left; discriminate|]. constructor; [right; reflexivity | constructor].
  - apply (proj2 (proj2 (group_by_validates_projection
                           (SELECT [VField (AttrField "x"); VField (AttrField "y")])
                           [VField (AttrField "x")]))).
    + reflexivity.
    + apply Exists_cons_tl. apply Exists_cons_hd. split; reflexivity.
  - apply (proj1 (group_by_validates_projection
                    (SELECT [VField (AttrField "x")])
                    [VField (AggregateFunctionField F_sum [AttrField "y"] "sum")])).
    reflexivity.
Defined.

(* ------------------------------------------------------------------ *)
(** ** Evaluation of the operator nodes *)
(* ------------------------------------------------------------------ *)

(** X6: an AND node applies [and_] to the values of both operands, so an
    exception in the right operand is raised even where the left operand
    is false; a NOT node answers the negated truth value; an IN node
    answers whether some listed field's value is [==] to the left
    value. *)
Theorem and_not_in_evaluate_operands_first `{Host}
    (a : field) (b r : value) (others : list value) :
  __call__ (Field.__and__ a b) r
  = (x <- __call__ a r ;; y <- __call__ (to_field b) r ;;
     Ok (if truthy x then y else x)) /\
  (forall (x : value) (e : error),
      __call__ a r = Ok x -> __call__ (to_field b) r = Raise e ->
      __call__ (Field.__and__ a b) r = Raise e) /\
  __call__ (NOT a) r = (x <- __call__ a r ;; Ok (VBool (negb (truthy x)))) /\
  __call__ (Field.IN a others) r
  = (x <- __call__ a r ;;
     vs <- mapM (fun other => __call__ other r) (to_fields others) ;;
     Ok (VBool (existsb (fun v => eqb_val v x) vs))).
Proof.
  split; [|split; [|split]].
  - unfold Field.__and__. rewrite call_field_op. reflexivity.
  - intros x e Ha Hb. unfold Field.__and__. rewrite call_field_op, Ha, Hb. reflexivity.
  - unfold NOT, Field.__invert__.
    change (__call__ (OperatorField F_not [a] "NOT") r)
      with (vs <- mapM (fun arg => __call__ arg r) [a] ;; apply_func F_not vs).
    rewrite mapM_one. destruct (__call__ a r); reflexivity.
  - unfold Field.IN.
    change (__call__ (OperatorField F_in [a; ListField (to_fields others)] "IN") r)
      with (vs <- mapM (fun arg => __call__ arg r) [a; ListField (to_fields others)] ;;
            apply_func F_in vs).
    rewrite mapM_two. destruct (__call__ a r) as [x|e]; [|reflexivity].
    cbn [bind].
    change (__call__ (ListField (to_fields others)) r)
      with (vs <- mapM (fun f => __call__ f r) (to_fields others) ;; Ok (VList vs)).
    destruct (mapM (fun f => __call__ f r) (to_fields others)); reflexivity.
Qed.

Lemma and_not_in_evaluate_operands_first_witness :
  __call__ (Field.__and__ (ConstantField (VBool false)) (VField (AttrField "missing")))
    (point 1 2)
  = Raise (AttributeError "'Point' object has no attribute 'missing'").
Proof.
  destruct (@and_not_in_evaluate_operands_first bare_host
              (ConstantField (VBool false)) (VField (AttrField "missing")) (point 1 2) [])
    as [_ [Hraise _]].
  apply (Hraise (VBool false)); reflexivity.
Defined.

(* ------------------------------------------------------------------ *)
(** ** Aggregate functions over the records of a group *)
(* ------------------------------------------------------------------ *)

Lemma call_aggregate_one `{Host} (fn : pyfunc) (arg : field) (name : string)
    (recs col : list value) :
  mapM (fun ob => __call__ arg ob) recs = Ok col ->
  __call__ (AggregateFunctionField fn [arg] name) (VList recs) = apply_func fn [VTuple col].
Proof.
  intros Hcol.
  change (__call__ (AggregateFunctionField fn [arg] name) (VList recs))
    with (cols <- mapM (fun arg0 =>
                          objs <- py_iter (VList recs) ;;
                          col0 <- mapM (fun ob => __call__ arg0 ob) objs ;;
                          Ok (VTuple col0)) [arg] ;;
          apply_func fn cols).
  rewrite mapM_one. cbn [py_iter bind]. rewrite Hcol. reflexivity.
Qed.

(** X7: an aggregate node with one argument builds the column of the
    argument's values over the records of the group and applies its
    function to it: [count] answers the number of records, [sum] and
    [product] fold integers, [join] concatenates strings, [first] answers
    the first value, [list] and [tuple] the whole column. *)
Theorem aggregates_fold_the_column `{Host} (arg : field) (name : string)
    (recs col : list value) :
  mapM (fun ob => __call__ arg ob) recs = Ok col ->
  __call__ (AggregateFunctionField F_len [arg] name) (VList recs)
  = Ok (VInt (Z.of_nat (List.length recs))) /\
  (forall ns : list Z,
      all_ints col = Some ns ->
      __call__ (AggregateFunctionField F_sum [arg] name) (VList recs)
      = Ok (VInt (fold_left Z.add ns 0%Z)) /\
      __call__ (AggregateFunctionField F_product [arg] name) (VList recs)
      = Ok (VInt (fold_left Z.mul ns 1%Z))) /\
  (forall ss : list string,
      all_strs col = Some ss ->
      __call__ (AggregateFunctionField F_join [arg] name) (VList recs)
      = Ok (VStr (String.concat "" ss))) /\
  (forall (v : value) (rest : list value),
      col = v :: rest ->
      __call__ (AggregateFunctionField F_first [arg] name) (VList recs) = Ok v) /\
  __call__ (AggregateFunctionField F_list [arg] name) (VList recs) = Ok (VList col) /\
  __call__ (AggregateFunctionField F_tuple [arg] name) (VList recs) = Ok (VTuple col).
Proof.
  intros Hcol. rewrite !(call_aggregate_one _ _ _ _ _ Hcol).
  split; [|split; [|split; [|split; [|split]]]].
  - unfold apply_func. simpl. rewrite (mapM_length _ _ _ Hcol). reflexivity.
  - intros ns Hns. unfold apply_func. simpl. rewrite Hns. split; reflexivity.
  - intros ss Hss. unfold apply_func. simpl. rewrite Hss. reflexivity.
  - intros v rest ->. reflexivity.
  - reflexivity.
  - reflexivity.
Qed.

Lemma aggregates_fold_the_column_witness :
  __call__ (AggregateFunctionField F_len [AttrField "y"] "count") (VList three_points)
  = Ok (VInt 3) /\
  __call__ (AggregateFunctionField F_sum [AttrField "y"] "sum") (VList three_points)
  = Ok (VInt 16).
Proof.
  destruct (@aggregates_fold_the_column bare_host (AttrField "y") "count"
              three_points [VInt 1; VInt 5; VInt 10] eq_refl) as [Hcount _].
  destruct (@aggregates_fold_the_column bare_host (AttrField "y") "sum"
              three_points [VInt 1; VInt 5; VInt 10] eq_refl) as [_ [Hsum _]].
  split; [exact Hcount|]. exact (proj1 (Hsum [1; 5; 10]%Z eq_refl)).
Defined.

(* ------------------------------------------------------------------ *)
(** ** Execution without GROUP BY *)
(* ------------------------------------------------------------------ *)

Lemma gfilter_of_list {A : Type} (p : A -> result value) (keep : A -> bool) (l : list A) :
  Forall (fun x => exists v, p x = Ok v /\ truthy v = keep x) l ->
  gfilter p (gen_of_list l) = gen_of_list (filter keep l).
Proof.
  induction 1 as [|x l [v [Hv Hk]] _ IH]; simpl; [reflexivity|].
  rewrite Hv, Hk, IH. destruct (keep x); reflexivity.
Qed.

Lemma gmap_of_list {A B : Type} (g : A -> result B) (h : A -> B) (l : list A) :
  Forall (fun x => g x = Ok (h x)) l ->
  gmap g (gen_of_list l) = gen_of_list (map h l).
Proof.
  induction 1 as [|x l Hx _ IH]; simpl; [reflexivity|].
  rewrite Hx, IH. reflexivity.
Qed.

(** X8: without GROUP BY, calling the query raises [ValueError] at once
    when a projection field is not scalar; otherwise the rows are the
    tuples of projection values of the records whose WHERE value is true,
    in input order. *)
Theorem ungrouped_query_filters_then_projects `{Host}
    (q : SelectQuery) (objects : list value)
    (keep : value -> bool) (row : value -> list value) :
  group_by q = None ->
  (forallb _is_mapper (fields q) = false ->
   exists msg, SelectQuery.__call__ q objects = Raise (ValueError msg)) /\
  (forallb _is_mapper (fields q) = true ->
   Forall (fun ob => match where_ q with
                     | Some w => exists v, __call__ w ob = Ok v /\ truthy v = keep ob
                     | None => keep ob = true
                     end) objects ->
   Forall (fun ob => keep ob = true ->
                     mapM (fun f => __call__ f ob) (fields q) = Ok (row ob)) objects ->
   SelectQuery.__call__ q objects
   = Ok (mkSelectResult
           (SelectQuery._returning q
              (SelectQuery._distinct q
                 (SelectQuery._flatten q
                    (gen_of_list (map (fun ob => VTuple (row ob)) (filter keep objects))))))
           q)).
Proof.
  intros Hgb. split.
  - intros Hagg. unfold SelectQuery.__call__. rewrite Hgb, Hagg. eexists. reflexivity.
  - intros Hmap Hkeep Hrow. unfold SelectQuery.__call__. rewrite Hgb, Hmap. cbn [bind].
    do 5 f_equal.
    assert (Hwhere : SelectQuery._where q (gen_of_list objects)
                     = gen_of_list (filter keep objects)).
    { unfold SelectQuery._where. destruct (where_ q) as [w|].
      - apply gfilter_of_list. exact Hkeep.
      - f_equal. symmetry. apply forallb_filter_id.
        apply forallb_forall. rewrite Forall_forall in Hkeep. exact Hkeep. }
    rewrite Hwhere. unfold SelectQuery._select. apply gmap_of_list.
    apply Forall_forall. intros ob Hob. apply filter_In in Hob. destruct Hob as [Hin Hk].
    rewrite Forall_forall in Hrow. rewrite mapM_map.
    rewrite (Hrow ob Hin Hk). reflexivity.
Qed.

Lemma ungrouped_query_filters_then_projects_witness :
  (r <- SelectQuery.__call__
          (mkSelectQuery [AttrField "x"; AttrField "y"] false false
             (Some (Field.__gt__ (AttrField "y") (VInt 2))) None None)
          three_points ;;
   SelectResult.list r)
  = Ok [VTuple [VInt 1; VInt 5]; VTuple [VInt 2; VInt 10]].
Proof.
  rewrite (proj2 (@ungrouped_query_filters_then_projects bare_host
             (mkSelectQuery [AttrField "x"; AttrField "y"] false false
                (Some (Field.__gt__ (AttrField "y") (VInt 2))) None None)
             three_points
             (fun ob => match __call__ (Field.__gt__ (AttrField "y") (VInt 2)) ob with
                        | Ok v => truthy v
                        | Raise _ => false
                        end)
             (fun ob => match mapM (fun f => __call__ f ob) [AttrField "x"; AttrField "y"] with
                        | Ok vs => vs
                        | Raise _ => []
                        end)
             eq_refl) eq_refl).
  - reflexivity.
  - repeat constructor; eexists; split; reflexivity.
  - repeat constructor.
Defined.



(* ------------------------------------------------------------------ *)
(** ** Execution with GROUP BY: failures and the empty grouping list *)
(* ------------------------------------------------------------------ *)




Lemma sorted_same_key (pairs : list KeyValuePair) :
  Forall (fun p => KeyValuePair.key p = VTuple []) pairs ->
  sorted KeyValuePair.key pairs = Ok pairs.
Proof.
  induction 1 as [|p pairs Hp Hall IH]; [reflexivity|].
  cbn [sorted]. rewrite IH. cbn [bind].
  destruct Hall as [|p' pairs Hp' _]; [reflexivity|].
  cbn [insert_sorted]. rewrite Hp, Hp'. reflexivity.
Qed.

Lemma groupby_from_same_key (pairs : list KeyValuePair) :
  Forall (fun p => KeyValuePair.key p = VTuple []) pairs ->
  groupby_from KeyValuePair.key (VTuple []) pairs = (pairs, []).
Proof.
  induction 1 as [|p pairs Hp _ IH]; [reflexivity|].
  cbn [groupby_from]. rewrite Hp, IH. reflexivity.
Qed.

Lemma pairs_of_unit_keys (recs : list value) :
  Forall (fun p => KeyValuePair.key p = VTuple [])
         (map (fun kv => mkKeyValuePair (fst kv) (snd kv))
              (combine (map (fun _ => VTuple []) recs) recs)) /\
  map KeyValuePair.value
      (map (fun kv => mkKeyValuePair (fst kv) (snd kv))
           (combine (map (fun _ => VTuple []) recs) recs)) = recs.
Proof.
  induction recs as [|r recs [IHk IHv]]; split; try reflexivity.
  - constructor.
  - constructor; [reflexivity | exact IHk].
  - simpl. f_equal. exact IHv.
Qed.

(** X11: with an empty GROUP BY list the records that pass WHERE form one
    group with key [()], in input order, and the query has one row; when
    no record passes there is no group and no row. *)
Theorem group_by_nothing_makes_one_group `{Host}
    (q : SelectQuery) (objects recs : list value) :
  group_by q = Some [] ->
  list_of_gen (SelectQuery._where q (gen_of_list objects)) = Ok recs ->
  SelectQuery._group q (SelectQuery._where q (gen_of_list objects))
  = gen_of_list match recs with
                | [] => []
                | _ => [mkKeyValuePair (VTuple []) (VList recs)]
                end /\
  (recs = [] -> grouped_rows q (SelectQuery._where q (gen_of_list objects)) = Stop) /\
  (recs <> [] ->
   grouped_rows q (SelectQuery._where q (gen_of_list objects))
   = gmap (row_of q []) (gen_of_list [(VTuple [], recs)])).
Proof.
  intros Hgb Hrecs.
  assert (Hgroup : SelectQuery._group q (SelectQuery._where q (gen_of_list objects))
                   = gen_of_list match recs with
                                 | [] => []
                                 | _ => [mkKeyValuePair (VTuple []) (VList recs)]
                                 end).
  { unfold SelectQuery._group. rewrite Hrecs, Hgb. cbn [bind].
    rewrite group_keys_computed.
    assert (Hkeys : mapM (group_key []) recs = Ok (map (fun _ => VTuple []) recs)).
    { clear. induction recs as [|r recs IH]; [reflexivity|].
      rewrite mapM_cons, IH. reflexivity. }
    rewrite Hkeys. cbn [bind].
    destruct (pairs_of_unit_keys recs) as [Hall Hvals].
    remember (map (fun kv => mkKeyValuePair (fst kv) (snd kv))
                  (combine (map (fun _ => VTuple []) recs) recs)) as pairs eqn:Hpairs.
    rewrite (sorted_same_key pairs Hall). cbn [bind]. f_equal.
    destruct pairs as [|p pairs'].
    - destruct recs; [reflexivity | discriminate].
    - pose proof (Forall_inv Hall) as Hkey. pose proof (Forall_inv_tail Hall) as Hall'.
      cbn beta in Hkey. cbn [groupby]. rewrite Hkey, (groupby_from_same_key pairs' Hall').
      cbn [map fst snd]. cbn [map] in Hvals. rewrite Hvals.
      destruct recs; [discriminate | reflexivity]. }
  split; [exact Hgroup|]. split.
  - intros ->. unfold grouped_rows. rewrite Hgroup. reflexivity.
  - intros Hne. unfold grouped_rows. rewrite Hgroup.
    destruct recs as [|r recs']; [congruence|].
    unfold SelectQuery._select. cbn [gen_of_list gmap].
    unfold row_of. cbn [fst snd]. rewrite mapM_map.
    rewrite (mapM_ext_in _ (row_value [] (VTuple []) (r :: recs'))); [reflexivity|].
    intros sf _.
    apply (make_group_by_field_row_value q [] [] (r :: recs') sf Hgb eq_refl).
Qed.

Lemma group_by_nothing_makes_one_group_witness :
  (r <- SelectQuery.__call__
          (mkSelectQuery [AggregateFunctionField F_len [IdentityField] "count"]
             false false None (Some []) None) three_points ;;
   SelectResult.list r) = Ok [VTuple [VInt 3]] /\
  (r <- SelectQuery.__call__
          (mkSelectQuery [AggregateFunctionField F_len [IdentityField] "count"]
             false false None (Some []) None) [] ;;
   SelectResult.list r) = Ok [].
Proof.
  pose (q := mkSelectQuery [AggregateFunctionField F_len [IdentityField] "count"]
               false false None (Some []) None).
  destruct (@group_by_nothing_makes_one_group bare_host q three_points three_points
              eq_refl eq_refl) as [_ [_ Hone]].
  destruct (@group_by_nothing_makes_one_group bare_host q [] [] eq_refl eq_refl)
    as [_ [Hnone _]].
  split.
  - change (list_of_gen (grouped_rows q (SelectQuery._where q (gen_of_list three_points)))
            = Ok [VTuple [VInt 3]]).
    rewrite Hone by discriminate. reflexivity.
  - change (list_of_gen (grouped_rows q (SelectQuery._where q (gen_of_list [])))
            = Ok []).
    rewrite Hnone by reflexivity. reflexivity.
Defined.

(* ------------------------------------------------------------------ *)
(** ** The function registry *)
(* ------------------------------------------------------------------ *)


Lemma lookup_name (name : string) (entries : list (string * wrapped)) (w : wrapped) :
  Forall (fun e => wrapped_name (snd e) = fst e /\ fst e <> EmptyString) entries ->
  FunctionsRegistry.lookup name entries = Some w ->
  wrapped_name w = name /\ name <> EmptyString.
Proof.
  induction 1 as [|[n w'] entries [Hn Hne] _ IH]; intros Hl; [discriminate|].
  cbn [FunctionsRegistry.lookup] in Hl. cbn [fst snd] in Hn, Hne.
  destruct (String.eqb_spec n name) as [<-|_].
  - injection Hl as <-. split; assumption.
  - apply IH. exact Hl.
Qed.

Lemma registry_names : 
  Forall (fun e => wrapped_name (snd e) = fst e /\ fst e <> EmptyString) (_funcs f).
Proof. repeat constructor; discriminate. Qed.

(** X13: calling a name that functions.py has not registered raises
    [NameError]; a registered name builds a function node or an aggregate
    node over the coerced arguments that prints as the name followed by
    the printed arguments in parentheses. *)
Theorem registered_functions_print_their_registry_name `{Host}
    (name : string) (args : list value) :
  (FunctionsRegistry.get f name = None ->
   exists msg, f_call name args = Raise (NameError msg)) /\
  (forall fld : field,
      f_call name args = Ok fld ->
      (exists fn, fld = FunctionField fn (to_fields args) name
                  \/ fld = AggregateFunctionField fn (to_fields args) name) /\
      __str__ fld
      = name ++ "(" ++ String.concat ", " (map __str__ (to_fields args)) ++ ")").
Proof.
  split.
  - intros Hnone. unfold f_call. rewrite Hnone. eexists. reflexivity.
  - intros fld Hcall. unfold f_call in Hcall.
    destruct (FunctionsRegistry.get f name) as [w|] eqn:Hget; [|discriminate].
    destruct (lookup_name name (_funcs f) w registry_names Hget) as [Hname Hne].
    assert (Hor : forall fn, name_or name fn = name).
    { intros fn. destruct name; [congruence | reflexivity]. }
    destruct w as [fn n | fn n]; cbn [wrapped_name] in Hname; subst n;
      cbn [call_wrapped] in Hcall.
    + injection Hcall as <-. rewrite Hor. split; [exists fn; left; reflexivity|].
      reflexivity.
    + unfold AggregateFunctionField.__init__ in Hcall.
      destruct (forallb _is_mapper (to_fields args)); [|discriminate].
      injection Hcall as <-. rewrite Hor. split; [exists fn; right; reflexivity|].
      reflexivity.
Qed.

Lemma registered_functions_print_their_registry_name_witness :
  __str__ (AggregateFunctionField F_len [AttrField "name"] "count") = "count(o.name)".
Proof.
  destruct (@registered_functions_print_their_registry_name bare_host
              "count" [VField (AttrField "name")]) as [_ Hok].
  apply (Hok (AggregateFunctionField F_len [AttrField "name"] "count")). reflexivity.
Defined.

(* ------------------------------------------------------------------ *)
(** ** Queries returned by the parser *)
(* ------------------------------------------------------------------ *)

Lemma okr_and {A : Type} (P Q : A -> Prop) (r : result A) :
  okr P r -> okr Q r -> okr (fun a => P a /\ Q a) r.
Proof. destruct r; simpl; auto. Qed.

Lemma fexprs_more_nonempty (n : nat) :
  forall (items : list value) (ts : list token),
    items <> [] -> okr (fun p => fst p <> []) (fexprs_more n items ts).
Proof.
  induction n as [|n IH]; intros items ts Hitems; [exact I|].
  cbn [fexprs_more].
  destruct (next_is_error ts); [exact I|].
  destruct (next_is_lit "," ts); [|exact Hitems].
  destruct (next_is_error (tl ts)); [exact I|].
  destruct (starts_fexpr (tl ts)); [|exact Hitems].
  destruct (parse_fexpr n (tl ts)) as [[e ts1]|err]; [|exact I].
  cbn [bind]. apply IH. destruct items; discriminate.
Qed.

Lemma fexprs_tail_nonempty (n : nat) (e1 : value) (ts : list token) :
  okr (fun p => fst p <> []) (fexprs_tail n e1 ts).
Proof.
  destruct n as [|n]; [exact I|]. cbn [fexprs_tail].
  destruct (next_is_error ts); [exact I|].
  destruct (starts_fexpr ts); [|discriminate].
  destruct (parse_fexpr n ts) as [[e2 ts1]|err]; [|exact I].
  cbn [bind]. apply fexprs_more_nonempty. discriminate.
Qed.

Lemma parse_fexprplus_nonempty (n : nat) (ts : list token) :
  okr (fun p => plus_ok (fst p) /\ forall items, fst p = VList items -> items <> [])
      (parse_fexprplus n ts).
Proof.
  apply okr_and; [apply parse_fexprplus_ok|].
  pose proof (parser_inv_holds n) as [Hfexpr _].
  unfold parse_fexprplus. specialize (Hfexpr ts).
  destruct (parse_fexpr n ts) as [[e1 ts1]|err]; [|exact I].
  cbn [bind]. unfold parsed_ok in Hfexpr. cbn [okr fst] in Hfexpr.
  destruct (next_is_lit "," ts1).
  - pose proof (fexprs_tail_nonempty n e1 (tl ts1)) as Htail.
    destruct (fexprs_tail n e1 (tl ts1)) as [[items ts2]|err]; [|exact I].
    cbn [bind okr fst] in *. intros items' Heq. injection Heq as <-. exact Htail.
  - cbn [okr fst]. intros items ->. contradiction.
Qed.

Lemma select_validated (v : value) :
  plus_ok v -> (forall items, v = VList items -> items <> []) ->
  validated (SELECT [v]) /\ where_ (SELECT [v]) = None /\
  group_by (SELECT [v]) = None /\ return_type (SELECT [v]) = None.
Proof.
  intros Hplus Hne.
  assert (Hq : fields (SELECT [v]) <> [] /\
               (flatten (SELECT [v]) = true -> List.length (fields (SELECT [v])) = 1)).
  { destruct Hplus as [Hv | [items [-> _]]].
    - destruct v; try contradiction; split; try discriminate; reflexivity.
    - specialize (Hne items eq_refl). split; [|discriminate].
      destruct items; [congruence | discriminate]. }
  destruct Hq as [Hf Hflat].
  assert (Hnone : where_ (SELECT [v]) = None /\ group_by (SELECT [v]) = None /\
                  return_type (SELECT [v]) = None).
  { destruct v; repeat split. }
  destruct Hnone as [Hw [Hg Hr]].
  split; [|repeat split; assumption].
  unfold validated. rewrite Hw, Hg, Hr.
  split; [exact Hf|]. split; [exact Hflat|]. repeat split; discriminate.
Qed.

Lemma group_by_validated (q : SelectQuery) (args : list value) (q' : SelectQuery) :
  SelectQuery.GROUP_BY q args = Ok q' ->
  q' = mkSelectQuery (fields q) (flatten q) (distinct q) (where_ q)
         (Some (to_fields args)) (return_type q) /\
  forallb _is_mapper (to_fields args) = true /\
  Forall (fun select_field =>
            field_index select_field (to_fields args) <> None
            \/ _is_aggregator select_field = true) (fields q).
Proof.
  unfold SelectQuery.GROUP_BY. intros Hg.
  destruct (forallb _is_mapper (to_fields args)); [|discriminate]. cbn [negb] in Hg.
  match type of Hg with
  | (if ?c then _ else _) = _ => destruct c eqn:Hall; [|discriminate]
  end.
  injection Hg as <-. split; [reflexivity|]. split; [reflexivity|].
  apply Forall_forall. intros sf Hsf. rewrite forallb_forall in Hall.
  specialize (Hall sf Hsf).
  destruct (field_index sf (to_fields args)); [left; discriminate | right; exact Hall].
Qed.

Lemma p_statement_validated (distinct : bool) (fexprplus where_v : value)
    (groupby : option (list value)) (returning : option string) :
  plus_ok fexprplus -> (forall items, fexprplus = VList items -> items <> []) ->
  (forall g, groupby = Some g -> g <> []) ->
  (forall t, returning = Some t -> In t _return_types) ->
  okr validated (p_statement distinct fexprplus where_v groupby returning).
Proof.
  intros Hplus Hne Hgroup Hret. unfold p_statement.
  destruct (select_validated fexprplus Hplus Hne) as [Hsel [Hw0 [Hg0 Hr0]]].
  set (s0 := if distinct then SelectQuery.DISTINCT (SELECT [fexprplus])
             else SELECT [fexprplus]).
  assert (Hs0 : validated s0 /\ group_by s0 = None /\ return_type s0 = None).
  { unfold s0. destruct distinct; exact (conj Hsel (conj Hg0 Hr0)). }
  clearbody s0. destruct Hs0 as [Hv0 [Hgn Hrn]].
  eapply okr_bind with (P := fun s => validated s /\ group_by s = None /\ return_type s = None).
  { destruct where_v as [| | | | | | | |w0]; try exact I; [exact (conj Hv0 (conj Hgn Hrn))|].
    unfold SelectQuery.WHERE. destruct (_is_mapper w0) eqn:Hm; [|exact I].
    destruct Hv0 as [Hf [Hfl [Hw [Hg Hr]]]].
    cbn [okr]. split; [|split; [exact Hgn | exact Hrn]].
    unfold validated. cbn. split; [exact Hf|]. split; [exact Hfl|].
    split; [intros w Hwq; injection Hwq as <-; exact Hm|].
    split; [exact Hg | exact Hr]. }
  intros s1 [Hv1 [Hg1 Hr1]].
  eapply okr_bind with (P := fun s => validated s /\ return_type s = None).
  { destruct groupby as [g|]; [|exact (conj Hv1 Hr1)].
    destruct (SelectQuery.GROUP_BY s1 g) as [s2|] eqn:Hgb; [|exact I].
    destruct (group_by_validated s1 g s2 Hgb) as [-> [Hmap Hall]].
    destruct Hv1 as [Hf [Hfl [Hw [_ Hr]]]].
    cbn [okr]. split; [|exact Hr1].
    unfold validated. cbn. split; [exact Hf|]. split; [exact Hfl|].
    split; [exact Hw|]. split; [|exact Hr].
    intros g' Hg'. injection Hg' as <-. split; [|split; assumption].
    specialize (Hgroup g eq_refl). destruct g; [congruence | discriminate]. }
  intros s2 [Hv2 Hr2]. destruct returning as [t|]; [|exact Hv2].
  destruct Hv2 as [Hf [Hfl [Hw [Hg Hr]]]].
  cbn [okr]. unfold validated. cbn.
  split; [exact Hf|]. split; [discriminate|]. split; [exact Hw|]. split; [exact Hg|].
  intros t' Ht'. injection Ht' as <-. split; [|reflexivity]. apply Hret. reflexivity.
Qed.

Lemma p_groupby_1_nonempty (v : value) :
  (forall items, v = VList items -> items <> []) -> p_groupby_1 v <> [].
Proof.
  intros Hne. destruct v; try discriminate. simpl. apply Hne. reflexivity.
Qed.

(** X14: a query the parser returns has passed the checks of the builder
    methods: it has a projection field, exactly one when it flattens; its
    WHERE condition is scalar; its GROUP BY fields are scalar, there is
    one at least, and every projection field is one of them or an
    aggregate; its return type is a registered one and then it does not
    flatten. *)
Theorem parsed_queries_are_validated (text : string) (q : SelectQuery) :
  parse text = Ok q -> validated q.
Proof.
  intros Hq.
  assert (Hok : okr validated (parse text)); [|rewrite Hq in Hok; exact Hok].
  clear Hq q.
  unfold parse. generalize (20 * (List.length (lex text) + 1)) as n.
  generalize (lex text) as ts. intros ts n.
  unfold parse_statement.
  eapply okr_bind; [apply parse_fexprplus_nonempty|].
  intros [fexprplus ts1] [Hplus Hne]. cbn [fst] in Hplus, Hne.
  eapply okr_bind with (P := fun _ => True).
  { destruct (next_is_kw "WHERE" ts1); [|exact I].
    destruct (parse_fexpr n (tl ts1)); exact I. }
  intros [where_v ts2] _.
  eapply okr_bind with (P := fun p => forall g, fst p = Some g -> g <> []).
  { destruct (next_is_kw "GROUP" ts2); [|intros g Hg; discriminate].
    destruct (next_is_kw "BY" (tl ts2)); [|apply okr_unexpected].
    eapply okr_bind; [apply parse_fexprplus_nonempty|].
    intros [g ts'] [_ Hg] g' Hg'. cbn [fst] in *. injection Hg' as <-.
    apply p_groupby_1_nonempty. exact Hg. }
  intros [groupby ts3] Hgroup. cbn [fst] in Hgroup.
  eapply okr_bind with (P := fun p => forall t, fst p = Some t -> In t _return_types).
  { destruct (next_is_kw "RETURNING" ts3); [|intros t Ht; discriminate].
    destruct (tl ts3) as [|[] ?]; try apply okr_unexpected.
    unfold p_returning_1.
    destruct (mem_string name _return_types) eqn:Hmem; [|exact I].
    cbn [bind okr fst]. intros t Ht. injection Ht as <-.
    unfold mem_string in Hmem. apply existsb_exists in Hmem.
    destruct Hmem as [x [Hx Heq]]. apply String.eqb_eq in Heq. subst x. exact Hx. }
  intros [returning ts4] Hret. cbn [fst] in Hret.
  destruct ts4; [|apply okr_unexpected].
  apply p_statement_validated; assumption.
Qed.

Lemma parsed_queries_are_validated_witness :
  validated sum_y_by_x.
Proof.
  apply (parsed_queries_are_validated ("SELECT o.x, sum(o.y)" ++ nl ++ "GROUP BY o.x")).
  vm_compute. reflexivity.
Defined.

(* ------------------------------------------------------------------ *)
(** ** The lexer: every rule consumes input *)
(* ------------------------------------------------------------------ *)

Lemma span_length (p : ascii -> bool) (s a b : string) :
  span p s = (a, b) -> String.length a + String.length b = String.length s.
Proof.
  revert a b. induction s as [|c s IH]; intros a b Hs; simpl in Hs.
  - injection Hs as <- <-. reflexivity.
  - destruct (p c).
    + destruct (span p s) as [a' b'] eqn:Hsp. injection Hs as <- <-.
      simpl. rewrite <- (IH a' b' eq_refl). lia.
    + injection Hs as <- <-. reflexivity.
Qed.

Lemma take_sign_length (s sg s' : string) :
  take_sign s = (sg, s') -> String.length sg + String.length s' = String.length s.
Proof.
  unfold take_sign. destruct s as [|c s0]; intros Hs.
  - injection Hs as <- <-. reflexivity.
  - destruct (char_in "+-" c); injection Hs as <- <-; reflexivity.
Qed.

Lemma scan_str_length_upto (n : nat) :
  forall s body rest : string,
    String.length s <= n ->
    scan_str s = Some (body, rest) ->
    String.length body + 1 + String.length rest = String.length s.
Proof.
  induction n as [|n IH]; intros s body rest Hn Hs.
  - destruct s; [discriminate | simpl in Hn; lia].
  - destruct s as [|c s']; [discriminate|]. simpl in Hs, Hn.
    destruct (Ascii.eqb c squote).
    + injection Hs as <- <-. simpl. lia.
    + destruct (Ascii.eqb c backslash).
      * destruct s' as [|d s'']; [discriminate|].
        destruct (Ascii.eqb d backslash || Ascii.eqb d squote); [|discriminate].
        destruct (scan_str s'') as [[body' rest']|] eqn:Hrec; [|discriminate].
        injection Hs as <- <-. simpl in Hn |- *.
        assert (Hlen : String.length s'' <= n) by lia.
        specialize (IH s'' body' rest' Hlen Hrec). lia.
      * destruct (scan_str s') as [[body' rest']|] eqn:Hrec; [|discriminate].
        injection Hs as <- <-. simpl.
        assert (Hlen : String.length s' <= n) by lia.
        specialize (IH s' body' rest' Hlen Hrec). lia.
Qed.

Lemma scan_str_length (s body rest : string) :
  scan_str s = Some (body, rest) ->
  String.length body + 1 + String.length rest = String.length s.
Proof. apply (scan_str_length_upto (String.length s)). lia. Qed.

Lemma nonzero_digit_is_digit (c : ascii) : is_nonzero_digit c = true -> is_digit c = true.
Proof. destruct c as [[] [] [] [] [] [] [] []]; intros Hc; try discriminate; reflexivity. Qed.

Lemma match_exponent_length (s ex rest : string) :
  match_exponent s = Some (ex, rest) -> String.length rest < String.length s.
Proof.
  unfold match_exponent. destruct s as [|e s1]; [discriminate|].
  destruct (char_in "eE" e); [|discriminate].
  destruct (take_sign s1) as [sg s2] eqn:Hsg.
  destruct (span is_digit s2) as [ds s3] eqn:Hds.
  destruct (String.eqb ds ""); [discriminate|]. intros Hs. injection Hs as _ <-.
  apply take_sign_length in Hsg. apply span_length in Hds. simpl. lia.
Qed.

Lemma match_float_length (s text rest : string) :
  match_float s = Some (text, rest) -> String.length rest < String.length s.
Proof.
  unfold match_float.
  destruct (take_sign s) as [sg s1] eqn:Hsg.
  destruct (span is_digit s1) as [d1 s2] eqn:Hd1.
  apply take_sign_length in Hsg. apply span_length in Hd1.
  destruct s2 as [|c s3].
  - destruct (String.eqb d1 ""); [discriminate|].
    simpl. discriminate.
  - destruct (Ascii.eqb_spec c ".") as [->|Hc].
    + destruct (span is_digit s3) as [d2 s4] eqn:Hd2. apply span_length in Hd2.
      destruct (String.eqb d1 "" && String.eqb d2 ""); [discriminate|].
      destruct (match_exponent s4) as [[ex s5]|] eqn:Hex.
      * apply match_exponent_length in Hex. intros Hs. injection Hs as _ <-.
        simpl in Hd1. lia.
      * intros Hs. injection Hs as _ <-. simpl in Hd1. lia.
    + assert (Hgen : (if String.eqb d1 "" then None
                      else match match_exponent (String c s3) with
                           | Some (ex, s5) => Some (sg ++ d1 ++ ex, s5)
                           | None => None
                           end) = Some (text, rest) ->
                     String.length rest < String.length s).
      { destruct (String.eqb d1 ""); [discriminate|].
        destruct (match_exponent (String c s3)) as [[ex s5]|] eqn:Hex; [|discriminate].
        apply match_exponent_length in Hex. intros Hs. injection Hs as _ <-. lia. }
      destruct c as [[] [] [] [] [] [] [] []]; try exact Hgen.
      exfalso. apply Hc. reflexivity.
Qed.

Lemma match_prefixed_length (markers : string) (digit : ascii -> bool) (base : Z)
    (s : string) (n : Z) (rest : string) :
  match_prefixed markers digit base s = Some (n, rest) ->
  String.length rest < String.length s.
Proof.
  unfold match_prefixed. destruct s as [|c s0]; [discriminate|].
  assert (Hgen : forall m s',
             (if char_in markers m
              then let '(ds, rest0) := span digit s' in
                   if String.eqb ds "" then None else Some (int_of_digits base ds, rest0)
              else None) = Some (n, rest) ->
             String.length rest < S (S (String.length s'))).
  { intros m s'. destruct (char_in markers m); [|discriminate].
    destruct (span digit s') as [ds rest0] eqn:Hds. apply span_length in Hds.
    destruct (String.eqb ds ""); [discriminate|]. intros Hs. injection Hs as _ <-. lia. }
  destruct c as [[] [] [] [] [] [] [] []]; try discriminate.
  destruct s0 as [|m s']; [discriminate|]. apply Hgen.
Qed.

Lemma match_int_length (s : string) (n : Z) (rest : string) :
  match_int s = Some (n, rest) -> String.length rest < String.length s.
Proof.
  unfold match_int.
  destruct (take_sign s) as [sg s1] eqn:Hsg. apply take_sign_length in Hsg.
  destruct s1 as [|c s2]; [discriminate|].
  destruct (is_nonzero_digit c) eqn:Hc.
  - destruct (span is_digit (String c s2)) as [ds rest0] eqn:Hds.
    assert (Hlen : String.length rest0 < String.length (String c s2)).
    { simpl in Hds. rewrite (nonzero_digit_is_digit c Hc) in Hds.
      destruct (span is_digit s2) as [a b] eqn:Hsp. apply span_length in Hsp.
      injection Hds as _ <-. simpl. lia. }
    intros Hs. injection Hs as _ <-. lia.
  - destruct (match_prefixed "bB" is_bin 2 (String c s2)) as [[n1 r1]|] eqn:H1.
    { apply match_prefixed_length in H1. intros Hs. injection Hs as _ <-. lia. }
    destruct (match_prefixed "oO" is_oct 8 (String c s2)) as [[n2 r2]|] eqn:H2.
    { apply match_prefixed_length in H2. intros Hs. injection Hs as _ <-. lia. }
    destruct (match_prefixed "xX" is_hex 16 (String c s2)) as [[n3 r3]|] eqn:H3.
    { apply match_prefixed_length in H3. intros Hs. injection Hs as _ <-. lia. }
    destruct c as [[] [] [] [] [] [] [] []]; try discriminate.
    intros Hs. injection Hs as _ <-. simpl in Hsg |- *. lia.
Qed.

Lemma match_compare_length (s op rest : string) :
  match_compare s = Some (op, rest) -> String.length rest < String.length s.
Proof.
  destruct s as [|c s']; [discriminate|].
  destruct c as [[] [] [] [] [] [] [] []]; try discriminate;
    destruct s' as [|d s'']; try discriminate;
    try (intros Hs; injection Hs as _ <-; simpl; lia);
    destruct d as [[] [] [] [] [] [] [] []]; try discriminate;
    intros Hs; injection Hs as _ <-; simpl; lia.
Qed.

Lemma ident_start_is_ident_char (c : ascii) :
  is_ident_start c = true -> is_ident_char c = true.
Proof. intros Hc. unfold is_ident_char. rewrite Hc. reflexivity. Qed.

Lemma lex_one_shorter (s : string) (t : option token) (rest : string) :
  lex_one s = Some (t, rest) -> String.length rest < String.length s.
Proof.
  unfold lex_one. destruct s as [|c s']; [discriminate|].
  destruct (is_ident_start c) eqn:Hid.
  { cbn [span]. rewrite (ident_start_is_ident_char c Hid).
    destruct (span is_ident_char s') as [a b] eqn:Hsp. apply span_length in Hsp.
    intros Hs. injection Hs as _ <-. simpl. lia. }
  destruct (if Ascii.eqb c squote then scan_str s' else None) as [[body r]|] eqn:Hstr.
  { destruct (Ascii.eqb c squote); [|discriminate]. apply scan_str_length in Hstr.
    intros Hs. injection Hs as _ <-. simpl. lia. }
  destruct (match_float (String c s')) as [[text r]|] eqn:Hfl.
  { apply match_float_length in Hfl. intros Hs. injection Hs as _ <-. exact Hfl. }
  destruct (match_int (String c s')) as [[n r]|] eqn:Hint.
  { apply match_int_length in Hint. intros Hs. injection Hs as _ <-. exact Hint. }
  destruct (Ascii.eqb_spec c newline) as [->|Hnl].
  { intros Hs. injection Hs as _ <-.
    change (span (Ascii.eqb newline) (String newline s'))
      with (let '(a, b) := span (Ascii.eqb newline) s' in (String newline a, b)).
    destruct (span (Ascii.eqb newline) s') as [a b] eqn:Hsp. apply span_length in Hsp.
    simpl. lia. }
  destruct (match_compare (String c s')) as [[op r]|] eqn:Hcmp.
  { apply match_compare_length in Hcmp. intros Hs. injection Hs as _ <-. exact Hcmp. }
  assert (Hlit : (if char_in literals c then Some (Some (TLit c), s') else None)
                 = Some (t, rest) -> String.length rest < String.length (String c s')).
  { destruct (char_in literals c); [|discriminate].
    intros Hs. injection Hs as _ <-. simpl. lia. }
  destruct c as [[] [] [] [] [] [] [] []]; try exact Hlit.
  destruct s' as [|d s'']; [exact Hlit|].
  destruct d as [[] [] [] [] [] [] [] []]; try exact Hlit.
  intros Hs. injection Hs as _ <-. simpl. lia.
Qed.

Lemma lex_one_not_blank (c : ascii) (s' : string) :
  char_in (String " " (String (ascii_of_nat 9) EmptyString)) c = true ->
  lex_one (String c s') = None.
Proof.
  unfold char_in. cbn [contains_char]. intros Hc.
  destruct (Ascii.eqb_spec c " ") as [->|_]; [reflexivity|].
  destruct (Ascii.eqb_spec c (ascii_of_nat 9)) as [->|_]; [reflexivity|].
  discriminate.
Qed.

(** The number of steps allowed to [lex_fuel] does not matter beyond the
    length of the text. *)
Lemma lex_fuel_enough (n : nat) :
  forall (m : nat) (s : string),
    String.length s < n -> String.length s < m -> lex_fuel n s = lex_fuel m s.
Proof.
  induction n as [|n IH]; intros m s Hn Hm; [lia|].
  destruct m as [|m]; [lia|]. cbn [lex_fuel].
  destruct s as [|c s']; [reflexivity|]. simpl in Hn, Hm.
  destruct (char_in (String " " (String (ascii_of_nat 9) EmptyString)) c).
  - apply IH; lia.
  - destruct (lex_one (String c s')) as [[t rest]|] eqn:Hone; [|reflexivity].
    apply lex_one_shorter in Hone. simpl in Hone.
    destruct t; [f_equal|]; apply IH; lia.
Qed.

Lemma lex_token (s : string) (t : token) (rest : string) :
  lex_one s = Some (Some t, rest) -> lex s = t :: lex rest.
Proof.
  intros Hone. destruct s as [|c s']; [discriminate|].
  unfold lex at 1. cbn [lex_fuel].
  destruct (char_in (String " " (String (ascii_of_nat 9) EmptyString)) c) eqn:Hb.
  { rewrite (lex_one_not_blank c s' Hb) in Hone. discriminate. }
  rewrite Hone. f_equal. apply lex_one_shorter in Hone.
  unfold lex. apply lex_fuel_enough; lia.
Qed.

Lemma lex_ignored (s rest : string) :
  lex_one s = Some (None, rest) -> lex s = lex rest.
Proof.
  intros Hone. destruct s as [|c s']; [discriminate|].
  unfold lex at 1. cbn [lex_fuel].
  destruct (char_in (String " " (String (ascii_of_nat 9) EmptyString)) c) eqn:Hb.
  { rewrite (lex_one_not_blank c s' Hb) in Hone. discriminate. }
  rewrite Hone. apply lex_one_shorter in Hone.
  unfold lex. apply lex_fuel_enough; lia.
Qed.

Lemma lex_blank (s : string) : lex (String " " s) = lex s.
Proof.
  unfold lex at 1. cbn [lex_fuel].
  change (char_in (String " " (String (ascii_of_nat 9) EmptyString)) " ") with true.
  cbn iota. unfold lex. apply lex_fuel_enough; simpl; lia.
Qed.

Lemma lex_error (s : string) :
  stops (fun c => char_in (String " " (String (ascii_of_nat 9) EmptyString)) c) s = true ->
  s <> EmptyString ->
  lex_one s = None -> lex s = [TError s].
Proof.
  intros Hb Hne Hone. unfold lex. destruct s as [|c s']; [congruence|].
  cbn [lex_fuel]. cbn [stops] in Hb. apply negb_true_iff in Hb. rewrite Hb, Hone.
  reflexivity.
Qed.

(* ------------------------------------------------------------------ *)
(** ** The lexer reads back printed literals and names *)
(* ------------------------------------------------------------------ *)

Lemma append_nil_r (s : string) : s ++ "" = s.
Proof. induction s as [|c s IH]; simpl; [|rewrite IH]; reflexivity. Qed.

Lemma append_assoc (a b c : string) : (a ++ b) ++ c = a ++ (b ++ c).
Proof. induction a as [|x a IH]; simpl; [|rewrite IH]; reflexivity. Qed.

Lemma span_all (p : ascii -> bool) (a rest : string) :
  all_chars p a = true -> stops p rest = true -> span p (a ++ rest) = (a, rest).
Proof.
  intros Ha Hrest. induction a as [|c a IH]; simpl in *.
  - destruct rest as [|c rest']; [reflexivity|].
    simpl in Hrest. apply negb_true_iff in Hrest. simpl. rewrite Hrest. reflexivity.
  - apply andb_true_iff in Ha. destruct Ha as [Hc Ha]. rewrite Hc, (IH Ha). reflexivity.
Qed.

Lemma string_of_uint_digits (d : Decimal.uint) :
  all_chars is_digit (NilEmpty.string_of_uint d) = true.
Proof. induction d; simpl; auto. Qed.

Lemma digits_horner (d : Decimal.uint) :
  forall acc : positive,
    (fix go (acc : Z) (s : string) : Z :=
       match s with
       | EmptyString => acc
       | String c s' => go (acc * 10 + digit_value c)%Z s'
       end) (Zpos acc) (NilEmpty.string_of_uint d)
    = Zpos (Pos.of_uint_acc d acc).
Proof.
  induction d as [| d IH | d IH | d IH | d IH | d IH | d IH | d IH | d IH | d IH | d IH];
    intros acc; cbn [NilEmpty.string_of_uint Pos.of_uint_acc]; [reflexivity| ..];
    rewrite <- IH; f_equal;
    match goal with
    | |- context [digit_value ?c] =>
        let v := eval vm_compute in (digit_value c) in
        change (digit_value c) with v
    end; lia.
Qed.

Lemma to_uint_head (p : positive) :
  match Pos.to_uint p with
  | Decimal.Nil | Decimal.D0 _ => False
  | _ => True
  end.
Proof.
  pose proof (DecimalPos.Unsigned.to_of (Pos.to_uint p)) as Hnorm.
  rewrite DecimalPos.Unsigned.of_to in Hnorm. cbn [N.to_uint] in Hnorm.
  pose proof (DecimalPos.Unsigned.to_uint_nonzero p) as Hnz.
  pose proof (DecimalPos.Unsigned.to_uint_nonnil p) as Hnn.
  destruct (Pos.to_uint p) as [|u| | | | | | | | |] eqn:Hd; try exact I; [congruence|].
  unfold Decimal.unorm in Hnorm.
  destruct (Decimal.nzhead (Decimal.D0 u)) as [|u'| | | | | | | | |] eqn:Hh;
    try discriminate.
  - congruence.
  - exfalso. exact (DecimalFacts.nzhead_nonzero _ _ Hh).
Qed.

Lemma to_uint_string (p : positive) :
  exists (c : ascii) (ds : string),
    NilEmpty.string_of_uint (Pos.to_uint p) = String c ds /\
    NilZero.string_of_uint (Pos.to_uint p) = String c ds /\
    is_nonzero_digit c = true /\
    all_chars is_digit ds = true /\
    int_of_digits 10 (String c ds) = Zpos p.
Proof.
  pose proof (to_uint_head p) as Hhead.
  pose proof (DecimalPos.Unsigned.of_to p) as Hof.
  destruct (Pos.to_uint p) as [|u|u|u|u|u|u|u|u|u|u]; try contradiction;
    cbn [Pos.of_uint] in Hof; injection Hof as Hof;
    eexists; exists (NilEmpty.string_of_uint u);
    (split; [reflexivity|]); (split; [reflexivity|]); (split; [reflexivity|]);
    (split; [apply string_of_uint_digits|]);
    unfold int_of_digits; rewrite <- Hof; apply (digits_horner u).
Qed.

Lemma digit_char (c : ascii) :
  is_digit c = true ->
  is_ident_start c = false /\ Ascii.eqb c squote = false /\ char_in "+-" c = false.
Proof.
  destruct c as [[] [] [] [] [] [] [] []]; intros Hc; try discriminate; repeat split.
Qed.

Lemma match_exponent_stops (rest : string) :
  ends_number rest = true -> match_exponent rest = None.
Proof.
  destruct rest as [|c rest']; [reflexivity|]. unfold ends_number. cbn [stops].
  intros Hstop. unfold match_exponent.
  destruct (char_in "eE" c) eqn:He; [|reflexivity].
  unfold char_in in He. cbn [contains_char] in He.
  destruct (Ascii.eqb_spec c "e") as [->|_]; [discriminate|].
  destruct (Ascii.eqb_spec c "E") as [->|_]; discriminate.
Qed.

Lemma match_float_after_digits (s sg s1 d1 rest : string) :
  take_sign s = (sg, s1) -> span is_digit s1 = (d1, rest) ->
  d1 <> EmptyString -> ends_number rest = true ->
  match_float s = None.
Proof.
  intros Hsg Hspan Hd1 Hstop. unfold match_float. rewrite Hsg, Hspan.
  assert (Hgen : (if String.eqb d1 "" then None
                  else match match_exponent rest with
                       | Some (ex, s5) => Some (sg ++ d1 ++ ex, s5)
                       | None => None
                       end) = None).
  { rewrite (match_exponent_stops rest Hstop). destruct (String.eqb d1 ""); reflexivity. }
  destruct rest as [|c rest']; [exact Hgen|].
  destruct c as [[] [] [] [] [] [] [] []]; try exact Hgen.
  discriminate.
Qed.

Lemma match_float_digits (c : ascii) (ds rest : string) :
  is_digit c = true -> all_chars is_digit ds = true -> ends_number rest = true ->
  match_float (String c ds ++ rest) = None /\
  match_float (String "-" (String c ds ++ rest)) = None.
Proof.
  intros Hc Hds Hstop.
  assert (Hstop' : stops is_digit rest = true).
  { destruct rest as [|c0 rest']; [reflexivity|]. unfold ends_number in Hstop.
    cbn [stops] in *. apply negb_true_iff in Hstop. apply orb_false_iff in Hstop.
    destruct Hstop as [Hid _]. unfold is_ident_char in Hid.
    apply orb_false_iff in Hid. destruct Hid as [_ Hdig].
    apply negb_true_iff. exact Hdig. }
  assert (Hspan : span is_digit (String c ds ++ rest) = (String c ds, rest)).
  { apply span_all; [|exact Hstop']. cbn [all_chars]. rewrite Hc, Hds. reflexivity. }
  destruct (digit_char c Hc) as [_ [_ Hsign]].
  split.
  - assert (Hts : take_sign (String c ds ++ rest) = (EmptyString, String c ds ++ rest)).
    { cbn [append take_sign]. rewrite Hsign. reflexivity. }
    apply (match_float_after_digits _ _ _ _ _ Hts Hspan); [discriminate | exact Hstop].
  - assert (Hts : take_sign (String "-" (String c ds ++ rest))
                  = ("-", String c ds ++ rest)) by reflexivity.
    apply (match_float_after_digits _ _ _ _ _ Hts Hspan); [discriminate | exact Hstop].
Qed.

Lemma match_int_digits (c : ascii) (ds rest : string) :
  is_nonzero_digit c = true -> all_chars is_digit ds = true -> ends_number rest = true ->
  match_int (String c ds ++ rest) = Some (int_of_digits 10 (String c ds), rest) /\
  match_int (String "-" (String c ds ++ rest))
  = Some ((- int_of_digits 10 (String c ds))%Z, rest).
Proof.
  intros Hc Hds Hstop.
  pose proof (nonzero_digit_is_digit c Hc) as Hdig.
  assert (Hstop' : stops is_digit rest = true).
  { destruct rest as [|c0 rest']; [reflexivity|]. unfold ends_number in Hstop.
    cbn [stops] in *. apply negb_true_iff in Hstop. apply orb_false_iff in Hstop.
    destruct Hstop as [Hid _]. unfold is_ident_char in Hid.
    apply orb_false_iff in Hid. destruct Hid as [_ Hd].
    apply negb_true_iff. exact Hd. }
  assert (Hspan : span is_digit (String c ds ++ rest) = (String c ds, rest)).
  { apply span_all; [|exact Hstop']. cbn [all_chars]. rewrite Hdig, Hds. reflexivity. }
  destruct (digit_char c Hdig) as [_ [_ Hsign]].
  split; unfold match_int.
  - assert (Hts : take_sign (String c ds ++ rest) = (EmptyString, String c ds ++ rest)).
    { cbn [append take_sign]. rewrite Hsign. reflexivity. }
    rewrite Hts. cbn [append]. rewrite Hc.
    change (String c (ds ++ rest)) with (String c ds ++ rest). rewrite Hspan.
    cbn [String.eqb]. f_equal; f_equal; try lia.
  - assert (Hts : take_sign (String "-" (String c ds ++ rest))
                  = ("-", String c ds ++ rest)) by reflexivity.
    rewrite Hts. cbn [append]. rewrite Hc.
    change (String c (ds ++ rest)) with (String c ds ++ rest). rewrite Hspan.
    change (String.eqb "-" "-") with true. cbn iota. f_equal; f_equal; try lia.
Qed.

Lemma match_prefixed_stops (markers : string) (digit : ascii -> bool) (base : Z)
    (rest : string) :
  all_chars is_ident_char markers = true ->
  ends_number rest = true ->
  match_prefixed markers digit base (String "0" rest) = None.
Proof.
  intros Hmarkers Hstop. unfold match_prefixed.
  destruct rest as [|m s']; [reflexivity|].
  destruct (char_in markers m) eqn:Hm; [|reflexivity].
  exfalso. unfold ends_number in Hstop. cbn [stops] in Hstop.
  apply negb_true_iff in Hstop. apply orb_false_iff in Hstop. destruct Hstop as [Hid _].
  clear -Hmarkers Hm Hid. unfold char_in in Hm.
  induction markers as [|k markers IH]; [discriminate|].
  cbn [all_chars contains_char] in *. apply andb_true_iff in Hmarkers.
  destruct Hmarkers as [Hk Hrest].
  destruct (Ascii.eqb_spec m k) as [->|_]; [congruence|]. apply IH; assumption.
Qed.

Lemma match_zero (rest : string) :
  ends_number rest = true ->
  match_float (String "0" rest) = None /\ match_int (String "0" rest) = Some (0%Z, rest).
Proof.
  intros Hstop. split.
  - apply (proj1 (match_float_digits "0" EmptyString rest eq_refl eq_refl Hstop)).
  - unfold match_int.
    change (take_sign (String "0" rest)) with (EmptyString, String "0" rest).
    cbv beta iota zeta. change (is_nonzero_digit "0") with false. cbv beta iota.
    rewrite !match_prefixed_stops by (reflexivity || exact Hstop).
    reflexivity.
Qed.

(** The printed form of an integer, followed by the end of the text or by
    a character that cannot continue a number, is read as the INT token
    of the integer. *)
Lemma lex_one_int (n : Z) (rest : string) :
  ends_number rest = true ->
  lex_one (py_repr_int n ++ rest) = Some (Some (TInt n), rest).
Proof.
  intros Hstop. unfold py_repr_int. destruct n as [|p|p]; cbn [Z.to_int NilZero.string_of_int].
  - destruct (match_zero rest Hstop) as [Hf Hi].
    change (NilZero.string_of_uint (Decimal.D0 Decimal.Nil) ++ rest) with (String "0" rest).
    unfold lex_one. change (is_ident_start "0") with false. cbn iota.
    change (Ascii.eqb "0" squote) with false. cbn iota. rewrite Hf, Hi. reflexivity.
  - destruct (to_uint_string p) as [c [ds [_ [Hs [Hc [Hds Hval]]]]]]. rewrite Hs.
    pose proof (nonzero_digit_is_digit c Hc) as Hdig.
    destruct (digit_char c Hdig) as [Hid [Hq _]].
    destruct (match_float_digits c ds rest Hdig Hds Hstop) as [Hf _].
    destruct (match_int_digits c ds rest Hc Hds Hstop) as [Hi _].
    unfold lex_one. cbn [append]. rewrite Hid, Hq.
    change (String c (ds ++ rest)) with (String c ds ++ rest).
    rewrite Hf, Hi, Hval. reflexivity.
  - destruct (to_uint_string p) as [c [ds [_ [Hs [Hc [Hds Hval]]]]]]. rewrite Hs.
    pose proof (nonzero_digit_is_digit c Hc) as Hdig.
    destruct (match_float_digits c ds rest Hdig Hds Hstop) as [_ Hf].
    destruct (match_int_digits c ds rest Hc Hds Hstop) as [_ Hi].
    unfold lex_one. cbn [append]. change (is_ident_start "-") with false. cbn iota.
    change (Ascii.eqb "-" squote) with false. cbn iota.
    change (String c (ds ++ rest)) with (String c ds ++ rest).
    rewrite Hf, Hi, Hval. reflexivity.
Qed.

(** X15: the printed form of an integer constant, at the end of the text
    or before a character that cannot continue a number, is read by the
    lexer as the INT token of the same integer. *)
Theorem printed_integer_lexes_back (n : Z) (rest : string) :
  ends_number rest = true ->
  lex (py_repr_int n ++ rest) = TInt n :: lex rest.
Proof. intros Hstop. apply lex_token. apply lex_one_int. exact Hstop. Qed.

Lemma printed_integer_lexes_back_witness :
  lex (py_repr_int (-120) ++ ")") = [TInt (-120); TLit ")"] /\
  lex (py_repr_int 0) = [TInt 0].
Proof.
  split.
  - rewrite (printed_integer_lexes_back (-120) ")" eq_refl). reflexivity.
  - pose proof (printed_integer_lexes_back 0 "" eq_refl) as Hz.
    rewrite append_nil_r in Hz. exact Hz.
Defined.

Lemma repr_plain_char (c : ascii) :
  plain_char c = true -> repr_char squote c = String c EmptyString.
Proof.
  destruct c as [[] [] [] [] [] [] [] []]; intros Hc; try discriminate; reflexivity.
Qed.

Lemma plain_char_not_quote (c : ascii) :
  plain_char c = true -> Ascii.eqb c squote = false /\ Ascii.eqb c backslash = false.
Proof.
  unfold plain_char. intros Hc. apply andb_true_iff in Hc. destruct Hc as [Hc Hb].
  apply andb_true_iff in Hc. destruct Hc as [_ Hq].
  apply negb_true_iff in Hq, Hb. split; assumption.
Qed.

Lemma repr_plain_string (s : string) :
  all_chars plain_char s = true ->
  py_repr_str s = String squote (s ++ String squote EmptyString).
Proof.
  intros Hs. unfold py_repr_str.
  assert (Hq : contains_char squote s = false).
  { induction s as [|c s IH]; [reflexivity|]. cbn [all_chars contains_char] in *.
    apply andb_true_iff in Hs. destruct Hs as [Hc Hs].
    destruct (plain_char_not_quote c Hc) as [Hcq _].
    rewrite Ascii.eqb_sym, Hcq, (IH Hs). reflexivity. }
  rewrite Hq. cbn [andb]. f_equal. f_equal.
  induction s as [|c s IH]; [reflexivity|]. cbn [all_chars repr_chars] in *.
  apply andb_true_iff in Hs. destruct Hs as [Hc Hs].
  rewrite (repr_plain_char c Hc), IH; [reflexivity | exact Hs |].
  cbn [contains_char] in Hq. apply orb_false_iff in Hq. apply Hq.
Qed.

Lemma scan_plain_string (s rest : string) :
  all_chars plain_char s = true ->
  scan_str (s ++ String squote rest) = Some (s, rest).
Proof.
  intros Hs. induction s as [|c s IH]; cbn [append scan_str].
  - rewrite Ascii.eqb_refl. reflexivity.
  - cbn [all_chars] in Hs. apply andb_true_iff in Hs. destruct Hs as [Hc Hs].
    destruct (plain_char_not_quote c Hc) as [Hq Hb]. rewrite Hq, Hb, (IH Hs). reflexivity.
Qed.

Lemma lex_one_dquote (s : string) : lex_one (String dquote s) = None.
Proof.
  unfold lex_one. change (is_ident_start dquote) with false. cbv beta iota.
  change (Ascii.eqb dquote squote) with false. cbv beta iota.
  assert (Hf : match_float (String dquote s) = None).
  { unfold match_float.
    change (take_sign (String dquote s)) with (EmptyString, String dquote s).
    cbv beta iota.
    change (span is_digit (String dquote s)) with (EmptyString, String dquote s).
    reflexivity. }
  assert (Hi : match_int (String dquote s) = None) by reflexivity.
  rewrite Hf, Hi. reflexivity.
Qed.

(** X16: the printed form of a string constant made of printable ASCII
    characters without single quote and backslash is read by the lexer as
    the STR token of the same string; a string with a single quote and no
    double quote is printed between double quotes, where the lexer
    stops with an error. *)
Theorem printed_string_lexes_back (s rest : string) :
  (all_chars plain_char s = true ->
   lex (py_repr_str s ++ rest) = TStr s :: lex rest) /\
  (contains_char squote s = true -> contains_char dquote s = false ->
   lex (py_repr_str s ++ rest) = [TError (py_repr_str s ++ rest)]).
Proof.
  split.
  - intros Hs. apply lex_token. rewrite (repr_plain_string s Hs).
    cbn [append]. rewrite append_assoc. cbn [append].
    unfold lex_one. change (is_ident_start squote) with false. cbv beta iota.
    rewrite Ascii.eqb_refl, (scan_plain_string s rest Hs). reflexivity.
  - intros Hq Hd. unfold py_repr_str. rewrite Hq, Hd. cbn [andb negb append].
    apply lex_error; [reflexivity | discriminate | apply lex_one_dquote].
Qed.

Lemma printed_string_lexes_back_witness :
  lex (py_repr_str "foo.*" ++ " AS bar") = [TStr "foo.*"; TKw "AS"; TId "bar"] /\
  lex (py_repr_str "it's") = [TError (py_repr_str "it's")].
Proof.
  split.
  - rewrite (proj1 (printed_string_lexes_back "foo.*" " AS bar") eq_refl). reflexivity.
  - pose proof (proj2 (printed_string_lexes_back "it's" "") eq_refl eq_refl) as He.
    rewrite append_nil_r in He. exact He.
Defined.

Lemma ident_run_all (s : string) :
  ident_run s = s -> all_chars is_ident_char s = true.
Proof.
  induction s as [|c s IH]; [reflexivity|]. cbn [ident_run all_chars].
  destruct (is_ident_char c); [|discriminate].
  intros Hs. injection Hs as Hs. exact (IH Hs).
Qed.

Lemma identifier_chars (name : string) :
  is_identifier name = true ->
  exists (c : ascii) (s' : string),
    name = String c s' /\ is_ident_start c = true /\ all_chars is_ident_char s' = true.
Proof.
  unfold is_identifier, re_match_ident. destruct name as [|c s']; [discriminate|].
  destruct (is_ident_start c) eqn:Hc; [|discriminate].
  intros Heq. apply String.eqb_eq in Heq. injection Heq as Heq.
  exists c, s'. split; [reflexivity|]. split; [exact Hc|]. apply ident_run_all. exact Heq.
Qed.

Lemma lex_one_ident (name rest : string) :
  is_identifier name = true -> stops is_ident_char rest = true ->
  lex_one (name ++ rest) = Some (Some (t_ID name), rest).
Proof.
  intros Hname Hstop. destruct (identifier_chars name Hname) as [c [s' [-> [Hc Hs']]]].
  unfold lex_one. cbn [append]. rewrite Hc.
  change (String c (s' ++ rest)) with (String c s' ++ rest).
  rewrite span_all; [reflexivity | | exact Hstop].
  cbn [all_chars]. rewrite (ident_start_is_ident_char c Hc), Hs'. reflexivity.
Qed.

Lemma upper_char_idem (c : ascii) : upper_char (upper_char c) = upper_char c.
Proof. destruct c as [[] [] [] [] [] [] [] []]; reflexivity. Qed.

Lemma upper_idem (s : string) : upper (upper s) = upper s.
Proof.
  induction s as [|c s IH]; [reflexivity|]. cbn [upper].
  rewrite upper_char_idem, IH. reflexivity.
Qed.

Lemma upper_char_ident (c : ascii) :
  (is_ident_start (upper_char c) = is_ident_start c) /\
  (is_ident_char (upper_char c) = is_ident_char c).
Proof. destruct c as [[] [] [] [] [] [] [] []]; split; reflexivity. Qed.

Lemma upper_identifier (name : string) :
  is_identifier name = true -> is_identifier (upper name) = true.
Proof.
  intros Hname. destruct (identifier_chars name Hname) as [c [s' [-> [Hc Hs']]]].
  unfold is_identifier, re_match_ident. cbn [upper].
  rewrite (proj1 (upper_char_ident c)), Hc. apply String.eqb_eq. f_equal.
  clear Hname Hc. induction s' as [|d s' IH]; [reflexivity|].
  cbn [all_chars] in Hs'. apply andb_true_iff in Hs'. destruct Hs' as [Hd Hs'].
  cbn [upper ident_run]. rewrite (proj2 (upper_char_ident d)), Hd, (IH Hs'). reflexivity.
Qed.

(** X17: an identifier followed by a character that cannot continue it is
    read as one token, made by [t_ID]: a keyword or a comparison word in
    any letter case gives the token of its upper-case form, so the text
    may spell it in either case; any other identifier is an ID token that
    keeps its spelling. *)
Theorem names_lex_as_one_token (name rest : string) :
  is_identifier name = true -> stops is_ident_char rest = true ->
  lex (name ++ rest) = t_ID name :: lex rest /\
  (mem_string (upper name) keywords = true ->
   t_ID name = TKw (upper name) /\
   lex (upper name ++ rest) = lex (name ++ rest)) /\
  (mem_string (upper name) keywords = false ->
   mem_string (upper name) compare_ids = true ->
   t_ID name = TCompare (upper name) /\
   lex (upper name ++ rest) = lex (name ++ rest)) /\
  (mem_string (upper name) keywords = false ->
   mem_string (upper name) compare_ids = false ->
   t_ID name = TId name).
Proof.
  intros Hname Hstop.
  assert (Hlex : forall n, is_identifier n = true -> lex (n ++ rest) = t_ID n :: lex rest).
  { intros n Hn. apply lex_token. apply lex_one_ident; assumption. }
  split; [apply Hlex; exact Hname|].
  split; [|split].
  - intros Hkw. assert (Ht : t_ID name = TKw (upper name)).
    { unfold t_ID. rewrite Hkw. reflexivity. }
    split; [exact Ht|].
    rewrite (Hlex name Hname), (Hlex (upper name) (upper_identifier name Hname)), Ht.
    unfold t_ID. rewrite upper_idem, Hkw. reflexivity.
  - intros Hkw Hcmp. assert (Ht : t_ID name = TCompare (upper name)).
    { unfold t_ID. rewrite Hkw, Hcmp. reflexivity. }
    split; [exact Ht|].
    rewrite (Hlex name Hname), (Hlex (upper name) (upper_identifier name Hname)), Ht.
    unfold t_ID. rewrite upper_idem, Hkw, Hcmp. reflexivity.
  - intros Hkw Hcmp. unfold t_ID. rewrite Hkw, Hcmp. reflexivity.
Qed.

Lemma names_lex_as_one_token_witness :
  lex ("Where" ++ " o.x") = TKw "WHERE" :: lex " o.x" /\
  lex ("WHERE" ++ " o.x") = lex ("Where" ++ " o.x") /\
  lex ("total" ++ ")") = TId "total" :: lex ")".
Proof.
  destruct (names_lex_as_one_token "Where" " o.x" eq_refl eq_refl) as [Hlex [Hkw _]].
  destruct (Hkw eq_refl) as [Ht Hup]. rewrite Ht in Hlex.
  destruct (names_lex_as_one_token "total" ")" eq_refl eq_refl) as [Hlex' [_ [_ Hid]]].
  rewrite (Hid eq_refl eq_refl) in Hlex'.
  split; [exact Hlex|]. split; [exact Hup | exact Hlex'].
Defined.

(* ------------------------------------------------------------------ *)
(** ** The parser: the fuel never decides the answer *)
(* ------------------------------------------------------------------ *)

(** The equations of the parsing functions at a positive fuel. *)
Lemma field_loop_S (n : nat) (l : value) (ts : list token) :
  field_loop (S n) l ts =
      if next_is_error ts then Raise LexError
      else if next_is_kw "AS" ts then
        match tl ts with
        | TId name :: ts1 =>
            v <- p_field_7 l name ;;
            field_loop n v ts1
        | _ => unexpected (tl ts)
        end
      else Ok (l, ts).
Proof. reflexivity. Qed.

Lemma parse_fexpr_S (n : nat) (ts : list token) :
  parse_fexpr (S n) ts =
      '(l, ts1) <- parse_predterm n ts ;;
      fexpr_loop n l ts1.
Proof. reflexivity. Qed.

Lemma fexpr_loop_S (n : nat) (l : value) (ts : list token) :
  fexpr_loop (S n) l ts =
      if next_is_error ts then Raise LexError
      else if next_is_kw "OR" ts then
        '(r, ts1) <- parse_predterm n (tl ts) ;;
        v <- p_fexpr_1 l r ;;
        fexpr_loop n v ts1
      else Ok (l, ts).
Proof. reflexivity. Qed.

Lemma parse_predterm_S (n : nat) (ts : list token) :
  parse_predterm (S n) ts =
      '(l, ts1) <- parse_prednfactor n ts ;;
      predterm_loop n l ts1.
Proof. reflexivity. Qed.

Lemma predterm_loop_S (n : nat) (l : value) (ts : list token) :
  predterm_loop (S n) l ts =
      if next_is_error ts then Raise LexError
      else if next_is_kw "AND" ts then
        '(r, ts1) <- parse_prednfactor n (tl ts) ;;
        v <- p_predterm_1 l r ;;
        predterm_loop n v ts1
      else Ok (l, ts).
Proof. reflexivity. Qed.

Lemma parse_prednfactor_S (n : nat) (ts : list token) :
  parse_prednfactor (S n) ts =
      if next_is_kw "NOT" ts then
        '(x, ts1) <- parse_prednfactor n (tl ts) ;;
        v <- p_prednfactor_1 x ;;
        Ok (v, ts1)
      else
        '(l, ts1) <- parse_arithexpr n ts ;;
        predfactor_loop n l ts1.
Proof. reflexivity. Qed.

Lemma predfactor_loop_S (n : nat) (l : value) (ts : list token) :
  predfactor_loop (S n) l ts =
      match ts with
      | TError _ :: _ => Raise LexError
      | TKw k :: ts1 =>
          if String.eqb k "IN" then
            '(items, ts2) <- parse_fexprs n ts1 ;;
            v <- p_predfactor_1 l items ;;
            predfactor_loop n v ts2
          else Ok (l, ts)
      | TCompare op :: ts1 =>
          '(r, ts2) <- parse_arithexpr n ts1 ;;
          v <- p_predfactor_2 l op r ;;
          predfactor_loop n v ts2
      | _ => Ok (l, ts)
      end.
Proof. reflexivity. Qed.

Lemma parse_fexprs_S (n : nat) (ts : list token) :
  parse_fexprs (S n) ts =
      '(e1, ts1) <- parse_fexpr n ts ;;
      expect_lit "," ts1 (fun ts2 => fexprs_tail n e1 ts2).
Proof. reflexivity. Qed.

Lemma fexprs_tail_S (n : nat) (e1 : value) (ts : list token) :
  fexprs_tail (S n) e1 ts =
      if next_is_error ts then Raise LexError
      else if starts_fexpr ts then
        '(e2, ts1) <- parse_fexpr n ts ;;
        fexprs_more n [e1; e2] ts1
      else Ok ([e1], ts).
Proof. reflexivity. Qed.

Lemma fexprs_more_S (n : nat) (items : list value) (ts : list token) :
  fexprs_more (S n) items ts =
      if next_is_error ts then Raise LexError
      else if next_is_lit "," ts then
        if next_is_error (tl ts) then Raise LexError
        else if starts_fexpr (tl ts) then
          '(e, ts1) <- parse_fexpr n (tl ts) ;;
          fexprs_more n (items ++ [e])%list ts1
        else Ok (items, tl ts)
      else Ok (items, ts).
Proof. reflexivity. Qed.

Lemma parse_arithexpr_S (n : nat) (ts : list token) :
  parse_arithexpr (S n) ts =
      '(l, ts1) <- parse_term n ts ;;
      arithexpr_loop n l ts1.
Proof. reflexivity. Qed.

Lemma arithexpr_loop_S (n : nat) (l : value) (ts : list token) :
  arithexpr_loop (S n) l ts =
      if next_is_error ts then Raise LexError
      else if next_is_lit "+" ts then
        '(r, ts1) <- parse_term n (tl ts) ;;
        v <- p_arithexpr_1 l r ;;
        arithexpr_loop n v ts1
      else if next_is_lit "-" ts then
        '(r, ts1) <- parse_term n (tl ts) ;;
        v <- p_arithexpr_2 l r ;;
        arithexpr_loop n v ts1
      else Ok (l, ts).
Proof. reflexivity. Qed.

Lemma parse_term_S (n : nat) (ts : list token) :
  parse_term (S n) ts =
      '(l, ts1) <- parse_expnt n ts ;;
      term_loop n l ts1.
Proof. reflexivity. Qed.

Lemma term_loop_S (n : nat) (l : value) (ts : list token) :
  term_loop (S n) l ts =
      if next_is_error ts then Raise LexError
      else if next_is_lit "*" ts then
        '(r, ts1) <- parse_expnt n (tl ts) ;;
        v <- p_term_1 l r ;;
        term_loop n v ts1
      else if next_is_lit "/" ts then
        '(r, ts1) <- parse_expnt n (tl ts) ;;
        v <- p_term_2 l r ;;
        term_loop n v ts1
      else if next_is_lit "%" ts then
        '(r, ts1) <- parse_expnt n (tl ts) ;;
        v <- p_term_3 l r ;;
        term_loop n v ts1
      else Ok (l, ts).
Proof. reflexivity. Qed.

Lemma parse_expnt_S (n : nat) (ts : list token) :
  parse_expnt (S n) ts =
      '(l, ts1) <- parse_field n ts ;;
      match ts1 with
      | TError _ :: _ => Raise LexError
      | TPow :: ts2 =>
          '(r, ts3) <- parse_expnt n ts2 ;;
          v <- p_expnt_1 l r ;;
          Ok (v, ts3)
      | _ => Ok (l, ts1)
      end.
Proof. reflexivity. Qed.

Lemma parse_field_S (n : nat) (ts : list token) :
  parse_field (S n) ts =
      '(v, ts1) <-
        match ts with
        | TKw k :: ts1 =>
            if String.eqb k "O" then
              match ts1 with
              | TLit c :: ts2 =>
                  if Ascii.eqb c "." then
                    match ts2 with
                    | TId name :: ts3 => Ok (p_field_3 name, ts3)
                    | _ => unexpected ts2
                    end
                  else if Ascii.eqb c "[" then
                    '(lit, ts3) <- parse_literal ts2 ;;
                    expect_lit "]" ts3 (fun ts4 => Ok (p_field_4 lit, ts4))
                  else Ok (p_field_2, ts1)
              | TError _ :: _ => Raise LexError
              | _ => Ok (p_field_2, ts1)
              end
            else
              '(lit, ts2) <- parse_literal ts ;; Ok (p_field_1 lit, ts2)
        | TId name :: ts1 =>
            expect_lit "(" ts1 (fun ts2 =>
              '(args, ts3) <- parse_fexprstar n ts2 ;;
              expect_lit ")" ts3 (fun ts4 =>
                v <- p_field_5 name args ;; Ok (v, ts4)))
        | TLit c :: ts1 =>
            if Ascii.eqb c "(" then
              '(v, ts2) <- parse_fexpr n ts1 ;;
              expect_lit ")" ts2 (fun ts3 => Ok (v, ts3))
            else unexpected ts
        | _ => '(lit, ts2) <- parse_literal ts ;; Ok (p_field_1 lit, ts2)
        end ;;
      field_loop n v ts1.
Proof. reflexivity. Qed.

Lemma parse_fexprstar_S (n : nat) (ts : list token) :
  parse_fexprstar (S n) ts =
      if next_is_error ts then Raise LexError
      else if starts_fexpr ts then
        '(e1, ts1) <- parse_fexpr n ts ;;
        if next_is_lit "," ts1 then fexprs_tail n e1 (tl ts1)
        else Ok ([e1], ts1)
      else Ok ([], ts).
Proof. reflexivity. Qed.

Lemma unexpected_fuel {A : Type} (ts : list token) : @unexpected A ts <> out_of_fuel.
Proof. destruct ts as [|[] ?]; discriminate. Qed.

Lemma bind_mono {A B : Type} (c c' : result A) (k k' : A -> result B) :
  bind c k <> out_of_fuel ->
  (c <> out_of_fuel -> c' = c) ->
  (forall a, c = Ok a -> k a <> out_of_fuel -> k' a = k a) ->
  bind c' k' = bind c k.
Proof.
  intros Hne Hc Hk. destruct c as [a|e].
  - rewrite Hc by discriminate. cbn [bind] in *. apply Hk; [reflexivity | exact Hne].
  - rewrite Hc; [reflexivity|]. intros He. apply Hne. rewrite He. reflexivity.
Qed.

Lemma expect_lit_mono {A : Type} (c : ascii) (ts : list token)
    (k k' : list token -> result A) :
  expect_lit c ts k <> out_of_fuel ->
  (forall ts', k ts' <> out_of_fuel -> k' ts' = k ts') ->
  expect_lit c ts k' = expect_lit c ts k.
Proof.
  intros Hne Hk. unfold expect_lit in *.
  destruct ts as [|[] ts']; try reflexivity.
  destruct (Ascii.eqb c c0); [|reflexivity]. apply Hk. exact Hne.
Qed.

(** Walks through the two sides of [body (S n) = body n] along the shape
    of the body. *)
Ltac fuel_call :=
  match goal with
  | IH : forall ts, ?f _ ts <> out_of_fuel -> _ |- ?f _ _ = _ => apply IH; assumption
  | IH : forall l ts, ?f _ l ts <> out_of_fuel -> _ |- ?f _ _ _ = _ => apply IH; assumption
  end.

Ltac fuel_walk :=
  repeat first
    [ reflexivity
    | fuel_call
    | match goal with
      | H : bind ?c ?k <> out_of_fuel |- bind ?c' ?k' = bind ?c ?k =>
          apply (bind_mono c c' k k' H); clear H;
          [ intros ? | first [intros [? ?] _ ? | intros ? _ ?]; cbv beta iota in * ]
      | H : expect_lit ?c ?ts ?k <> out_of_fuel |- expect_lit ?c ?ts ?k' = _ =>
          apply (expect_lit_mono c ts k k' H); clear H; intros ? ?; cbv beta iota in *
      | H : (if ?b then _ else _) <> out_of_fuel |- _ => destruct b
      | H : match ?x with _ => _ end <> out_of_fuel |- _ => destruct x
      end ].

Lemma fuel_mono_holds (n : nat) : fuel_mono n.
Proof.
  induction n as [|n IH].
  - unfold fuel_mono. repeat split; intros; exfalso; apply H; reflexivity.
  - destruct IH as [Hfield_loop [Hfexpr [Hfexpr_loop [Hpredterm [Hpredterm_loop
      [Hprednfactor [Hpredfactor_loop [Hfexprs [Hfexprs_tail [Hfexprs_more [Harith
      [Harith_loop [Hterm [Hterm_loop [Hexpnt [Hfield Hfexprstar]]]]]]]]]]]]]]]].
    unfold fuel_mono. repeat split; intros.
    + rewrite (field_loop_S (S n) l ts), (field_loop_S n l ts).
      rewrite (field_loop_S n l ts) in H. fuel_walk.
    + rewrite (parse_fexpr_S (S n) ts), (parse_fexpr_S n ts).
      rewrite (parse_fexpr_S n ts) in H. fuel_walk.
    + rewrite (fexpr_loop_S (S n) l ts), (fexpr_loop_S n l ts).
      rewrite (fexpr_loop_S n l ts) in H. fuel_walk.
    + rewrite (parse_predterm_S (S n) ts), (parse_predterm_S n ts).
      rewrite (parse_predterm_S n ts) in H. fuel_walk.
    + rewrite (predterm_loop_S (S n) l ts), (predterm_loop_S n l ts).
      rewrite (predterm_loop_S n l ts) in H. fuel_walk.
    + rewrite (parse_prednfactor_S (S n) ts), (parse_prednfactor_S n ts).
      rewrite (parse_prednfactor_S n ts) in H. fuel_walk.
    + rewrite (predfactor_loop_S (S n) l ts), (predfactor_loop_S n l ts).
      rewrite (predfactor_loop_S n l ts) in H. fuel_walk.
    + rewrite (parse_fexprs_S (S n) ts), (parse_fexprs_S n ts).
      rewrite (parse_fexprs_S n ts) in H. fuel_walk.
    + rewrite (fexprs_tail_S (S n) e1 ts), (fexprs_tail_S n e1 ts).
      rewrite (fexprs_tail_S n e1 ts) in H. fuel_walk.
    + rewrite (fexprs_more_S (S n) items ts), (fexprs_more_S n items ts).
      rewrite (fexprs_more_S n items ts) in H. fuel_walk.
    + rewrite (parse_arithexpr_S (S n) ts), (parse_arithexpr_S n ts).
      rewrite (parse_arithexpr_S n ts) in H. fuel_walk.
    + rewrite (arithexpr_loop_S (S n) l ts), (arithexpr_loop_S n l ts).
      rewrite (arithexpr_loop_S n l ts) in H. fuel_walk.
    + rewrite (parse_term_S (S n) ts), (parse_term_S n ts).
      rewrite (parse_term_S n ts) in H. fuel_walk.
    + rewrite (term_loop_S (S n) l ts), (term_loop_S n l ts).
      rewrite (term_loop_S n l ts) in H. fuel_walk.
    + rewrite (parse_expnt_S (S n) ts), (parse_expnt_S n ts).
      rewrite (parse_expnt_S n ts) in H. fuel_walk.
    + rewrite (parse_field_S (S n) ts), (parse_field_S n ts).
      rewrite (parse_field_S n ts) in H. fuel_walk.
    + rewrite (parse_fexprstar_S (S n) ts), (parse_fexprstar_S n ts).
      rewrite (parse_fexprstar_S n ts) in H. fuel_walk.
Qed.

Lemma within_le {A : Type} (b b' : nat) (r : result (A * list token)) :
  within b r -> b <= b' -> within b' r.
Proof. destruct r as [p|e]; simpl; [lia | auto]. Qed.

Lemma within_bind {A B : Type} (b b' : nat) (c : result (A * list token))
    (k : A * list token -> result (B * list token)) :
  within b c -> (forall p, List.length (snd p) < b -> within b' (k p)) ->
  within b' (bind c k).
Proof.
  destruct c as [p|e]; simpl; intros Hc Hk; [apply Hk; exact Hc|].
  intros He. apply Hc. injection He as ->. reflexivity.
Qed.

Lemma within_value {A B : Type} (b : nat) (c : result A)
    (k : A -> result (B * list token)) :
  c <> out_of_fuel -> (forall a, within b (k a)) -> within b (bind c k).
Proof.
  destruct c as [a|e]; simpl; intros Hc Hk; [apply Hk|].
  intros He. apply Hc. injection He as ->. reflexivity.
Qed.

Lemma within_unexpected {A : Type} (b : nat) (ts : list token) :
  within b (@unexpected (A * list token) ts).
Proof. destruct ts as [|[] ?]; simpl; discriminate. Qed.

Lemma within_expect_lit {A : Type} (b : nat) (c : ascii) (ts : list token)
    (k : list token -> result (A * list token)) :
  (forall ts', List.length ts' < List.length ts -> within b (k ts')) ->
  within b (expect_lit c ts k).
Proof.
  intros Hk. unfold expect_lit. destruct ts as [|t ts']; [apply within_unexpected|].
  destruct t; try apply within_unexpected.
  destruct (Ascii.eqb c c0); [|apply within_unexpected].
  apply Hk. simpl. lia.
Qed.

Lemma within_literal (ts : list token) : within (List.length ts) (parse_literal ts).
Proof.
  unfold parse_literal. destruct ts as [|t ts']; [apply within_unexpected|].
  destruct t; try apply within_unexpected; try (simpl; lia); try (simpl; discriminate).
  destruct (String.eqb kw "TRUE"); [simpl; lia|].
  destruct (String.eqb kw "FALSE"); [simpl; lia|].
  destruct (String.eqb kw "NONE"); [simpl; lia|].
  apply within_unexpected.
Qed.

Lemma plain_binary_fuel (fn : pyfunc) (l r : value) : plain_binary fn l r <> out_of_fuel.
Proof.
  unfold plain_binary.
  repeat match goal with
         | |- context [match ?x with _ => _ end] => destruct x
         end; discriminate.
Qed.

Lemma py_binary_fuel (fn : pyfunc) (sym : string) (l r : value) :
  py_binary fn sym l r <> out_of_fuel.
Proof.
  unfold py_binary. destruct l; try discriminate;
    destruct r; try discriminate; apply plain_binary_fuel.
Qed.

Lemma py_invert_fuel (x : value) : py_invert x <> out_of_fuel.
Proof. destruct x; discriminate. Qed.

Lemma p_predfactor_1_fuel (p1 : value) (p3 : list value) :
  p_predfactor_1 p1 p3 <> out_of_fuel.
Proof. destruct p1; discriminate. Qed.

Lemma py_cmp_fuel (op : cmpop) (a : value) :
  forall b : value, py_cmp op a b <> out_of_fuel.
Proof.
  induction a as [| x | n | s | l IH | l IH | l | c l IH | fld] using value_nested_ind;
    intros b; destruct b; try discriminate.
  - revert items. induction IH as [|x xs Hx _ IHxs]; intros [|y ys]; try discriminate.
    change (py_cmp op (VTuple (x :: xs)) (VTuple (y :: ys)))
      with (if eqb_val x y then py_cmp op (VTuple xs) (VTuple ys) else py_cmp op x y).
    destruct (eqb_val x y); [apply IHxs | apply Hx].
  - revert items. induction IH as [|x xs Hx _ IHxs]; intros [|y ys]; try discriminate.
    change (py_cmp op (VList (x :: xs)) (VList (y :: ys)))
      with (if eqb_val x y then py_cmp op (VList xs) (VList ys) else py_cmp op x y).
    destruct (eqb_val x y); [apply IHxs | apply Hx].
Qed.

Lemma p_predfactor_2_fuel (left : value) (op : string) (right : value) :
  p_predfactor_2 left op right <> out_of_fuel.
Proof.
  unfold p_predfactor_2.
  repeat match goal with
         | |- context [if ?c then _ else _] => destruct c
         end; try discriminate; try apply py_cmp_fuel;
    destruct left; discriminate.
Qed.

Lemma p_field_5_fuel (p1 : string) (p3 : list value) : p_field_5 p1 p3 <> out_of_fuel.
Proof.
  unfold p_field_5, f_call. destruct (FunctionsRegistry.get f p1) as [[fn n|fn n]|];
    try discriminate.
  cbn [call_wrapped]. unfold AggregateFunctionField.__init__.
  destruct (forallb _is_mapper (to_fields p3)); discriminate.
Qed.

Lemma p_field_7_fuel (p1 : value) (p3 : string) : p_field_7 p1 p3 <> out_of_fuel.
Proof.
  unfold p_field_7, AliasField.__init__. destruct (re_match_ident p3); discriminate.
Qed.

Ltac len := cbn [List.length tl snd fst] in *; lia.

(** A call of a parsing function on the tokens at hand, then the rest of
    the body. *)
Ltac within_call H :=
  eapply within_bind;
  [ apply H; len
  | intros [? ?] ?; cbv beta iota ].

Ltac within_last H := eapply within_le; [apply H; len | len].

Ltac within_action H := apply within_value; [apply H | intros ?].

Lemma fuel_enough_holds (n : nat) : fuel_enough n.
Proof.
  induction n as [|n IH].
  - unfold fuel_enough. repeat split; intros; lia.
  - destruct IH as [Hfield_loop [Hfexpr [Hfexpr_loop [Hpredterm [Hpredterm_loop
      [Hprednfactor [Hpredfactor_loop [Hfexprs [Hfexprs_tail [Hfexprs_more [Harith
      [Harith_loop [Hterm [Hterm_loop [Hexpnt [Hfield Hfexprstar]]]]]]]]]]]]]]]].
    unfold fuel_enough. repeat split; intros.
    + (* field_loop *)
      rewrite field_loop_S.
      destruct (next_is_error ts); [simpl; discriminate|].
      destruct (next_is_kw "AS" ts); [|simpl; lia].
      destruct ts as [|t [|[] ts1]]; try apply within_unexpected.
      cbn [tl]. within_action p_field_7_fuel. within_last Hfield_loop.
    + (* parse_fexpr *)
      rewrite parse_fexpr_S. within_call Hpredterm. within_last Hfexpr_loop.
    + (* fexpr_loop *)
      rewrite fexpr_loop_S.
      destruct (next_is_error ts); [simpl; discriminate|].
      destruct (next_is_kw "OR" ts) eqn:Hkw; [|simpl; lia].
      destruct ts as [|t ts']; [discriminate|].
      within_call Hpredterm. within_action py_binary_fuel. within_last Hfexpr_loop.
    + (* parse_predterm *)
      rewrite parse_predterm_S. within_call Hprednfactor. within_last Hpredterm_loop.
    + (* predterm_loop *)
      rewrite predterm_loop_S.
      destruct (next_is_error ts); [simpl; discriminate|].
      destruct (next_is_kw "AND" ts) eqn:Hkw; [|simpl; lia].
      destruct ts as [|t ts']; [discriminate|].
      within_call Hprednfactor. within_action py_binary_fuel. within_last Hpredterm_loop.
    + (* parse_prednfactor *)
      rewrite parse_prednfactor_S.
      destruct (next_is_kw "NOT" ts) eqn:Hkw.
      * destruct ts as [|t ts']; [discriminate|].
        within_call Hprednfactor. within_action py_invert_fuel. simpl. len.
      * within_call Harith. within_last Hpredfactor_loop.
    + (* predfactor_loop *)
      rewrite predfactor_loop_S.
      destruct ts as [|[] ts1]; try (simpl; lia); try (simpl; discriminate).
      * destruct (String.eqb kw "IN"); [|simpl; lia].
        within_call Hfexprs. within_action p_predfactor_1_fuel.
        within_last Hpredfactor_loop.
      * within_call Harith. within_action p_predfactor_2_fuel.
        within_last Hpredfactor_loop.
    + (* parse_fexprs *)
      rewrite parse_fexprs_S. within_call Hfexpr.
      apply within_expect_lit. intros ts' Hts'. within_last Hfexprs_tail.
    + (* fexprs_tail *)
      rewrite fexprs_tail_S.
      destruct (next_is_error ts); [simpl; discriminate|].
      destruct (starts_fexpr ts); [|simpl; lia].
      within_call Hfexpr. within_last Hfexprs_more.
    + (* fexprs_more *)
      rewrite fexprs_more_S.
      destruct (next_is_error ts); [simpl; discriminate|].
      destruct (next_is_lit "," ts) eqn:Hlit; [|simpl; lia].
      destruct ts as [|t ts']; [discriminate|]. cbn [tl].
      destruct (next_is_error ts'); [simpl; discriminate|].
      destruct (starts_fexpr ts'); [|simpl; lia].
      within_call Hfexpr. within_last Hfexprs_more.
    + (* parse_arithexpr *)
      rewrite parse_arithexpr_S. within_call Hterm. within_last Harith_loop.
    + (* arithexpr_loop *)
      rewrite arithexpr_loop_S.
      destruct (next_is_error ts); [simpl; discriminate|].
      destruct (next_is_lit "+" ts) eqn:Hplus.
      { destruct ts as [|t ts']; [discriminate|].
        within_call Hterm. within_action py_binary_fuel. within_last Harith_loop. }
      destruct (next_is_lit "-" ts) eqn:Hminus; [|simpl; lia].
      destruct ts as [|t ts']; [discriminate|].
      within_call Hterm. within_action py_binary_fuel. within_last Harith_loop.
    + (* parse_term *)
      rewrite parse_term_S. within_call Hexpnt. within_last Hterm_loop.
    + (* term_loop *)
      rewrite term_loop_S.
      destruct (next_is_error ts); [simpl; discriminate|].
      destruct (next_is_lit "*" ts) eqn:Hmul.
      { destruct ts as [|t ts']; [discriminate|].
        within_call Hexpnt. within_action py_binary_fuel. within_last Hterm_loop. }
      destruct (next_is_lit "/" ts) eqn:Hdiv.
      { destruct ts as [|t ts']; [discriminate|].
        within_call Hexpnt. within_action py_binary_fuel. within_last Hterm_loop. }
      destruct (next_is_lit "%" ts) eqn:Hmod; [|simpl; lia].
      destruct ts as [|t ts']; [discriminate|].
      within_call Hexpnt. within_action py_binary_fuel. within_last Hterm_loop.
    + (* parse_expnt *)
      rewrite parse_expnt_S. within_call Hfield.
      destruct l as [|[] ts2]; try (simpl; len); try (simpl; discriminate).
      within_call Hexpnt. within_action py_binary_fuel. simpl. len.
    + (* parse_field *)
      rewrite parse_field_S.
      eapply within_bind with (b := List.length ts).
      * destruct ts as [|t ts1];
          [eapply within_bind; [apply (within_literal []) | intros [? ?] ?; simpl; len]|].
        destruct t; try apply within_unexpected;
          try (eapply within_bind; [apply within_literal | intros [? ?] ?; simpl; len]).
        -- destruct (String.eqb kw "O").
           ++ destruct ts1 as [|[] ts2]; try (simpl; lia); try (simpl; discriminate).
              destruct (Ascii.eqb c ".").
              { destruct ts2 as [|[] ts3]; try apply within_unexpected. simpl. lia. }
              destruct (Ascii.eqb c "["); [|simpl; lia].
              eapply within_bind; [apply within_literal|].
              intros [lit ts3] Hlit. cbv beta iota.
              apply within_expect_lit. intros ts4 Hts4. simpl. len.
           ++ eapply within_bind; [apply within_literal | intros [? ?] ?; simpl; len].
        -- apply within_expect_lit. intros ts2 Hts2.
           eapply within_bind; [apply Hfexprstar; len|].
           intros [args ts3] Hargs. cbv beta iota.
           apply within_expect_lit. intros ts4 Hts4.
           within_action p_field_5_fuel. simpl. len.
        -- destruct (Ascii.eqb c "("); [|apply within_unexpected].
           eapply within_bind; [apply Hfexpr; len|].
           intros [v ts2] Hv. cbv beta iota.
           apply within_expect_lit. intros ts3 Hts3. simpl. len.
      * intros [v ts1] Hlen. cbv beta iota. within_last Hfield_loop.
    + (* parse_fexprstar *)
      rewrite parse_fexprstar_S.
      destruct (next_is_error ts); [simpl; discriminate|].
      destruct (starts_fexpr ts); [|simpl; lia].
      within_call Hfexpr.
      destruct (next_is_lit "," l) eqn:Hlit; [|simpl; len].
      destruct l as [|t l']; [discriminate|]. within_last Hfexprs_tail.
Qed.

Lemma answer_bind {A B : Type} (b : nat) (c : result (A * list token))
    (k : A * list token -> result B) :
  within b c -> (forall p, List.length (snd p) < b -> k p <> out_of_fuel) ->
  bind c k <> out_of_fuel.
Proof.
  destruct c as [p|e]; simpl; intros Hc Hk; [apply Hk; exact Hc|].
  intros He. apply Hc. injection He as ->. reflexivity.
Qed.

Lemma p_statement_fuel (distinct : bool) (fexprplus where_v : value)
    (groupby : option (list value)) (returning : option string) :
  p_statement distinct fexprplus where_v groupby returning <> out_of_fuel.
Proof.
  unfold p_statement.
  set (s0 := if distinct then SelectQuery.DISTINCT (SELECT [fexprplus])
             else SELECT [fexprplus]). clearbody s0.
  assert (Hw : forall w, SelectQuery.WHERE s0 w <> out_of_fuel).
  { intros w. unfold SelectQuery.WHERE. destruct (_is_mapper w); discriminate. }
  assert (Hg : forall s g, SelectQuery.GROUP_BY s g <> out_of_fuel).
  { intros s g. unfold SelectQuery.GROUP_BY.
    destruct (negb (forallb _is_mapper (to_fields g))); [discriminate|].
    match goal with |- (if ?c then _ else _) <> _ => destruct c end; discriminate. }
  assert (Htail : forall s1,
             (s <- match groupby with
                   | Some g => SelectQuery.GROUP_BY s1 g
                   | None => Ok s1
                   end ;;
              Ok match returning with
                 | Some t => SelectQuery.RETURNING s t
                 | None => s
                 end) <> out_of_fuel).
  { intros s1. destruct groupby as [g|]; [|discriminate].
    specialize (Hg s1 g). destruct (SelectQuery.GROUP_BY s1 g) as [s2|e]; [discriminate|].
    intros He. apply Hg. injection He as ->. reflexivity. }
  destruct where_v as [| | | | | | | |w0]; try discriminate; [apply Htail|].
  specialize (Hw w0). destruct (SelectQuery.WHERE s0 w0) as [s1|e]; [apply Htail|].
  intros He. apply Hw. injection He as ->. reflexivity.
Qed.

Lemma within_fexprplus (n : nat) (ts : list token) :
  8 + 20 * List.length ts <= n -> within (List.length ts) (parse_fexprplus n ts).
Proof.
  intros Hn.
  destruct (fuel_enough_holds n) as [_ [Hfexpr [_ [_ [_ [_ [_ [_ [Hfexprs_tail _]]]]]]]]].
  unfold parse_fexprplus. within_call Hfexpr.
  destruct (next_is_lit "," l) eqn:Hlit; [|simpl; len].
  destruct l as [|t l']; [discriminate|].
  eapply within_bind; [apply Hfexprs_tail; len|].
  intros [items ts2] Hts2. simpl. len.
Qed.

(** [parse_statement] answers with twenty units of fuel per token. *)
Lemma parse_statement_enough (n : nat) (ts : list token) :
  20 * (List.length ts + 1) <= n -> parse_statement n ts <> out_of_fuel.
Proof.
  intros Hn. unfold parse_statement.
  set (ts1 := if next_is_kw "SELECT" ts then tl ts else ts).
  assert (H1 : List.length ts1 <= List.length ts).
  { unfold ts1. destruct (next_is_kw "SELECT" ts); [|lia]. destruct ts; simpl; lia. }
  clearbody ts1.
  set (ts2 := if next_is_kw "DISTINCT" ts1 then tl ts1 else ts1).
  assert (H2 : List.length ts2 <= List.length ts).
  { unfold ts2. destruct (next_is_kw "DISTINCT" ts1); [|lia]. destruct ts1; simpl in *; lia. }
  clearbody ts2.
  destruct (fuel_enough_holds n) as [_ [Hfexpr _]].
  eapply answer_bind; [apply within_fexprplus; lia|].
  intros [fexprplus ts3] H3. cbn [snd] in H3. cbv beta iota.
  eapply answer_bind with (b := S (List.length ts3)).
  { destruct (next_is_kw "WHERE" ts3) eqn:Hkw; [|simpl; lia].
    destruct ts3 as [|t ts3']; [discriminate|].
    eapply within_le; [apply Hfexpr; len | len]. }
  intros [where_v ts4] H4. cbn [snd] in H4. cbv beta iota.
  eapply answer_bind with (b := S (List.length ts4)).
  { destruct (next_is_kw "GROUP" ts4) eqn:Hkw; [|simpl; lia].
    destruct ts4 as [|t ts4']; [discriminate|]. cbn [tl].
    destruct (next_is_kw "BY" ts4') eqn:Hby; [|apply within_unexpected].
    destruct ts4' as [|t' ts4'']; [discriminate|]. cbn [tl].
    eapply within_bind; [apply within_fexprplus; len|].
    intros [g ts'] Hg. simpl. len. }
  intros [groupby ts5] H5. cbn [snd] in H5. cbv beta iota.
  eapply answer_bind with (b := S (List.length ts5)).
  { destruct (next_is_kw "RETURNING" ts5); [|simpl; lia].
    destruct (tl ts5) as [|[] ts'] eqn:Htl; try apply within_unexpected.
    unfold p_returning_1. destruct (mem_string name _return_types); [|simpl; discriminate].
    simpl. destruct ts5; [discriminate|]. simpl in Htl. subst. simpl. lia. }
  intros [returning ts6] _. cbv beta iota.
  destruct ts6; [apply p_statement_fuel | apply unexpected_fuel].
Qed.

Lemma parse_statement_mono (n : nat) (ts : list token) :
  parse_statement n ts <> out_of_fuel ->
  parse_statement (S n) ts = parse_statement n ts.
Proof.
  destruct (fuel_mono_holds n) as [_ [Hfexpr [_ [_ [_ [_ [_ [_ [Hfexprs_tail _]]]]]]]]].
  unfold parse_statement, parse_fexprplus. intros H. fuel_walk.
Qed.

(** The answer of the parser does not depend on the fuel, from twenty
    units per token on. *)
Lemma parse_statement_stable (ts : list token) (n : nat) :
  20 * (List.length ts + 1) <= n ->
  parse_statement n ts = parse_statement (20 * (List.length ts + 1)) ts.
Proof.
  intros Hn. induction Hn as [|m Hm IH]; [reflexivity|].
  rewrite <- IH. apply parse_statement_mono. apply parse_statement_enough. exact Hm.
Qed.

(** The text after the keyword SELECT and a blank. *)
Lemma lex_select (spelling s : string) :
  upper spelling = "SELECT" -> is_identifier spelling = true ->
  lex (spelling ++ String " " s) = TKw "SELECT" :: lex s.
Proof.
  intros Hup Hid.
  rewrite (lex_token (spelling ++ String " " s) (t_ID spelling) (String " " s)).
  - unfold t_ID. rewrite Hup. cbn [mem_string existsb keywords]. rewrite lex_blank.
    reflexivity.
  - apply lex_one_ident; [exact Hid | reflexivity].
Qed.

(** X18: the keyword SELECT at the head of a query may be left out, and
    may be spelled in lower case: the text after it parses to the same
    answer. *)
Theorem select_keyword_is_optional (s : string) :
  next_is_kw "SELECT" (lex s) = false ->
  parse ("SELECT " ++ s) = parse s /\ parse ("select " ++ s) = parse s.
Proof.
  intros Hnot.
  assert (Hgen : forall spelling,
             upper spelling = "SELECT" -> is_identifier spelling = true ->
             parse (spelling ++ String " " s) = parse s).
  { intros spelling Hup Hid. unfold parse. rewrite (lex_select spelling s Hup Hid).
    set (ts := lex s) in *.
    assert (Hdrop : forall n, parse_statement n (TKw "SELECT" :: ts) = parse_statement n ts).
    { intros n. unfold parse_statement. rewrite Hnot. reflexivity. }
    rewrite Hdrop. apply parse_statement_stable. simpl. lia. }
  split.
  - apply (Hgen "SELECT"); reflexivity.
  - apply (Hgen "select"); reflexivity.
Qed.

Lemma select_keyword_is_optional_witness :
  parse "SELECT o.x WHERE o.x > 1" = parse "o.x WHERE o.x > 1".
Proof.
  apply (proj1 (select_keyword_is_optional "o.x WHERE o.x > 1" eq_refl)).
Defined.



(* ------------------------------------------------------------------ *)
(** ** Parsing phrase by phrase *)
(* ------------------------------------------------------------------ *)







































(* ------------------------------------------------------------------ *)
(** ** Lexing the printed form piece by piece *)
(* ------------------------------------------------------------------ *)





























(* ------------------------------------------------------------------ *)
(** ** Printed fields take one line *)
(* ------------------------------------------------------------------ *)
















(* ------------------------------------------------------------------ *)
(** ** Parsing the printed form of a query *)
(* ------------------------------------------------------------------ *)




















(* ------------------------------------------------------------------ *)
(** ** Operators without brackets *)
(* ------------------------------------------------------------------ *)










(* ------------------------------------------------------------------ *)
(** ** Texts without a statement *)
(* ------------------------------------------------------------------ *)

Lemma lex_tab (s : string) : lex (String (ascii_of_nat 9) s) = lex s.
Proof.
  unfold lex at 1. cbn [lex_fuel].
  change (char_in (String " " (String (ascii_of_nat 9) EmptyString)) (ascii_of_nat 9))
    with true.
  cbn iota. unfold lex. apply lex_fuel_enough; simpl; lia.
Qed.

Lemma span_suffix_blank (s : string) :
  blank_text s = true ->
  blank_text (snd (span (Ascii.eqb newline) s)) = true /\
  String.length (snd (span (Ascii.eqb newline) s)) <= String.length s.
Proof.
  induction s as [|c s IH]; intros Hs; [split; [reflexivity | simpl; lia]|].
  cbn [span]. destruct (Ascii.eqb newline c).
  - unfold blank_text in Hs. cbn [all_chars] in Hs. apply andb_true_iff in Hs.
    destruct Hs as [_ Hs]. destruct (IH Hs) as [H1 H2].
    destruct (span (Ascii.eqb newline) s) as [x y]. cbn [snd] in *.
    split; [exact H1 | simpl; lia].
  - cbn [snd]. split; [exact Hs | lia].
Qed.

Lemma lex_line_feeds (s : string) :
  lex (String newline s) = lex (snd (span (Ascii.eqb newline) s)).
Proof.
  apply lex_ignored. unfold lex_one.
  change (is_ident_start newline) with false. cbv iota.
  change (Ascii.eqb newline squote) with false. cbv iota.
  change (match_float (String newline s)) with (@None (string * string)).
  change (match_int (String newline s)) with (@None (Z * string)). cbv iota.
  rewrite Ascii.eqb_refl. f_equal. f_equal.
  change (span (Ascii.eqb newline) (String newline s))
    with (let '(a, b) := span (Ascii.eqb newline) s in (String newline a, b)).
  destruct (span (Ascii.eqb newline) s). reflexivity.
Qed.

Lemma lex_blank_text (s : string) : blank_text s = true -> lex s = [].
Proof.
  remember (String.length s) as n eqn:Hn. revert s Hn.
  induction n as [n IH] using lt_wf_ind. intros s Hn Hs.
  destruct s as [|c s']; [reflexivity|].
  pose proof Hs as Hs0. unfold blank_text in Hs. cbn [all_chars] in Hs.
  apply andb_true_iff in Hs. destruct Hs as [Hc Hs']. fold (blank_text s') in Hs'.
  cbn [String.length] in Hn.
  apply orb_true_iff in Hc. destruct Hc as [Hc|Hc];
    [apply orb_true_iff in Hc; destruct Hc as [Hc|Hc]|];
    apply Ascii.eqb_eq in Hc; subst c.
  - rewrite lex_blank. apply (IH (String.length s')); [lia | reflexivity | exact Hs'].
  - rewrite lex_tab. apply (IH (String.length s')); [lia | reflexivity | exact Hs'].
  - rewrite lex_line_feeds. destruct (span_suffix_blank s' Hs') as [H1 H2].
    apply (IH (String.length (snd (span (Ascii.eqb newline) s'))));
      [lia | reflexivity | exact H1].
Qed.

(** X21: a text without a statement.  On a text of blanks, tabs and line
    feeds only the parser meets the end of the input and [p_error],
    called with [None], raises [AttributeError]; on a text, or a text
    after SELECT, that starts with a character no token rule accepts,
    [t_error] raises its [SyntaxError]. *)
Theorem text_without_statement_raises (s : string) :
  (blank_text s = true ->
   parse s = Raise (AttributeError "'NoneType' object has no attribute 'type'")) /\
  (lex_one s = None -> s <> "" ->
   stops (fun c => char_in (String " " (String (ascii_of_nat 9) EmptyString)) c) s = true ->
   parse s = Raise LexError /\ parse ("SELECT " ++ s) = Raise LexError).
Proof.
  split.
  - intros Hs. unfold parse. rewrite (lex_blank_text s Hs). reflexivity.
  - intros Hone Hne Hstop. pose proof (lex_error s Hstop Hne Hone) as Hlex. split.
    + unfold parse. rewrite Hlex. reflexivity.
    + unfold parse. change ("SELECT " ++ s) with ("SELECT" ++ String " " s).
      rewrite (lex_select "SELECT" s eq_refl eq_refl), Hlex. reflexivity.
Qed.

Lemma text_without_statement_raises_witness :
  parse (String " " (String newline " "))
  = Raise (AttributeError "'NoneType' object has no attribute 'type'") /\
  parse "SELECT #1" = Raise LexError.
Proof.
  split.
  - apply (proj1 (text_without_statement_raises (String " " (String newline " ")))).
    reflexivity.
  - apply (proj2 (text_without_statement_raises "#1")); [reflexivity | discriminate | reflexivity].
Defined.
